(** * Silence endpoint compiler: a shallow embedding of
      [silence/server/endpoint.py] and the properties of its registration-time
      and request-time behaviour, and of the generator of endpoints of
      [silence/server/endpoint_creator.py].

    Python [str] values are modelled as [string]: a sequence of characters,
    each [ascii] standing for one code point in the range 0..255.  Character
    classes ([\w], white space) and [str.lower] follow Python's Unicode tables
    restricted to that range. *)

From Stdlib Require Import ZArith Strings.String Strings.Ascii Numbers.DecimalString.
From Stdlib Require Structures.OrderedTypeEx.
From Equations Require Import Equations.
From stdpp Require Import gmap strings list fin_maps sorting.

Open Scope string_scope.
Open Scope list_scope.

(** ** Characters and strings *)

Module PyStr.

Definition code (c : ascii) : N := N_of_ascii c.

Definition in_range (lo hi : N) (c : ascii) : bool :=
  (N.leb lo (code c) && N.leb (code c) hi)%bool.

(** [\w] of the [re] module on [str] patterns: alphanumeric code points
    ([str.isalnum]) and the underscore. *)
Definition is_word (c : ascii) : bool :=
  (in_range 48 57 c      (* 0-9 *)
   || in_range 65 90 c   (* A-Z *)
   || N.eqb (code c) 95  (* _ *)
   || in_range 97 122 c  (* a-z *)
   || N.eqb (code c) 170 || in_range 178 179 c || N.eqb (code c) 181
   || in_range 185 186 c || in_range 188 190 c
   || in_range 192 214 c || in_range 216 246 c || in_range 248 255 c)%bool.

(** White space: [str.isspace]. *)
Definition is_space (c : ascii) : bool :=
  (in_range 9 13 c || in_range 28 32 c || N.eqb (code c) 133
   || N.eqb (code c) 160)%bool.

(** The white space [int] accepts around a number: the separators 28 to 31
    are not part of it. *)
Definition is_int_space (c : ascii) : bool :=
  (in_range 9 13 c || N.eqb (code c) 32 || N.eqb (code c) 133
   || N.eqb (code c) 160)%bool.

Definition is_digit (c : ascii) : bool := in_range 48 57 c.

(** [str.lower] on one code point. *)
Definition lower_char (c : ascii) : ascii :=
  if (in_range 65 90 c || in_range 192 214 c || in_range 216 222 c)%bool
  then ascii_of_N (code c + 32) else c.

Fixpoint lower (s : string) : string :=
  match s with
  | EmptyString => EmptyString
  | String c s' => String (lower_char c) (lower s')
  end.

(** [s.startswith(p)] *)
Fixpoint startswith (p s : string) : bool :=
  match p, s with
  | EmptyString, _ => true
  | String a p', String b s' => Ascii.eqb a b && startswith p' s'
  | String _ _, EmptyString => false
  end.

(** [p in s] for two strings. *)
Fixpoint contains (p s : string) : bool :=
  startswith p s ||
  match s with
  | EmptyString => false
  | String _ s' => contains p s'
  end.

(** The longest run of word characters at the front of [s], and what
    follows it: how a greedy [\w*] consumes its input. *)
Fixpoint take_word (s : string) : string :=
  match s with
  | String c s' => if is_word c then String c (take_word s') else EmptyString
  | EmptyString => EmptyString
  end.

Fixpoint drop_word (s : string) : string :=
  match s with
  | String c s' => if is_word c then drop_word s' else s
  | EmptyString => EmptyString
  end.

Definition starts_word (s : string) : bool :=
  match s with
  | String c _ => is_word c
  | EmptyString => false
  end.

Fixpoint all_word (s : string) : bool :=
  match s with
  | String c s' => is_word c && all_word s'
  | EmptyString => true
  end.

Fixpoint reversed (s : string) : string :=
  match s with
  | EmptyString => EmptyString
  | String c s' => reversed s' +:+ String c EmptyString
  end.

Fixpoint has_char (c : ascii) (s : string) : bool :=
  match s with
  | EmptyString => false
  | String d s' => Ascii.eqb d c || has_char c s'
  end.

Lemma str_app_nil_l (s : string) : "" +:+ s = s.
Proof. reflexivity. Qed.

Lemma str_app_cons (c : ascii) (s t : string) : String c s +:+ t = String c (s +:+ t).
Proof. reflexivity. Qed.

Lemma str_app_nil_r (s : string) : s +:+ "" = s.
Proof. induction s as [|c s IH]; [done|]. by rewrite str_app_cons, IH. Qed.

Lemma str_app_assoc (s t u : string) : (s +:+ t) +:+ u = s +:+ (t +:+ u).
Proof. induction s as [|c s IH]; [done|]. by rewrite !str_app_cons, IH. Qed.

Lemma take_drop_word s : take_word s +:+ drop_word s = s.
Proof.
  induction s as [|c s IH]; simpl; [done|].
  destruct (is_word c); [|done]. by rewrite str_app_cons, IH.
Qed.

Lemma drop_word_length s : String.length (drop_word s) <= String.length s.
Proof. induction s as [|c s IH]; simpl; [lia|]. destruct (is_word c); simpl; lia. Qed.

End PyStr.

Import PyStr.

(** ** Parameter extractor and placeholder translator *)

(** [re.findall(r"\$\w+", string)]: scan left to right; where a dollar sign
    is followed by at least one word character the match is the dollar sign
    and the whole run, and the scan resumes after the run; elsewhere it moves
    on by one character. *)
Equations? findall_params (s : string) : list string by wf (String.length s) lt :=
  findall_params EmptyString := [];
  findall_params (String c s') :=
    if (Ascii.eqb c "$" && starts_word s')%bool
    then String c (take_word s') :: findall_params (drop_word s')
    else findall_params s'.
Proof. all: simpl; pose proof (drop_word_length s'); lia. Qed.

(** [def extract_params(string)]: the matches without their first character. *)
Definition extract_params (s : string) : list string :=
  map (fun x => match x with String _ x' => x' | EmptyString => EmptyString end)
      (findall_params s).

(** [re.sub(r"\$(\w+)", r"<\1>", url)] *)
Equations? flaskify_url (url : string) : string by wf (String.length url) lt :=
  flaskify_url EmptyString := EmptyString;
  flaskify_url (String c s') :=
    if (Ascii.eqb c "$" && starts_word s')%bool
    then "<" +:+ take_word s' +:+ ">" +:+ flaskify_url (drop_word s')
    else String c (flaskify_url s').
Proof. all: simpl; pose proof (drop_word_length s'); lia. Qed.

(** [RE_QUERY_PARAM = re.compile(r"^.*\$\w+/?$")] used through [.match(route)].
    [tail_match s] is [\$\w+/?$] matched where [s] starts: the run of word
    characters is consumed whole (a shorter run would leave a word character,
    which neither [/?] nor [$] accepts), an optional slash follows, and [$]
    holds at the end of the string or just before a final line feed. *)
Definition LF : ascii := ascii_of_N 10.

Definition at_dollar_anchor (s : string) : bool :=
  match s with
  | EmptyString => true
  | String c EmptyString => Ascii.eqb c LF
  | _ => false
  end.

Definition tail_match (s : string) : bool :=
  match s with
  | String c s' =>
      Ascii.eqb c "$" && starts_word s' &&
      match drop_word s' with
      | String d t => (Ascii.eqb d "/" && at_dollar_anchor t) || at_dollar_anchor (String d t)
      | EmptyString => true
      end
  | EmptyString => false
  end.

(** [^.*] lets the tail start after any number of characters other than a
    line feed. *)
Fixpoint RE_QUERY_PARAM_match (route : string) : bool :=
  tail_match route ||
  match route with
  | String c s' => negb (Ascii.eqb c LF) && RE_QUERY_PARAM_match s'
  | EmptyString => false
  end.

(** ** Python values *)

(** The values that travel through rows, token claims and request bodies.
    Floating-point columns are left out. *)
Inductive value :=
| VNone
| VBool (b : bool)
| VInt (n : Z)
| VStr (s : string).

#[global] Instance value_eq_dec : EqDecision value.
Proof. solve_decision. Defined.

(** An argument that may or may not be a list, as [allowed_roles] is. *)
Inductive pyobj :=
| Scalar (v : value)
| PyList (l : list value).

Inductive exn :=
| KeyError
| TypeError
| HTTPError (code : Z) (msg : string)
| SystemExit (code : Z).

Inductive res (A : Type) :=
| Val (a : A)
| Exn (e : exn).
Arguments Val {A} a.
Arguments Exn {A} e.

Module Py.

Definition num_of (v : value) : option Z :=
  match v with
  | VBool b => Some (if b then 1 else 0)%Z
  | VInt n => Some n
  | _ => None
  end.

(** [a == b] *)
Definition eq (a b : value) : bool :=
  match a, b with
  | VNone, VNone => true
  | VStr s, VStr t => String.eqb s t
  | _, _ => match num_of a, num_of b with
            | Some x, Some y => Z.eqb x y
            | _, _ => false
            end
  end.

(** [a < b]; [None] is the [TypeError] of unorderable operands. *)
Definition lt (a b : value) : option bool :=
  match a, b with
  | VStr s, VStr t => Some (String.ltb s t)
  | _, _ => match num_of a, num_of b with
            | Some x, Some y => Some (Z.ltb x y)
            | _, _ => None
            end
  end.

(** [str(v)] *)
Definition str (v : value) : string :=
  match v with
  | VNone => "None"
  | VBool true => "True"
  | VBool false => "False"
  | VInt n => NilEmpty.string_of_int (Z.to_int n)
  | VStr s => s
  end.

(** [l1 == l2] for two lists *)
Fixpoint list_eq (l1 l2 : list value) : bool :=
  match l1, l2 with
  | [], [] => true
  | x :: l1', y :: l2' => eq x y && list_eq l1' l2'
  | _, _ => false
  end.

(** [x in o] *)
Definition contains (x : value) (o : pyobj) : res bool :=
  match o with
  | PyList l => Val (existsb (eq x) l)
  | Scalar (VStr s) => match x with
                       | VStr p => Val (PyStr.contains p s)
                       | _ => Exn TypeError
                       end
  | Scalar _ => Exn TypeError
  end.

(** Truth value of a string or [None]. *)
Definition truthy_str (o : option string) : bool :=
  match o with
  | Some (String _ _) => true
  | _ => false
  end.

Fixpoint lstrip (space : ascii -> bool) (s : string) : string :=
  match s with
  | String c s' => if space c then lstrip space s' else s
  | EmptyString => EmptyString
  end.

Definition strip (space : ascii -> bool) (s : string) : string :=
  reversed (lstrip space (reversed (lstrip space s))).

Definition digit_val (c : ascii) : Z := Z.of_N (code c) - 48.

(** Decimal digits in which a single underscore may separate two digits. *)
Fixpoint parse_digits (acc : Z) (after_digit : bool) (s : string) : option Z :=
  match s with
  | EmptyString => if after_digit then Some acc else None
  | String c s' =>
      if is_digit c then parse_digits (10 * acc + digit_val c) true s'
      else if Ascii.eqb c "_" && after_digit then
        match s' with
        | EmptyString => None
        | _ => parse_digits acc false s'
        end
      else None
  end.

(** [int(s)] for a string; [None] is [ValueError].  (The interpreter's cap on
    the number of digits is not modelled.) *)
Definition int (s : string) : option Z :=
  match strip is_int_space s with
  | String "+" d => parse_digits 0 false d
  | String "-" d => Z.opp <$> parse_digits 0 false d
  | d => parse_digits 0 false d
  end.

(** [l[start:stop]] with Python's treatment of negative and out-of-range
    bounds. *)
Definition slice_bound (n i : Z) : Z :=
  if (i <? 0)%Z then Z.max (i + n) 0 else Z.min i n.

Definition slice {A} (l : list A) (start stop : Z) : list A :=
  let n := Z.of_nat (length l) in
  let lo := slice_bound n start in
  let hi := slice_bound n stop in
  take (Z.to_nat (hi - lo)) (drop (Z.to_nat lo) l).

End Py.

(** ** Exceptions as values *)

#[global] Instance res_ret : MRet res := fun _ a => Val a.
#[global] Instance res_bind : MBind res := fun _ _ f m =>
  match m with
  | Val a => f a
  | Exn e => Exn e
  end.

(** ** Result shaper *)

(** A row of a result set: a mapping from column name to value. *)
Abbreviation row := (gmap string value).

(** The query string of a request ([request.args]): pairs in arrival order,
    a key possibly more than once.  [get] returns the first value of a key,
    [items] one pair per key with its first value. *)
Module MultiDict.

Definition t := list (string * string).

Fixpoint get (key : string) (args : t) : option string :=
  match args with
  | [] => None
  | (k, v) :: rest => if String.eqb k key then Some v else get key rest
  end.

Fixpoint items_from (seen : list string) (args : t) : list (string * string) :=
  match args with
  | [] => []
  | (k, v) :: rest =>
      if existsb (String.eqb k) seen then items_from seen rest
      else (k, v) :: items_from (k :: seen) rest
  end.

Definition items (args : t) : list (string * string) := items_from [] args.

End MultiDict.

(** Modelled from the spec: the object [Min] of [silence.utils.min_type],
    absent from the sources, of which the spec says "a sentinel minimum
    comparator" such that "None sorts below any concrete value".  A sort key
    is either that sentinel or a value of the row. *)
Inductive sort_key :=
| Min
| Key (v : value).

Definition key_lt (a b : sort_key) : option bool :=
  match a, b with
  | Min, Min => Some false
  | Min, Key _ => Some true
  | Key _, Min => Some false
  | Key x, Key y => Py.lt x y
  end.

Definition lift_lt (o : option bool) : res bool :=
  match o with
  | Some b => Val b
  | None => Exn TypeError
  end.

(** [list.sort(key=..., reverse=...)]: every key is computed before any
    comparison; the sort is stable and compares with [<] only; with
    [reverse] the list is reversed before and after, which keeps equal
    elements in their original order.  An element is placed after the
    elements already there that are not greater than it. *)
Section ListSort.
Context {A : Type}.

Fixpoint insert_keyed (x : sort_key * A) (l : list (sort_key * A)) : res (list (sort_key * A)) :=
  match l with
  | [] => Val [x]
  | y :: l' =>
      b ← lift_lt (key_lt (fst x) (fst y));
      if b : bool then Val (x :: y :: l')
      else l'' ← insert_keyed x l'; Val (y :: l'')
  end.

Fixpoint sort_keyed (acc : list (sort_key * A)) (l : list (sort_key * A)) : res (list (sort_key * A)) :=
  match l with
  | [] => Val acc
  | x :: l' => acc' ← insert_keyed x acc; sort_keyed acc' l'
  end.

Fixpoint compute_keys (key : A -> res sort_key) (l : list A) : res (list (sort_key * A)) :=
  match l with
  | [] => Val []
  | x :: l' => k ← key x; ks ← compute_keys key l'; Val ((k, x) :: ks)
  end.

Definition list_sort (key : A -> res sort_key) (reverse : bool) (l : list A) : res (list A) :=
  keyed ← compute_keys key l;
  sorted ← sort_keyed [] (if reverse then rev keyed else keyed);
  Val (map snd (if reverse then rev sorted else sorted)).
End ListSort.

(** [filter_func], the lambda of [filter_query_results]: every criterion
    whose key is a column of the row must agree with it. *)
Definition filter_func (filter_criteria : list (string * string)) (elem : row) : bool :=
  forallb (fun '(k, v) =>
             match elem !! k with
             | None => true
             | Some x => String.eqb (lower (Py.str x)) (lower v)
             end) filter_criteria.

(** [order_key_func]: [elem[sort_param]] raises [KeyError] when the row has
    no such column, which is always so when [sort_param] is [None]. *)
Definition order_key_func (sort_param : option string) (elem : row) : res sort_key :=
  match sort_param with
  | None => Exn KeyError
  | Some c =>
      match elem !! c with
      | None => Exn KeyError
      | Some VNone => Val Min
      | Some v => Val (Key v)
      end
  end.

(** Truth value of an integer or [None]. *)
Definition int_truthy (o : option Z) : bool :=
  match o with
  | Some n => negb (Z.eqb n 0)
  | None => false
  end.

(** [def filter_query_results(data, args)] *)
Definition filter_query_results (data : list row) (args : MultiDict.t) : res (list row) :=
  let sort_param := MultiDict.get "_sort" args in
  let sort_reverse := match MultiDict.get "_order" args with
                      | Some o => String.eqb o "desc"
                      | None => false
                      end in
  let limit := MultiDict.get "_limit" args ≫= Py.int in
  let page := MultiDict.get "_page" args ≫= Py.int in
  let filter_criteria :=
    List.filter (fun pair => negb (startswith "_" (fst pair))) (MultiDict.items args) in
  let res := List.filter (filter_func filter_criteria) data in
  res ← match list_sort (order_key_func sort_param) sort_reverse res with
        | Val sorted => Val sorted
        | Exn KeyError => Val res
        | Exn e => Exn e
        end;
  let offset := if int_truthy limit && int_truthy page
                then (default 0 limit * default 0 page)%Z else 0%Z in
  let top := if int_truthy limit then (offset + default 0 limit)%Z
             else Z.of_nat (length res) in
  Val (Py.slice res offset top).

(** A row with one column. *)
Definition row1 (k : string) (v : value) : row := {[ k := v ]}.

(** ** The server: log, route table, data access *)

(** Modelled from the spec: the constants [SELECT], [INSERT], [UPDATE] and
    [DELETE] of the [silence.sql] module, absent from the sources, of which
    the spec says "QueryOperationKind: enumeration {READ, CREATE, UPDATE,
    DELETE}, inferred from the leading keyword of the query template";
    [OTHER] is any value of [get_sql_op] that is none of the four. *)
Inductive sql_op := SELECT | INSERT | UPDATE | DELETE | OTHER.

#[global] Instance sql_op_eq_dec : EqDecision sql_op.
Proof. solve_decision. Defined.

(** [OP_VERBS] *)
Definition OP_VERBS (op : sql_op) : option string :=
  match op with
  | SELECT => Some "get"
  | INSERT => Some "post"
  | UPDATE => Some "put"
  | DELETE => Some "delete"
  | OTHER => None
  end.

Inductive level := DEBUG | INFO | WARNING | ERROR.

(** What a log record says; the wording of the messages is not modelled. *)
Inductive log_msg :=
| MsgSettingUp (method route : string)
| MsgLoggedIdNoAuth (method route : string)
| MsgWrongVerb (verb : string) (op : sql_op) (endpoint correct_verb : string)
| MsgUnsupportedQuery (sql endpoint : string)
| MsgRolesNotList (allowed_roles : pyobj) (method route : string)
| MsgRolesIgnored (method route : string)
| MsgRolesEmpty (method route : string)
| MsgParamsMissing (route : string) (diff : gset string)
| MsgInvalidToken
| MsgRoles (allowed_roles : pyobj) (user_role : value)
| MsgBodyParams (body_params : gmap string value).

(** A decoded token: the claims in the order of the dictionary. *)
Definition user_data := list (string * value).

(** What the closure [route_handler] captures of [setup_endpoint]. *)
Record endpoint := {
  ep_route : string;
  ep_sql : string;
  ep_auth_required : bool;
  ep_allowed_roles : pyobj;
  ep_request_body_params : list string;
  ep_logged_user : bool;
  ep_sql_params : list string;
  ep_url_params : list string;
  ep_sql_op : sql_op
}.

Record url_rule := {
  rule : string;
  rule_endpoint : string;
  view_func : endpoint;
  methods : list string
}.

(** An entry of the summary; [sum_method] is the method as declared, which
    the source records in upper case. *)
Record summary_entry := {
  sum_route : string;
  sum_method : string;
  sum_description : option string
}.

Inductive dal_call :=
| SafeQuery (query : string) (params : list value)
| SafeUpdate (query : string) (params : list value).

Record world := {
  logs : list (level * log_msg);
  url_map : list url_rule;
  api_summary : list summary_entry;
  dal_calls : list dal_call
}.

(** Computations that read and change the server and may raise. *)
Definition M (A : Type) : Type := world -> res A * world.

#[global] Instance M_ret : MRet M := fun _ a w => (Val a, w).
#[global] Instance M_bind : MBind M := fun _ _ f m w =>
  match m w with
  | (Val a, w') => f a w'
  | (Exn e, w') => (Exn e, w')
  end.

Definition raise {A} (e : exn) : M A := fun w => (Exn e, w).
Definition lift {A} (r : res A) : M A := fun w => (r, w).
Definition pass : M unit := mret tt.

Definition add_logs (l : list (level * log_msg)) (w : world) : world :=
  {| logs := logs w ++ l; url_map := url_map w;
     api_summary := api_summary w; dal_calls := dal_calls w |}.

Definition logger (lv : level) (msg : log_msg) : M unit := fun w =>
  (Val tt, add_logs [(lv, msg)] w).

(** [sys.exit(1)] *)
Definition sys_exit {A} (code : Z) : M A := raise (SystemExit code).

(** [server_manager.APP.add_url_rule] and [API_SUMMARY.register_endpoint] *)
Definition add_url_rule (r : string) (name : string) (f : endpoint) (ms : list string) : M unit :=
  fun w =>
  (Val tt, {| logs := logs w;
              url_map := url_map w ++ [{| rule := r; rule_endpoint := name; view_func := f; methods := ms |}];
              api_summary := api_summary w; dal_calls := dal_calls w |}).

Definition register_endpoint (e : summary_entry) : M unit := fun w =>
  (Val tt, {| logs := logs w; url_map := url_map w;
              api_summary := api_summary w ++ [e]; dal_calls := dal_calls w |}).

Definition record_call (c : dal_call) : M unit := fun w =>
  (Val tt, {| logs := logs w; url_map := url_map w;
              api_summary := api_summary w; dal_calls := dal_calls w ++ [c] |}).

(** [settings] *)
Record settings_t := {
  API_PREFIX : string;
  USER_AUTH_DATA_role : option string;
  USER_AUTH_DATA_table : string;
  DISPLAY_BODY_PARAMS_CLI : bool
}.

Record request := {
  header_Token : option string;
  args : MultiDict.t;
  is_json : bool;
  json : gmap string value;
  form : gmap string value
}.

Inductive body := Rows (rows : list row) | Written (r : value).

(** [s.endswith("/")] and [s[:-1]] *)
Fixpoint endswith_slash (s : string) : bool :=
  match s with
  | EmptyString => false
  | String c EmptyString => Ascii.eqb c "/"
  | String _ s' => endswith_slash s'
  end.

Fixpoint drop_last (s : string) : string :=
  match s with
  | EmptyString => EmptyString
  | String _ EmptyString => EmptyString
  | String c s' => String c (drop_last s')
  end.

(** [check_params_match] *)
Definition check_params_match (sql_params user_params : list string) (route : string) : M unit :=
  let sql_params_set : gset string := list_to_set sql_params in
  let user_params_set : gset string := list_to_set user_params in
  let diff := sql_params_set ∖ user_params_set in
  let diff := if decide ("loggedId" ∈ diff) then diff ∖ {["loggedId"]} else diff in
  if decide (diff = ∅) then pass
  else (logger ERROR (MsgParamsMissing route diff);; sys_exit 1).

(** [check_auth_roles] *)
Definition check_auth_roles (auth_required : bool) (allowed_roles : pyobj)
    (method route : string) : M unit :=
  match allowed_roles with
  | Scalar _ =>
      logger ERROR (MsgRolesNotList allowed_roles method route);; sys_exit 1
  | PyList l =>
      (if negb auth_required && Nat.ltb 0 (length l) && negb (Py.list_eq l [VStr "*"])
       then logger WARNING (MsgRolesIgnored method route) else pass);;
      (if auth_required && Nat.eqb (length l) 0
       then logger WARNING (MsgRolesEmpty method route) else pass)
  end.

(** [d[k]], raising [KeyError] *)
Definition getitem (d : gmap string value) (k : string) : res value :=
  match d !! k with
  | Some v => Val v
  | None => Exn KeyError
  end.

Fixpoint getitems (d : gmap string value) (ks : list string) : res (list value) :=
  match ks with
  | [] => Val []
  | k :: ks' => v ← getitem d k; vs ← getitems d ks'; Val (v :: vs)
  end.

(** [next((v for k, v in d.items() if k.lower() == name.lower()), None)] *)
Fixpoint find_role (d : user_data) (name : string) : value :=
  match d with
  | [] => VNone
  | (k, v) :: d' => if String.eqb (lower k) (lower name) then v else find_role d' name
  end.

(** [d[pk]] on a decoded token *)
Fixpoint user_getitem (d : user_data) (k : string) : res value :=
  match d with
  | [] => Exn KeyError
  | (k', v) :: d' => if String.eqb k' k then Val v else user_getitem d' k
  end.

Section Endpoint.

(** The collaborators of the module: the configuration, the operation of a
    query ([silence.sql.get_sql_op]), token verification (where [None] is a
    [TokenError]), the primary key of a table, the placeholder converter and
    the data access layer. *)
Variable settings : settings_t.
Variable get_sql_op : string -> sql_op.
Variable check_token : string -> option user_data.
Variable get_primary_key : string -> option string.
Variable silence_to_mysql : string -> string.
Variable db_query : string -> list value -> res (list row).
Variable db_update : string -> list value -> res value.

(** [dal.api_safe_query] and [dal.api_safe_update] *)
Definition api_safe_query (q : string) (params : list value) : M (list row) :=
  record_call (SafeQuery q params);; lift (db_query q params).

Definition api_safe_update (q : string) (params : list value) : M value :=
  record_call (SafeUpdate q params);; lift (db_update q params).

(** [check_method] *)
Definition check_method (sql verb endpoint : string) : M unit :=
  let sql_op := get_sql_op sql in
  match OP_VERBS sql_op with
  | Some correct_verb =>
      if negb (String.eqb correct_verb (lower verb))
      then logger WARNING (MsgWrongVerb verb sql_op endpoint correct_verb)
      else pass
  | None =>
      logger ERROR (MsgUnsupportedQuery sql endpoint);; sys_exit 1
  end.

(** [get_logged_user] *)
Definition get_logged_user (req : request) : M (option user_data) :=
  match header_Token req with
  | Some (String c t) =>
      match check_token (String c t) with
      | Some d => mret (Some d)
      | None => logger DEBUG MsgInvalidToken;; mret None
      end
  | _ => mret None
  end.

(** [check_session] *)
Definition check_session (logged_user_data : option user_data) (allowed_roles : pyobj) : M unit :=
  match logged_user_data with
  | None => raise (HTTPError 401 "Unauthorized")
  | Some d =>
      let role_col_name := USER_AUTH_DATA_role settings in
      if Py.truthy_str role_col_name then
        let user_role := find_role d (default "" role_col_name) in
        logger DEBUG (MsgRoles allowed_roles user_role);;
        listed ← lift (Py.contains user_role allowed_roles);
        if negb listed then
          wildcard ← lift (Py.contains (VStr "*") allowed_roles);
          if negb wildcard then raise (HTTPError 401 "Unauthorized") else pass
        else pass
      else pass
  end.

(** [get_current_user_id] *)
Definition get_current_user_id (logged_user_data : option user_data) : M value :=
  match logged_user_data with
  | None => mret VNone
  | Some d =>
      let users_table := USER_AUTH_DATA_table settings in
      let pk := get_primary_key users_table in
      if Py.truthy_str pk then lift (user_getitem d (default "" pk)) else mret VNone
  end.

(** The body of [route_handler], over the variables it captures. *)
Definition route_handler (ep : endpoint) (req : request) (kwargs : gmap string value)
    : M (body * Z) :=
  logged_user_data ← get_logged_user req;
  (if ep_auth_required ep then check_session logged_user_data (ep_allowed_roles ep) else pass);;
  request_url_params_dict ←
    (if ep_logged_user ep
     then uid ← get_current_user_id logged_user_data; mret (<["loggedId" := uid]> kwargs)
     else mret kwargs);
  let query_string := silence_to_mysql (ep_sql ep) in
  let status := 200%Z in
  if decide (ep_sql_op ep = SELECT) then
    url_pattern_params ← lift (getitems request_url_params_dict (ep_sql_params ep));
    res ← api_safe_query query_string url_pattern_params;
    res ← lift (filter_query_results res (args req));
    if RE_QUERY_PARAM_match (ep_route ep) && bool_decide (res = [])
    then raise (HTTPError 404 "Not found")
    else mret (Rows res, status)
  else
    let form := if is_json req then json req else form req in
    let body_params : gmap string value :=
      foldl (fun d param => <[param := default VNone (form !! param)]> d) ∅
            (ep_request_body_params ep) in
    body_params ←
      foldl (fun acc param =>
               d ← acc; v ← lift (getitem request_url_params_dict param);
               mret (<[param := v]> d))
            (mret body_params) (ep_url_params ep);
    (if DISPLAY_BODY_PARAMS_CLI settings then logger INFO (MsgBodyParams body_params) else pass);;
    param_tuple ← lift (getitems body_params (ep_sql_params ep));
    res ← api_safe_update query_string param_tuple;
    mret (Written res, status).

(** [setup_endpoint] *)
Definition setup_endpoint (route method sql : string) (auth_required : bool)
    (allowed_roles : pyobj) (description : option string)
    (request_body_params : list string) : M unit :=
  logger DEBUG (MsgSettingUp method route);;
  let logged_user := contains "$loggedId" sql in
  (if logged_user && negb auth_required
   then logger WARNING (MsgLoggedIdNoAuth method route) else pass);;
  let route_prefix := API_PREFIX settings in
  let route_prefix := if endswith_slash route_prefix then drop_last route_prefix
                      else route_prefix in
  let full_route := route_prefix +:+ route in
  check_method sql method route;;
  check_auth_roles auth_required allowed_roles method route;;
  let sql_params := extract_params sql in
  let url_params := extract_params route in
  let sql_op := get_sql_op sql in
  (if bool_decide (sql_op = SELECT) || bool_decide (sql_op = DELETE)
   then check_params_match sql_params url_params route else pass);;
  (if bool_decide (sql_op = INSERT) || bool_decide (sql_op = UPDATE)
   then check_params_match sql_params (url_params ++ request_body_params) route else pass);;
  add_url_rule (flaskify_url full_route) (method +:+ route)
    {| ep_route := route; ep_sql := sql; ep_auth_required := auth_required;
       ep_allowed_roles := allowed_roles; ep_request_body_params := request_body_params;
       ep_logged_user := logged_user; ep_sql_params := sql_params;
       ep_url_params := url_params; ep_sql_op := sql_op |}
    [method];;
  register_endpoint {| sum_route := full_route; sum_method := method;
                       sum_description := description |}.

End Endpoint.

(** ** A concrete environment *)

(** Modelled from the spec: [silence.sql.get_sql_op], absent from the
    sources, of which the spec says that the operation is "inferred from the
    leading keyword of the query template".  The keyword is the first run of
    characters other than white space, compared without regard to case. *)
Module SqlModel.

Fixpoint first_token (s : string) : string :=
  match s with
  | String c s' => if is_space c then EmptyString else String c (first_token s')
  | EmptyString => EmptyString
  end.

Definition leading_keyword (sql : string) : string :=
  lower (first_token (Py.lstrip is_space sql)).

Definition get_sql_op (sql : string) : sql_op :=
  let kw := leading_keyword sql in
  if String.eqb kw "select" then SELECT
  else if String.eqb kw "insert" then INSERT
  else if String.eqb kw "update" then UPDATE
  else if String.eqb kw "delete" then DELETE
  else OTHER.

End SqlModel.

Module Demo.

Definition settings : settings_t :=
  {| API_PREFIX := "/api/"; USER_AUTH_DATA_role := Some "role";
     USER_AUTH_DATA_table := "users"; DISPLAY_BODY_PARAMS_CLI := false |}.

Definition settings_no_role : settings_t :=
  {| API_PREFIX := "/api/"; USER_AUTH_DATA_role := None;
     USER_AUTH_DATA_table := "users"; DISPLAY_BODY_PARAMS_CLI := false |}.

(** Tokens: ["alice"] decodes to an administrator, ["bob"] to a user whose
    role is written in capitals; every other token is invalid. *)
Definition check_token (token : string) : option user_data :=
  if String.eqb token "alice" then Some [("id", VInt 1); ("Role", VStr "admin")]
  else if String.eqb token "bob" then Some [("id", VInt 2); ("role", VStr "ADMIN")]
  else None.

Definition get_primary_key (table : string) : option string :=
  if String.eqb table "users" then Some "id" else None.

Definition silence_to_mysql (sql : string) : string := sql.

(** A database without rows. *)
Definition db_query (q : string) (params : list value) : res (list row) := Val [].
Definition db_update (q : string) (params : list value) : res value := Val (VInt 0).

Definition w0 : world := {| logs := []; url_map := []; api_summary := []; dal_calls := [] |}.

Definition setup := setup_endpoint settings SqlModel.get_sql_op.
Definition handler := route_handler settings check_token get_primary_key silence_to_mysql db_query db_update.

End Demo.

Module DemoEndpoints.

(** [GET /users], for administrators only. *)
Definition admin_users : endpoint :=
  {| ep_route := "/users"; ep_sql := "SELECT * FROM users"; ep_auth_required := true;
     ep_allowed_roles := PyList [VStr "admin"]; ep_request_body_params := [];
     ep_logged_user := false; ep_sql_params := []; ep_url_params := [];
     ep_sql_op := SELECT |}.

Definition request_with (token : option string) (query : MultiDict.t) : request :=
  {| header_Token := token; args := query; is_json := false; json := ∅; form := ∅ |}.

End DemoEndpoints.

Module DemoRoutes.

Definition read (route sql : string) : endpoint :=
  {| ep_route := route; ep_sql := sql; ep_auth_required := false;
     ep_allowed_roles := PyList [VStr "*"]; ep_request_body_params := [];
     ep_logged_user := false; ep_sql_params := extract_params sql;
     ep_url_params := extract_params route; ep_sql_op := SELECT |}.

Definition user_by_id : endpoint := read "/users/$id" "SELECT * FROM users WHERE id = $id".
Definition all_users : endpoint := read "/users" "SELECT * FROM users".

(** A route with a line feed before its final placeholder, and one with a
    line feed after it. *)
Definition broken_line : string := "/a" +:+ String LF "/$id".
Definition trailing_line : string := "/users/$id" +:+ String LF "".

Definition id7 : gmap string value := {[ "id" := VInt 7 ]}.
Definition no_token : request := DemoEndpoints.request_with None [].

End DemoRoutes.

Module DemoRows.

Definition numbered (n : Z) : row := {[ "n" := VInt n ]}.

Definition ten : list row :=
  map numbered [0; 1; 2; 3; 4; 5; 6; 7; 8; 9]%Z.

End DemoRows.

(** ** The vocabulary of the properties *)

(** The names a query needs and its declared sources do not supply, the
    reserved [loggedId] apart. *)
Definition missing_params (sql_params user_params : list string) : gset string :=
  (list_to_set sql_params ∖ list_to_set user_params) ∖ {["loggedId"]}.

(** Every parameter of the query, [loggedId] apart, is among the declared
    ones. *)
Definition covered (sql_params user_params : list string) : Prop :=
  forall p, p ∈ sql_params -> p <> "loggedId" -> p ∈ user_params.

(** Where the parameters of a query may come from: the route for a SELECT or
    a DELETE, the route and the declared body parameters for an INSERT or an
    UPDATE. *)
Definition declared_sources (op : sql_op) (route : string) (request_body_params : list string)
    : list string :=
  match op with
  | SELECT | DELETE => extract_params route
  | INSERT | UPDATE => (extract_params route ++ request_body_params)%list
  | OTHER => []
  end.

(** The records each step of a registration adds to the log. *)
Definition verb_notes (op : sql_op) (verb endpoint : string) : list (level * log_msg) :=
  match OP_VERBS op with
  | Some correct_verb =>
      if String.eqb correct_verb (lower verb) then []
      else [(WARNING, MsgWrongVerb verb op endpoint correct_verb)]
  | None => []
  end.

Definition roles_notes (auth_required : bool) (l : list value) (method route : string)
    : list (level * log_msg) :=
  ((if negb auth_required && Nat.ltb 0 (length l) && negb (Py.list_eq l [VStr "*"])
    then [(WARNING, MsgRolesIgnored method route)] else []) ++
   (if auth_required && Nat.eqb (length l) 0
    then [(WARNING, MsgRolesEmpty method route)] else []))%list.

Definition logged_id_notes (sql : string) (auth_required : bool) (method route : string)
    : list (level * log_msg) :=
  if contains "$loggedId" sql && negb auth_required
  then [(WARNING, MsgLoggedIdNoAuth method route)] else [].

(** The route under the API prefix, and the rule a registration installs. *)
Definition full_route_of (settings : settings_t) (route : string) : string :=
  (if endswith_slash (API_PREFIX settings) then drop_last (API_PREFIX settings)
   else API_PREFIX settings) +:+ route.

Definition installed_rule (settings : settings_t) (op : sql_op) (route method sql : string)
    (auth_required : bool) (allowed_roles : pyobj) (request_body_params : list string)
    : url_rule :=
  {| rule := flaskify_url (full_route_of settings route);
     rule_endpoint := method +:+ route;
     view_func :=
       {| ep_route := route; ep_sql := sql; ep_auth_required := auth_required;
          ep_allowed_roles := allowed_roles; ep_request_body_params := request_body_params;
          ep_logged_user := contains "$loggedId" sql;
          ep_sql_params := extract_params sql;
          ep_url_params := extract_params route; ep_sql_op := op |};
     methods := [method] |}.

Definition registration_notes (get_sql_op : string -> sql_op) (route method sql : string)
    (auth_required : bool) (l : list value) : list (level * log_msg) :=
  ([(DEBUG, MsgSettingUp method route)] ++ logged_id_notes sql auth_required method route ++
   verb_notes (get_sql_op sql) method route ++ roles_notes auth_required l method route)%list.

(** [covered], decided. *)
Definition coveredb (sql_params user_params : list string) : bool :=
  forallb (fun p => String.eqb p "loggedId" || existsb (String.eqb p) user_params) sql_params.

(** The identity a request carries, if any. *)
Definition token_identity (check_token : string -> option user_data) (req : request)
    : option user_data :=
  match header_Token req with
  | Some (String c t) => check_token (String c t)
  | _ => None
  end.

Definition token_notes (check_token : string -> option user_data) (req : request)
    : list (level * log_msg) :=
  match header_Token req with
  | Some (String c t) =>
      match check_token (String c t) with
      | Some _ => []
      | None => [(DEBUG, MsgInvalidToken)]
      end
  | _ => []
  end.

(** [x in l] for a list. *)
Definition py_in (x : value) (l : list value) : bool := existsb (Py.eq x) l.

Definition unauthorized : exn := HTTPError 401 "Unauthorized".

(** A route pattern ends in a placeholder, optionally followed by a slash. *)
Definition ends_in_placeholder (route : string) : Prop :=
  exists pre name,
    name <> "" /\ all_word name = true /\
    (route = pre +:+ "$" +:+ name \/ route = pre +:+ "$" +:+ name +:+ "/").

(** The first steps of [route_handler]: the gate and the parameters taken
    from the URL, with [loggedId] when the query uses it. *)
Definition bound_params (settings : settings_t) (check_token : string -> option user_data)
    (get_primary_key : string -> option string)
    (ep : endpoint) (req : request) (kwargs : gmap string value) : M (gmap string value) :=
  logged_user_data ← get_logged_user check_token req;
  (if ep_auth_required ep then check_session settings logged_user_data (ep_allowed_roles ep)
   else pass);;
  if ep_logged_user ep
  then uid ← get_current_user_id settings get_primary_key logged_user_data;
       mret (<["loggedId" := uid]> kwargs)
  else mret kwargs.

(** The server after one more query. *)
Definition record_query (q : string) (params : list value) (w : world) : world :=
  {| logs := logs w; url_map := url_map w; api_summary := api_summary w;
     dal_calls := dal_calls w ++ [SafeQuery q params] |}.

(** The last character of a string, if it has one. *)
Fixpoint last_char (s : string) : option ascii :=
  match s with
  | EmptyString => None
  | String c EmptyString => Some c
  | String _ s' => last_char s'
  end.

(** The controls of a query string, as [filter_query_results] reads them. *)
Definition limit_of (args : MultiDict.t) : option Z := MultiDict.get "_limit" args ≫= Py.int.
Definition page_of (args : MultiDict.t) : option Z := MultiDict.get "_page" args ≫= Py.int.

Definition filter_criteria_of (args : MultiDict.t) : list (string * string) :=
  List.filter (fun pair => negb (startswith "_" (fst pair))) (MultiDict.items args).

(** The rows after the filter, and after the filter and the sort. *)
Definition filtered_rows (data : list row) (args : MultiDict.t) : list row :=
  List.filter (filter_func (filter_criteria_of args)) data.

Definition sort_reverse_of (args : MultiDict.t) : bool :=
  match MultiDict.get "_order" args with
  | Some o => String.eqb o "desc"
  | None => false
  end.

Definition sorted_rows (data : list row) (args : MultiDict.t) : res (list row) :=
  match list_sort (order_key_func (MultiDict.get "_sort" args)) (sort_reverse_of args)
          (filtered_rows data args) with
  | Val sorted => Val sorted
  | Exn KeyError => Val (filtered_rows data args)
  | Exn e => Exn e
  end.

(** The sentinel ranks below every value. *)
Definition rank (k : sort_key) : nat :=
  match k with
  | Min => 0
  | Key _ => 1
  end.

Definition rank_le {A : Type} (x y : sort_key * A) : Prop := rank (fst x) <= rank (fst y).

Definition comparable {A : Type} (l1 l2 : list (sort_key * A)) : Prop :=
  forall x y, x ∈ l1 -> y ∈ l2 -> key_lt (fst x) (fst y) <> None.

(** The values of a column are of one type when, null apart, they are all
    numbers or all strings. *)
Definition is_number (v : value) : Prop := v = VNone \/ is_Some (Py.num_of v).
Definition is_text (v : value) : Prop := v = VNone \/ exists s, v = VStr s.

Definition typed_column (c : string) (rows : list row) : Prop :=
  (forall r, r ∈ rows -> exists v, r !! c = Some v /\ is_number v) \/
  (forall r, r ∈ rows -> exists v, r !! c = Some v /\ is_text v).

Definition null_at (c : string) (r : row) : Prop := r !! c = Some VNone.
Definition value_at (c : string) (r : row) : Prop := exists v, r !! c = Some v /\ v <> VNone.

(** A row passes the filters of a query string when each key that does not
    start with an underscore and is a column of the row has a value whose
    string form equals, in lower case, the value of the key. *)
Definition row_matches (args : MultiDict.t) (r : row) : Prop :=
  forall k v x,
    MultiDict.get k args = Some v -> startswith "_" k = false ->
    r !! k = Some x -> lower (Py.str x) = lower v.

(** Where a write endpoint takes the value of a parameter: the URL when the
    route declares it, else the body when the endpoint declares it there, a
    field the request lacks counting as [None]; else nowhere. *)
Definition write_source (ep : endpoint) (req : request) (dict : gmap string value)
    (p : string) : option value :=
  if decide (p ∈ ep_url_params ep) then dict !! p
  else if decide (p ∈ ep_request_body_params ep)
       then Some (default VNone ((if is_json req then json req else form req) !! p))
       else None.

(** The server after one more update. *)
Definition record_update (q : string) (params : list value) (w : world) : world :=
  {| logs := logs w; url_map := url_map w; api_summary := api_summary w;
     dal_calls := dal_calls w ++ [SafeUpdate q params] |}.

(** A key does not come before another when the other is not less than it;
    a row does not come before another when its key does not. *)
Definition key_le (a b : sort_key) : Prop := key_lt b a = Some false.

Definition row_le (c : string) (r1 r2 : row) : Prop :=
  exists k1 k2, order_key_func (Some c) r1 = Val k1 /\ order_key_func (Some c) r2 = Val k2 /\
                key_le k1 k2.

(** The keys of a typed column: the sentinel and numbers, or the sentinel
    and strings. *)
Definition number_key (k : sort_key) : Prop :=
  match k with
  | Min => True
  | Key v => is_Some (Py.num_of v)
  end.

Definition text_key (k : sort_key) : Prop :=
  match k with
  | Min => True
  | Key (VStr _) => True
  | Key _ => False
  end.

(** An order on keys that [<] decides: what the keys of a typed column have. *)
Record ordered_keys (good : sort_key -> Prop) : Prop := {
  ok_total : forall a b, good a -> good b -> key_lt a b <> None;
  ok_asym : forall a b, good a -> good b -> key_lt a b = Some true -> key_le a b;
  ok_trans : forall a b c, good a -> good b -> good c -> key_le a b -> key_le b c -> key_le a c
}.

Definition pair_le {A : Type} (x y : sort_key * A) : Prop := key_le (fst x) (fst y).

(** Endpoints that write, for the examples. *)
Module DemoWrites.

(** [PUT /users/$id], as a registration installs it, and a request whose
    body sends a name and, as well, an [id] of its own. *)
Definition rename_user : endpoint :=
  view_func (installed_rule Demo.settings UPDATE "/users/$id" "put"
               "UPDATE users SET name = $name, age = $age WHERE id = $id" false
               (PyList [VStr "*"]) ["name"; "age"]).

Definition rename_request : request :=
  {| header_Token := None; args := []; is_json := true;
     json := {[ "name" := VStr "Ann"; "id" := VInt 99 ]}; form := ∅ |}.

(** [POST /posts] with the author taken from the identity of the caller. *)
Definition create_post : endpoint :=
  view_func (installed_rule Demo.settings INSERT "/posts" "post"
               "INSERT INTO posts (title, author) VALUES ($title, $loggedId)" true
               (PyList [VStr "*"]) ["title"]).

Definition post_request : request :=
  {| header_Token := Some "alice"; args := []; is_json := true;
     json := {[ "title" := VStr "Hello" ]}; form := ∅ |}.

End DemoWrites.

(** * The endpoint generator ([endpoint_creator.py]) *)

(** ** Names, results and the trace of a run *)

(** An endpoint as the generator describes it: the dictionary that becomes an
    entry of a JSON file.  Only [generate_create] and [generate_update] set
    the key [request_body_params]. *)
Record endpoint_dict := {
  d_route : string;
  d_method : string;
  d_sql : string;
  d_auth_required : bool;
  d_allowed_roles : list string;
  d_description : string;
  d_request_body_params : option (list string)
}.

#[global] Instance endpoint_dict_eq_dec : EqDecision endpoint_dict.
Proof. solve_decision. Defined.

(** The tuples handed to the writer of the JavaScript file: operation, route,
    method, primary key, description. *)
Definition ep_tuple : Type := string * string * string * string * string.

(** The exceptions of the generator. *)
Module GenExn.
Inductive t := ValueError | UnboundLocalError | TypeError.
End GenExn.

Inductive outcome (A : Type) :=
| Ok (a : A)
| Raise (e : GenExn.t).
Arguments Ok {A} a.
Arguments Raise {A} e.

#[global] Instance outcome_ret : MRet outcome := fun _ a => Ok a.
#[global] Instance outcome_bind : MBind outcome := fun _ _ f m =>
  match m with
  | Ok a => f a
  | Raise e => Raise e
  end.

(** What the generator logs; the wording is not modelled. *)
Inductive gen_msg :=
| MsgSelectedDirectory (auto_dir : string)
| MsgFolderNotThere
| MsgRecreatingDirectory (auto_dir : string)
| MsgGeneratingEndpoints (name : string).

(** What a run does, in order: the records it logs and the calls it makes to
    the file system and to [generate_API_file_for_endpoints].  The calls are
    recorded, not interpreted, and [json.dumps] is kept symbolic: [WriteJson]
    holds the dictionary of endpoints that is serialised, in the order of its
    keys. *)
Inductive gen_event :=
| Log (lv : level) (msg : gen_msg)
| Rmtree (dir : string)
| Mkdir (dir : string)
| ApiFile (endpoints : list ep_tuple) (name : string)
| WriteJson (path : string) (dicts : list (string * endpoint_dict)).

Definition G (A : Type) : Type := list gen_event -> outcome A * list gen_event.

#[global] Instance G_ret : MRet G := fun _ a tr => (Ok a, tr).
#[global] Instance G_bind : MBind G := fun _ _ f m tr =>
  match m tr with
  | (Ok a, tr') => f a tr'
  | (Raise e, tr') => (Raise e, tr')
  end.

Definition emit (e : gen_event) : G unit := fun tr => (Ok tt, tr ++ [e]).
Definition lift_outcome {A} (o : outcome A) : G A := fun tr => (o, tr).

(** ** The generators of one endpoint *)

(** [s[:-2]] *)
Definition drop_last2 (s : string) : string := drop_last (drop_last s).

(** [def params_to_string(param_list, char_add, is_create=False, is_update=False)];
    the result is [None] when neither flag is set. *)
Definition params_to_string (param_list : list string) (char_add : string)
    (is_create is_update : bool) : option string :=
  if is_create then
    let res := "(" in
    let res := fold_left (fun res p => res +:+ ((char_add +:+ p) +:+ ", ")) param_list res in
    let res := drop_last2 res in
    Some (res +:+ ")")
  else if is_update then
    let res := "" in
    let res := fold_left (fun res p => res +:+ (((p +:+ " = $") +:+ p) +:+ ", ")) param_list res in
    Some (drop_last2 res)
  else None.

(** [s + x] where [x] may be [None], which a string cannot be added to. *)
Definition str_add (s : string) (x : option string) : outcome string :=
  match x with
  | Some t => Ok (s +:+ t)
  | None => Raise GenExn.TypeError
  end.

(** A table or a view: its name and the list of its columns. *)
Definition table_t : Type := string * list string.

(** [def generate_get_all(route, table)] *)
Definition generate_get_all (route : string) (table : table_t) : endpoint_dict :=
  let name := fst table in
  {| d_route := route;
     d_method := "GET";
     d_sql := "SELECT * FROM " +:+ name;
     d_auth_required := false;
     d_allowed_roles := ["*"];
     d_description := "Gets all " +:+ name;
     d_request_body_params := None |}.

(** [def generate_get_by_id(route, table, pk)] *)
Definition generate_get_by_id (route : string) (table : table_t) (pk : string) : endpoint_dict :=
  let name := fst table in
  {| d_route := route;
     d_method := "GET";
     d_sql := "SELECT * FROM " +:+ name +:+ " WHERE " +:+ pk +:+ " = $" +:+ pk;
     d_auth_required := false;
     d_allowed_roles := ["*"];
     d_description := "Gets an entry from '" +:+ name +:+ "' by its primary key";
     d_request_body_params := None |}.

(** [def generate_create(route, table, pk, is_auto_increment)].  The function
    appends to the list of columns of the table it is given: the second
    component of the result is that list as the call leaves it.  The
    dictionary holds the same list, which nothing changes afterwards. *)
Definition generate_create (route : string) (table : table_t) (pk : string)
    (is_auto_increment : bool) : outcome (endpoint_dict * list string) :=
  let name := fst table in
  let param_list := snd table in
  let param_list := if negb is_auto_increment then param_list ++ [pk] else param_list in
  sql ← str_add ("INSERT INTO " +:+ name) (params_to_string param_list "" true false);
  sql ← str_add (sql +:+ " VALUES ") (params_to_string param_list "$" true false);
  Ok ({| d_route := route;
         d_method := "POST";
         d_sql := sql;
         d_auth_required := true;
         d_allowed_roles := ["*"];
         d_description := "Creates a new entry in '" +:+ name +:+ "'";
         d_request_body_params := Some param_list |},
      param_list).

(** [def generate_update(route, table, pk)] *)
Definition generate_update (route : string) (table : table_t) (pk : string)
    : outcome endpoint_dict :=
  let name := fst table in
  let param_list := snd table in
  sql ← str_add ("UPDATE " +:+ name +:+ " SET ") (params_to_string param_list "" false true);
  Ok {| d_route := route;
        d_method := "PUT";
        d_sql := sql +:+ " WHERE " +:+ pk +:+ " = $" +:+ pk;
        d_auth_required := true;
        d_allowed_roles := ["*"];
        d_description := "Updates an existing entry in '" +:+ name +:+ "' by its primary key";
        d_request_body_params := Some param_list |}.

(** [def generate_delete(route, table, pk)] *)
Definition generate_delete (route : string) (table : table_t) (pk : string) : endpoint_dict :=
  let name := fst table in
  {| d_route := route;
     d_method := "DELETE";
     d_sql := "DELETE FROM " +:+ name +:+ " WHERE " +:+ pk +:+ " = $" +:+ pk;
     d_auth_required := true;
     d_allowed_roles := ["*"];
     d_description := "Deletes an existing entry in '" +:+ name +:+ "' by its primary key";
     d_request_body_params := None |}.

(** [def dicts_to_file(dicts, name, auto_dir)] *)
Definition dicts_to_file (dicts : list (string * endpoint_dict)) (name auto_dir : string)
    : G unit :=
  if negb (Nat.eqb (length dicts) 0)
  then emit (WriteJson (auto_dir +:+ "/" +:+ name +:+ ".json") dicts)
  else mret tt.

(** [l.remove(x)] on a list of strings: the list without the first
    occurrence of [x], or [ValueError].  [x] is [None] when it is Python's
    [None], which no column is. *)
Fixpoint remove_first (x : string) (l : list string) : option (list string) :=
  match l with
  | [] => None
  | y :: l' => if String.eqb y x then Some l' else (y ::.) <$> remove_first x l'
  end.

Definition list_remove (x : option string) (l : list string) : outcome (string * list string) :=
  match x with
  | Some x =>
      match remove_first x l with
      | Some l' => Ok (x, l')
      | None => Raise GenExn.ValueError
      end
  | None => Raise GenExn.ValueError
  end.

(** ** The endpoints of the entities *)

Section Creator.

(** [os.getcwd()], [silence.sql.tables] and whether the directory of the
    generated endpoints exists when the run starts. *)
Variable getcwd : string.
Variable auto_dir_exists : bool.
Variable get_tables : list table_t.
Variable get_views : list table_t.
Variable get_primary_key : string -> option string.
Variable is_auto_increment : string -> option string -> bool.

(** The body of the loop over the tables of [create_entity_endpoints]; the
    result is the value the variable [pk] is left with. *)
Definition table_iteration (existing_routes_method_pairs : list (string * string))
    (auto_dir : string) (table : table_t) : G string :=
  let pk := get_primary_key (fst table) in
  let is_AI := is_auto_increment (fst table) pk in
  '(pk, columns) ← lift_outcome (list_remove pk (snd table));
  let table : table_t := (fst table, columns) in
  let name := lower (fst table) in
  emit (Log INFO (MsgGeneratingEndpoints name));;
  let endpoints : list (string * endpoint_dict) := [] in
  let ep_tuples : list ep_tuple := [] in
  let get_all_route := "/" +:+ name in
  let '(endpoints, ep_tuples) :=
    if negb (bool_decide ((get_all_route, "GET") ∈ existing_routes_method_pairs)) then
      let d := generate_get_all get_all_route table in
      (endpoints ++ [("getAll", d)],
       ep_tuples ++ [("getAll", get_all_route, "GET", pk, d_description d)])
    else (endpoints, ep_tuples) in
  let get_by_id_route := "/" +:+ name +:+ "/$" +:+ pk in
  let '(endpoints, ep_tuples) :=
    if negb (bool_decide ((get_by_id_route, "GET") ∈ existing_routes_method_pairs)) then
      let d := generate_get_by_id get_by_id_route table pk in
      (endpoints ++ [("getById", d)],
       ep_tuples ++ [("getById", get_by_id_route, "GET", pk, d_description d)])
    else (endpoints, ep_tuples) in
  let create_route := "/" +:+ name in
  '(endpoints, ep_tuples, columns) ←
    (if negb (bool_decide ((create_route, "POST") ∈ existing_routes_method_pairs)) then
       '(d, columns) ← lift_outcome (generate_create create_route table pk is_AI);
       mret (endpoints ++ [("create", d)],
             ep_tuples ++ [("create", create_route, "POST", pk, d_description d)],
             columns)
     else mret (endpoints, ep_tuples, columns));
  let table : table_t := (fst table, columns) in
  let udpate_route := "/" +:+ name +:+ "/$" +:+ pk in
  '(endpoints, ep_tuples) ←
    (if negb (bool_decide ((udpate_route, "PUT") ∈ existing_routes_method_pairs)) then
       d ← lift_outcome (generate_update udpate_route table pk);
       mret (endpoints ++ [("update", d)],
             ep_tuples ++ [("update", udpate_route, "PUT", pk, d_description d)])
     else mret (endpoints, ep_tuples));
  let delete_route := "/" +:+ name +:+ "/$" +:+ pk in
  let '(endpoints, ep_tuples) :=
    if negb (bool_decide ((delete_route, "DELETE") ∈ existing_routes_method_pairs)) then
      let d := generate_delete delete_route table pk in
      (endpoints ++ [("delete", d)],
       ep_tuples ++ [("delete", delete_route, "DELETE", pk, d_description d)])
    else (endpoints, ep_tuples) in
  emit (ApiFile ep_tuples name);;
  dicts_to_file endpoints name auto_dir;;
  mret pk.

(** The loop over the tables.  [pk] is the variable of that name: [None]
    while it is unbound. *)
Fixpoint tables_loop (existing_routes_method_pairs : list (string * string))
    (auto_dir : string) (tables : list table_t) (pk : option string) : G (option string) :=
  match tables with
  | [] => mret pk
  | table :: tables' =>
      pk ← table_iteration existing_routes_method_pairs auto_dir table;
      tables_loop existing_routes_method_pairs auto_dir tables' (Some pk)
  end.

(** The body of the loop over the views, which reads the variable [pk] the
    loop over the tables has left. *)
Definition view_iteration (existing_routes_method_pairs : list (string * string))
    (auto_dir : string) (pk : option string) (view : table_t) : G unit :=
  let endpoints : list (string * endpoint_dict) := [] in
  let ep_tuples : list ep_tuple := [] in
  let name := lower (fst view) in
  emit (Log INFO (MsgGeneratingEndpoints name));;
  let get_all_route := "/" +:+ name in
  '(endpoints, ep_tuples) ←
    (if negb (bool_decide ((get_all_route, "GET") ∈ existing_routes_method_pairs)) then
       let d := generate_get_all get_all_route view in
       pk ← lift_outcome (match pk with
                          | Some pk => Ok pk
                          | None => Raise GenExn.UnboundLocalError
                          end);
       mret (endpoints ++ [("getAll", d)],
             ep_tuples ++ [("getAll", get_all_route, "GET", pk, d_description d)])
     else mret (endpoints, ep_tuples));
  emit (ApiFile ep_tuples name);;
  dicts_to_file endpoints name auto_dir.

Fixpoint views_loop (existing_routes_method_pairs : list (string * string))
    (auto_dir : string) (pk : option string) (views : list table_t) : G unit :=
  match views with
  | [] => mret tt
  | view :: views' =>
      view_iteration existing_routes_method_pairs auto_dir pk view;;
      views_loop existing_routes_method_pairs auto_dir pk views'
  end.

(** [def create_entity_endpoints(existing_routes_method_pairs)].  [rmtree]
    raises [FileNotFoundError], which is caught, when the directory does not
    exist; the other calls to the file system are taken to succeed. *)
Definition create_entity_endpoints (existing_routes_method_pairs : list (string * string))
    : G unit :=
  let curr_dir := getcwd in
  let endpoints_dir := curr_dir +:+ "/endpoints" in
  let auto_dir := endpoints_dir +:+ "/auto" in
  emit (Log DEBUG (MsgSelectedDirectory auto_dir));;
  emit (Rmtree auto_dir);;
  (if auto_dir_exists then mret tt else emit (Log DEBUG MsgFolderNotThere));;
  emit (Log DEBUG (MsgRecreatingDirectory auto_dir));;
  emit (Mkdir auto_dir);;
  let tables := get_tables in
  pk ← tables_loop existing_routes_method_pairs auto_dir tables None;
  let views := get_views in
  views_loop existing_routes_method_pairs auto_dir pk views.

End Creator.

(** ** The vocabulary of the generator's properties *)

(** [sep.join(l)] *)
Fixpoint join (sep : string) (l : list string) : string :=
  match l with
  | [] => ""
  | [p] => p
  | p :: l' => p +:+ sep +:+ join sep l'
  end.

(** A name made of word characters, as the names of columns are. *)
Definition identifier (p : string) : Prop := p <> "" /\ all_word p = true.

(** The parameters a request may send in its body, for a dictionary as for a
    call of [setup_endpoint] that leaves the default. *)
Definition body_params_of (d : endpoint_dict) : list string :=
  default [] (d_request_body_params d).

(** The columns the create endpoint of a table sets, and the ones its update
    endpoint sets: the primary key is one of the latter when the create
    endpoint has been generated for a key that does not increment by
    itself. *)
Definition create_columns (pk : string) (is_AI : bool) (columns : list string) : list string :=
  if is_AI then columns else columns ++ [pk].

Definition update_columns (existing : list (string * string)) (name pk : string) (is_AI : bool)
    (columns : list string) : list string :=
  if bool_decide (("/" +:+ lower name, "POST") ∈ existing) then columns
  else create_columns pk is_AI columns.

(** The text [params_to_string] makes of a list of columns: between
    parentheses for an INSERT, where an empty list leaves the closing
    parenthesis alone, and as assignments for an UPDATE. *)
Definition tuple_text (char_add : string) (l : list string) : string :=
  match l with
  | [] => ")"
  | _ => "(" +:+ join ", " (map (String.append char_add) l) +:+ ")"
  end.

Definition set_text (l : list string) : string :=
  join ", " (map (fun p => p +:+ " = $" +:+ p) l).

(** The dictionaries [generate_create] and [generate_update] build for the
    columns [created] and [updated]. *)
Definition created_endpoint (route name : string) (created : list string) : endpoint_dict :=
  {| d_route := route;
     d_method := "POST";
     d_sql := "INSERT INTO " +:+ name +:+ tuple_text "" created +:+
              " VALUES " +:+ tuple_text "$" created;
     d_auth_required := true;
     d_allowed_roles := ["*"];
     d_description := "Creates a new entry in '" +:+ name +:+ "'";
     d_request_body_params := Some created |}.

Definition updated_endpoint (route name pk : string) (updated : list string) : endpoint_dict :=
  {| d_route := route;
     d_method := "PUT";
     d_sql := "UPDATE " +:+ name +:+ " SET " +:+ set_text updated +:+
              " WHERE " +:+ pk +:+ " = $" +:+ pk;
     d_auth_required := true;
     d_allowed_roles := ["*"];
     d_description := "Updates an existing entry in '" +:+ name +:+ "' by its primary key";
     d_request_body_params := Some updated |}.

(** The routes of a table: of the collection and of one of its entries. *)
Definition collection_route (name : string) : string := "/" +:+ lower name.
Definition item_route (name pk : string) : string := "/" +:+ lower name +:+ "/$" +:+ pk.

(** The five endpoints of a table, whose columns other than the key are
    [columns], before the ones the user has defined are left out. *)
Definition candidate_endpoints (existing : list (string * string)) (name pk : string)
    (is_AI : bool) (columns : list string) : list (string * endpoint_dict) :=
  [ ("getAll", generate_get_all (collection_route name) (name, columns));
    ("getById", generate_get_by_id (item_route name pk) (name, columns) pk);
    ("create", created_endpoint (collection_route name) name (create_columns pk is_AI columns));
    ("update", updated_endpoint (item_route name pk) name pk
                 (update_columns existing name pk is_AI columns));
    ("delete", generate_delete (item_route name pk) (name, columns) pk) ].

Definition user_defined (existing : list (string * string)) (d : endpoint_dict) : bool :=
  bool_decide ((d_route d, d_method d) ∈ existing).

Definition table_endpoints (existing : list (string * string)) (name pk : string)
    (is_AI : bool) (columns : list string) : list (string * endpoint_dict) :=
  List.filter (fun kd => negb (user_defined existing (snd kd)))
              (candidate_endpoints existing name pk is_AI columns).

Definition tuple_of (pk : string) (kd : string * endpoint_dict) : ep_tuple :=
  (fst kd, d_route (snd kd), d_method (snd kd), pk, d_description (snd kd)).

(** The files a trace writes. *)
(** The operation whose verb is the method of a generated endpoint. *)
Definition op_of_method (method : string) : sql_op :=
  if String.eqb method "GET" then SELECT
  else if String.eqb method "POST" then INSERT
  else if String.eqb method "PUT" then UPDATE
  else if String.eqb method "DELETE" then DELETE
  else OTHER.

(** The registration of an entry of a generated file: [setup_endpoint]
    called with the keys of the dictionary as its arguments. *)
Definition register_dict (settings : settings_t) (get_sql_op : string -> sql_op)
    (d : endpoint_dict) : M unit :=
  setup_endpoint settings get_sql_op (d_route d) (d_method d) (d_sql d) (d_auth_required d)
    (PyList (map VStr (d_allowed_roles d))) (Some (d_description d)) (body_params_of d).

Definition written (tr : list gen_event) : list (string * list (string * endpoint_dict)) :=
  omap (fun e => match e with WriteJson path dicts => Some (path, dicts) | _ => None end) tr.

(** The primary key of a table is known and is one of its columns. *)
Definition good_table (get_primary_key : string -> option string) (t : table_t) : Prop :=
  exists pk, get_primary_key (fst t) = Some pk /\ pk ∈ snd t.

(** What a run does for a table or a view once its endpoints [eps] are
    known: a record in the log, the call of the writer of the JavaScript file
    and, unless there is no endpoint, the JSON file. *)
Definition file_events (auto_dir name pk : string) (eps : list (string * endpoint_dict))
    : list gen_event :=
  [Log INFO (MsgGeneratingEndpoints (lower name)); ApiFile (map (tuple_of pk) eps) (lower name)] ++
  (if eps is [] then [] else [WriteJson (auto_dir +:+ "/" +:+ lower name +:+ ".json") eps]).

Definition table_events (get_primary_key : string -> option string)
    (is_auto_increment : string -> option string -> bool) (existing : list (string * string))
    (auto_dir : string) (t : table_t) : list gen_event :=
  match list_remove (get_primary_key (fst t)) (snd t) with
  | Ok (pk, columns) =>
      file_events auto_dir (fst t) pk
        (table_endpoints existing (fst t) pk
           (is_auto_increment (fst t) (get_primary_key (fst t))) columns)
  | Raise _ => []
  end.

Definition view_endpoints (existing : list (string * string)) (v : table_t)
    : list (string * endpoint_dict) :=
  List.filter (fun kd => negb (user_defined existing (snd kd)))
              [("getAll", generate_get_all (collection_route (fst v)) v)].

Definition view_events (existing : list (string * string)) (auto_dir pk : string) (v : table_t)
    : list gen_event :=
  file_events auto_dir (fst v) pk (view_endpoints existing v).

(** The primary key of the last table. *)
Definition last_key (get_primary_key : string -> option string) (tables : list table_t)
    : option string :=
  last tables ≫= (fun t => get_primary_key (fst t)).

(** The directory of the generated endpoints, and what a run does to it
    before it handles the tables. *)
Definition auto_dir_of (getcwd : string) : string := getcwd +:+ "/endpoints" +:+ "/auto".

Definition setup_events (getcwd : string) (auto_dir_exists : bool) : list gen_event :=
  [Log DEBUG (MsgSelectedDirectory (auto_dir_of getcwd)); Rmtree (auto_dir_of getcwd)] ++
  (if auto_dir_exists then [] else [Log DEBUG MsgFolderNotThere]) ++
  [Log DEBUG (MsgRecreatingDirectory (auto_dir_of getcwd)); Mkdir (auto_dir_of getcwd)].

(** A JSON file that is written holds an endpoint, and none of the user's. *)
Definition fresh (existing : list (string * string)) (e : gen_event) : Prop :=
  match e with
  | WriteJson _ dicts =>
      dicts <> [] /\ forall k d, (k, d) ∈ dicts -> (d_route d, d_method d) ∉ existing
  | _ => True
  end.

(** Two tables and a view, for the examples. *)
Module DemoTables.

Definition tables : list table_t := [("Users", ["id"; "name"; "age"]); ("Tags", ["tag"])].
Definition views : list table_t := [("Active", ["id"; "name"])].

Definition get_primary_key (table : string) : option string :=
  if String.eqb table "Users" then Some "id"
  else if String.eqb table "Tags" then Some "tag"
  else None.

Definition is_auto_increment (table : string) (pk : option string) : bool :=
  String.eqb table "Users".

(** The user has defined the creation of a tag and the list of the users. *)
Definition existing : list (string * string) := [("/tags", "POST"); ("/users", "GET")].

Definition run (tables views : list table_t) : outcome unit * list gen_event :=
  create_entity_endpoints "/srv" true tables views get_primary_key is_auto_increment existing [].

End DemoTables.

(** * Properties *)

(** ** The model on concrete inputs *)

Example extract_params_ex :
  extract_params "SELECT * FROM t WHERE a = $id AND b = $name OR c = $id" = ["id"; "name"; "id"].
Proof. reflexivity. Qed.

Example flaskify_url_ex : flaskify_url "/users/$id/posts/$post_id" = "/users/<id>/posts/<post_id>".
Proof. reflexivity. Qed.

Example py_int_ex :
  Py.int " 12 " = Some 12%Z /\ Py.int "-3" = Some (-3)%Z /\ Py.int "1_000" = Some 1000%Z /\
  Py.int "abc" = None /\ Py.int "" = None /\ Py.int "1__0" = None /\ Py.int "3.5" = None /\
  Py.int "+5" = Some 5%Z /\ Py.int "+ 5" = None /\ Py.int "_1" = None /\ Py.int "1_" = None /\
  Py.int "--1" = None /\ Py.int "0012" = Some 12%Z /\
  Py.int (String (ascii_of_N 31) "7") = None /\ Py.int (String (ascii_of_N 160) "7") = Some 7%Z.
Proof. repeat split; reflexivity. Qed.

Example py_str_ex : Py.str (VInt (-42)) = "-42" /\ Py.str (VInt 0) = "0".
Proof. split; reflexivity. Qed.

Example py_slice_ex :
  Py.slice [1;2;3;4;5] 1 3 = [2;3] /\ Py.slice [1;2;3;4;5] 0 (-1) = [1;2;3;4] /\
  Py.slice [1;2;3;4;5] 3 100 = [4;5] /\ Py.slice [1;2;3;4;5] 4 2 = [] /\
  Py.slice [1;2;3;4;5] (-2) 10 = [4;5] /\ Py.slice [1;2;3;4;5] (-10) 2 = [1;2] /\
  Py.slice [1;2;3;4;5] (-3) (-6) = [].
Proof. repeat split; reflexivity. Qed.

(** The sort is stable in both directions. *)
Example list_sort_stable :
  let key := fun p : Z * string => Val (Key (VInt (fst p))) in
  let l := [(1, "a"); (0, "b"); (1, "c"); (0, "d")]%Z in
  list_sort key false l = Val [(0, "b"); (0, "d"); (1, "a"); (1, "c")]%Z /\
  list_sort key true l = Val [(1, "a"); (1, "c"); (0, "b"); (0, "d")]%Z.
Proof. split; reflexivity. Qed.

Example findall_sub_ex :
  extract_params "$$a$b c$ $d_1-$x" = ["a"; "b"; "d_1"; "x"] /\
  flaskify_url "$$a$b c$ $d_1-$x" = "$<a><b> c$ <d_1>-<x>".
Proof. split; reflexivity. Qed.

Example RE_QUERY_PARAM_ex :
  RE_QUERY_PARAM_match "/users/$id" = true /\ RE_QUERY_PARAM_match "/users/$id/" = true /\
  RE_QUERY_PARAM_match "/users" = false /\ RE_QUERY_PARAM_match "/users/$id/posts" = false.
Proof. repeat split; reflexivity. Qed.

Example sort_nulls_asc :
  filter_query_results [row1 "v" VNone; row1 "v" (VInt 5); row1 "v" (VInt 2)] [("_sort", "v")]
  = Val [row1 "v" VNone; row1 "v" (VInt 2); row1 "v" (VInt 5)].
Proof. vm_compute. reflexivity. Qed.

Example sort_nulls_desc :
  filter_query_results [row1 "v" VNone; row1 "v" (VInt 5); row1 "v" (VInt 2)]
                       [("_sort", "v"); ("_order", "desc")]
  = Val [row1 "v" (VInt 5); row1 "v" (VInt 2); row1 "v" VNone].
Proof. vm_compute. reflexivity. Qed.

Example filter_bob :
  filter_query_results [row1 "name" (VStr "Bob"); row1 "name" (VStr "Al")] [("name", "bob")]
  = Val [row1 "name" (VStr "Bob")].
Proof. vm_compute. reflexivity. Qed.

(** ** The parameter extractor *)

Lemma findall_params_cons c s :
  findall_params (String c s) =
  if (Ascii.eqb c "$" && starts_word s)%bool
  then String c (take_word s) :: findall_params (drop_word s)
  else findall_params s.
Proof. by simp findall_params. Qed.

Lemma flaskify_url_cons c s :
  flaskify_url (String c s) =
  if (Ascii.eqb c "$" && starts_word s)%bool
  then "<" +:+ take_word s +:+ ">" +:+ flaskify_url (drop_word s)
  else String c (flaskify_url s).
Proof. by simp flaskify_url. Qed.

Lemma dollar_not_word : is_word "$" = false.
Proof. reflexivity. Qed.

Lemma word_not_dollar c : is_word c = true -> Ascii.eqb c "$" = false.
Proof.
  intros Hc. destruct (Ascii.eqb_spec c "$") as [->|]; [|done].
  by rewrite dollar_not_word in Hc.
Qed.

(** A run of word characters holds no match and hides none. *)
Lemma findall_params_skip_word w s :
  all_word w = true -> findall_params (w +:+ s) = findall_params s.
Proof.
  induction w as [|c w IH]; [done|]. simpl. intros [Hc Hw]%andb_prop.
  rewrite ?str_app_cons, findall_params_cons, (word_not_dollar c Hc). simpl. auto.
Qed.

Lemma take_word_app w s :
  all_word w = true -> starts_word s = false -> take_word (w +:+ s) = w.
Proof.
  induction w as [|c w IH]; simpl; intros Hw Hs.
  - destruct s as [|d s]; [done|]. simpl in *. by rewrite Hs.
  - apply andb_prop in Hw as [Hc Hw]. rewrite ?str_app_cons. simpl. rewrite Hc. f_equal. auto.
Qed.

Lemma drop_word_app w s :
  all_word w = true -> starts_word s = false -> drop_word (w +:+ s) = s.
Proof.
  induction w as [|c w IH]; simpl; intros Hw Hs.
  - destruct s as [|d s]; [done|]. simpl in *. by rewrite Hs.
  - apply andb_prop in Hw as [Hc Hw]. rewrite ?str_app_cons. simpl. rewrite Hc. auto.
Qed.

(** A run that stops inside [s] is not changed by what follows a character
    that is not a word character. *)
Lemma take_word_before s t :
  starts_word t = false -> take_word (s +:+ t) = take_word s.
Proof.
  intros Ht. induction s as [|c s IH].
  - destruct t as [|d t]; [done|]. simpl in *. by rewrite Ht.
  - rewrite str_app_cons. simpl. destruct (is_word c); [by rewrite IH|done].
Qed.

Lemma drop_word_before s t :
  starts_word t = false -> drop_word (s +:+ t) = drop_word s +:+ t.
Proof.
  intros Ht. induction s as [|c s IH].
  - destruct t as [|d t]; [done|]. simpl in *. by rewrite Ht.
  - rewrite str_app_cons. simpl. destruct (is_word c); [by rewrite IH|done].
Qed.

Lemma starts_word_app s t :
  starts_word (s +:+ t) = if decide (s = "") then starts_word t else starts_word s.
Proof. by destruct s. Qed.

Lemma findall_params_app pre t :
  starts_word t = false ->
  findall_params (pre +:+ t) = (findall_params pre ++ findall_params t)%list.
Proof.
  intros Ht. funelim (findall_params pre); [done|].
  rewrite str_app_cons, !findall_params_cons.
  rewrite take_word_before, drop_word_before by done.
  rewrite starts_word_app. case_decide as Hs.
  - subst s'. rewrite Ht. simpl. rewrite andb_false_r. simpl. by apply H0.
  - destruct (Ascii.eqb c "$" && starts_word s')%bool; simpl.
    + f_equal. by apply H.
    + by apply H0.
Qed.

Lemma findall_params_no_sigil s : has_char "$" s = false -> findall_params s = [].
Proof.
  induction s as [|c s IH]; [done|].
  change (has_char "$" (String c s)) with (Ascii.eqb c "$" || has_char "$" s).
  intros [Hc Hs]%orb_false_elim.
  rewrite findall_params_cons, Hc. simpl. auto.
Qed.

Lemma starts_word_flaskify s : starts_word (flaskify_url s) = starts_word s.
Proof.
  destruct s as [|c s]; [done|]. rewrite flaskify_url_cons.
  destruct (Ascii.eqb_spec c "$") as [->|Hc]; simpl; [|done].
  by destruct (starts_word s).
Qed.

Lemma findall_params_flaskify s : findall_params (flaskify_url s) = [].
Proof.
  funelim (flaskify_url s); [done|].
  destruct (Ascii.eqb c "$" && starts_word s')%bool eqn:Hm.
  - rewrite str_app_cons, str_app_nil_l, findall_params_cons. simpl.
    rewrite findall_params_skip_word.
    + rewrite str_app_cons, str_app_nil_l, findall_params_cons. simpl. done.
    + clear. induction s' as [|d s' IH]; [done|]. simpl.
      destruct (is_word d) eqn:Hd; [|done]. simpl. by rewrite Hd.
  - rewrite findall_params_cons, starts_word_flaskify, Hm. done.
Qed.

Lemma findall_params_param w post :
  w <> "" -> all_word w = true -> starts_word post = false ->
  findall_params ("$" +:+ w +:+ post) = ("$" +:+ w) :: findall_params post.
Proof.
  intros Hne Hw Hp. rewrite str_app_cons, str_app_nil_l, findall_params_cons.
  rewrite take_word_app, drop_word_app by done.
  destruct w as [|c w]; [done|]. simpl in Hw. apply andb_prop in Hw as [Hc _].
  rewrite !str_app_cons. simpl. by rewrite Hc.
Qed.

(** C8. [extract_params] is a function of its argument alone, so a call has
    no effect and repeated calls agree.  On the empty string it returns the
    empty list; a string without the sigil has no parameter; a sigil followed
    by a non-empty run of word characters that ends where the run ends yields
    that run, without the sigil, between the parameters of what precedes and
    of what follows, so order and repetitions are kept; and the translated
    form of any route has no parameter. *)
Theorem extract_params_spec :
  extract_params "" = [] /\
  (forall s, has_char "$" s = false -> extract_params s = []) /\
  (forall pre w post,
      w <> "" -> all_word w = true -> starts_word post = false ->
      extract_params (pre +:+ "$" +:+ w +:+ post)
      = (extract_params pre ++ w :: extract_params post)%list) /\
  (forall s1 s2, s1 = s2 -> extract_params s1 = extract_params s2) /\
  (forall route, extract_params (flaskify_url route) = []).
Proof.
  unfold extract_params. repeat split.
  - intros s Hs. by rewrite findall_params_no_sigil.
  - intros pre w post Hne Hw Hp.
    rewrite findall_params_app by done.
    rewrite findall_params_param by done.
    by rewrite map_app.
  - by intros s1 s2 ->.
  - intros route. by rewrite findall_params_flaskify.
Qed.

Lemma extract_params_spec_witness :
  extract_params "/a/$x/b/$y" = ["x"; "y"] /\
  extract_params "$id$id" = ["id"; "id"] /\
  extract_params "plain text" = [].
Proof.
  destruct extract_params_spec as (_ & Hnone & Happ & _ & _).
  split; [|split].
  - exact (Happ "/a/$x/b/" "y" "" ltac:(done) eq_refl eq_refl).
  - exact (Happ "$id" "id" "" ltac:(done) eq_refl eq_refl).
  - exact (Hnone "plain text" eq_refl).
Defined.

Example get_sql_op_ex :
  SqlModel.get_sql_op "SELECT * FROM t" = SELECT /\
  SqlModel.get_sql_op "  delete from t where id = $id" = DELETE /\
  SqlModel.get_sql_op "MERGE INTO t" = OTHER.
Proof. repeat split; reflexivity. Qed.

Example setup_ex :
  fst (Demo.setup "/users/$id" "get" "SELECT * FROM users WHERE id = $id" false
         (PyList [VStr "*"]) None [] Demo.w0) = Val tt.
Proof. vm_compute. reflexivity. Qed.

Example setup_merge_ex :
  fst (Demo.setup "/users" "post" "MERGE INTO users" false (PyList [VStr "*"]) None [] Demo.w0)
  = Exn (SystemExit 1).
Proof. vm_compute. reflexivity. Qed.

Example setup_missing_ex :
  fst (Demo.setup "/users" "get" "SELECT * FROM users WHERE id = $id" false
         (PyList [VStr "*"]) None [] Demo.w0) = Exn (SystemExit 1).
Proof. vm_compute. reflexivity. Qed.

(** ** Registration *)

Lemma add_logs_nil w : add_logs [] w = w.
Proof. destruct w. unfold add_logs. simpl. by rewrite app_nil_r. Qed.

Lemma add_logs_add_logs a b w : add_logs b (add_logs a w) = add_logs (a ++ b) w.
Proof. unfold add_logs. simpl. by rewrite app_assoc. Qed.

Lemma missing_params_empty sql_params user_params :
  missing_params sql_params user_params = ∅ <-> covered sql_params user_params.
Proof.
  unfold missing_params, covered. split.
  - intros He p Hp Hne. destruct (decide (p ∈ user_params)) as [|Hn]; [done|].
    assert (p ∈ (∅ : gset string)) as Hin; [|set_solver].
    rewrite <- He. set_solver.
  - intros Hc. apply set_eq. intros p. split; [|set_solver].
    intros [[Hs Hu]%elem_of_difference Hl]%elem_of_difference.
    rewrite elem_of_list_to_set in Hs, Hu. exfalso. apply Hu, Hc; set_solver.
Qed.

Lemma check_params_match_run sql_params user_params route w :
  check_params_match sql_params user_params route w =
  if decide (missing_params sql_params user_params = ∅) then (Val tt, w)
  else (Exn (SystemExit 1),
        add_logs [(ERROR, MsgParamsMissing route (missing_params sql_params user_params))] w).
Proof.
  unfold check_params_match.
  assert ((if decide ("loggedId" ∈ (list_to_set sql_params ∖ list_to_set user_params : gset string))
           then (list_to_set sql_params ∖ list_to_set user_params) ∖ {["loggedId"]}
           else list_to_set sql_params ∖ list_to_set user_params)
          = missing_params sql_params user_params) as ->.
  { unfold missing_params. destruct (decide _); [done|]. set_solver. }
  by case_decide.
Qed.

Lemma check_auth_roles_run auth_required l method route w :
  check_auth_roles auth_required (PyList l) method route w
  = (Val tt, add_logs (roles_notes auth_required l method route) w).
Proof.
  unfold check_auth_roles, roles_notes.
  destruct (negb auth_required && Nat.ltb 0 (length l) && negb (Py.list_eq l [VStr "*"]));
    destruct (auth_required && Nat.eqb (length l) 0);
    unfold mbind, M_bind, pass, mret, M_ret, logger; simpl;
    rewrite ?add_logs_add_logs, ?add_logs_nil; done.
Qed.

Lemma check_auth_roles_scalar auth_required v method route w :
  check_auth_roles auth_required (Scalar v) method route w
  = (Exn (SystemExit 1), add_logs [(ERROR, MsgRolesNotList (Scalar v) method route)] w).
Proof. reflexivity. Qed.

Lemma if_logs_run (b : bool) (x : list (level * log_msg)) (w : world) :
  (if b then (fun w' => (Val tt, add_logs x w')) else pass) w
  = (Val tt, add_logs (if b then x else []) w).
Proof. destruct b; [done|]. by rewrite add_logs_nil. Qed.

Section Registration.

Variable settings : settings_t.
Variable get_sql_op : string -> sql_op.

Lemma check_method_run sql verb endpoint w :
  check_method get_sql_op sql verb endpoint w =
  match OP_VERBS (get_sql_op sql) with
  | Some _ => (Val tt, add_logs (verb_notes (get_sql_op sql) verb endpoint) w)
  | None => (Exn (SystemExit 1), add_logs [(ERROR, MsgUnsupportedQuery sql endpoint)] w)
  end.
Proof.
  unfold check_method, verb_notes. destruct (OP_VERBS (get_sql_op sql)) as [cv|]; [|done].
  destruct (String.eqb cv (lower verb)); simpl; [by rewrite add_logs_nil|done].
Qed.

(** What [setup_endpoint] does when the operation is one of the four and
    [allowed_roles] is a list. *)
Lemma setup_endpoint_run route method sql auth_required l description request_body_params w :
  get_sql_op sql <> OTHER ->
  let missing := missing_params (extract_params sql)
                   (declared_sources (get_sql_op sql) route request_body_params) in
  let notes := registration_notes get_sql_op route method sql auth_required l in
  setup_endpoint settings get_sql_op route method sql auth_required (PyList l) description
    request_body_params w =
  if decide (missing = ∅) then
    (Val tt,
     {| logs := logs w ++ notes;
        url_map := url_map w ++ [installed_rule settings (get_sql_op sql) route method sql
                                   auth_required (PyList l) request_body_params];
        api_summary := api_summary w ++ [{| sum_route := full_route_of settings route;
                                            sum_method := method;
                                            sum_description := description |}];
        dal_calls := dal_calls w |})
  else
    (Exn (SystemExit 1), add_logs (notes ++ [(ERROR, MsgParamsMissing route missing)]) w).
Proof.
  intros Hop. cbv zeta. unfold setup_endpoint, registration_notes, logged_id_notes.
  unfold mbind, M_bind at 1 2. unfold logger at 1 2.
  rewrite if_logs_run.
  unfold mbind, M_bind at 1. rewrite check_method_run.
  destruct (OP_VERBS (get_sql_op sql)) as [cv|] eqn:Hcv; [|by destruct (get_sql_op sql)].
  unfold mbind, M_bind at 1. rewrite check_auth_roles_run.
  rewrite !add_logs_add_logs.
  set (notes := ([(DEBUG, MsgSettingUp method route)] ++ _ ++ _ ++ _)%list).
  destruct (get_sql_op sql) eqn:Hk; try done; simpl;
    unfold mbind, M_bind; rewrite ?check_params_match_run; unfold pass, mret, M_ret;
    rewrite ?check_params_match_run;
    destruct (decide (missing_params _ _ = ∅)); rewrite ?add_logs_add_logs; try done.
Qed.

Lemma setup_endpoint_unsupported route method sql auth_required allowed_roles description
    request_body_params w :
  get_sql_op sql = OTHER ->
  setup_endpoint settings get_sql_op route method sql auth_required allowed_roles description
    request_body_params w =
  (Exn (SystemExit 1),
   add_logs ([(DEBUG, MsgSettingUp method route)] ++
             logged_id_notes sql auth_required method route ++
             [(ERROR, MsgUnsupportedQuery sql route)]) w).
Proof.
  intros Hop. unfold setup_endpoint, logged_id_notes.
  unfold mbind, M_bind at 1 2. unfold logger at 1 2.
  rewrite if_logs_run. unfold mbind, M_bind at 1. rewrite check_method_run, Hop. simpl.
  by rewrite !add_logs_add_logs.
Qed.

Lemma setup_endpoint_roles_not_list route method sql auth_required v description
    request_body_params w :
  get_sql_op sql <> OTHER ->
  setup_endpoint settings get_sql_op route method sql auth_required (Scalar v) description
    request_body_params w =
  (Exn (SystemExit 1),
   add_logs ([(DEBUG, MsgSettingUp method route)] ++
             logged_id_notes sql auth_required method route ++
             verb_notes (get_sql_op sql) method route ++
             [(ERROR, MsgRolesNotList (Scalar v) method route)]) w).
Proof.
  intros Hop. unfold setup_endpoint, logged_id_notes.
  unfold mbind, M_bind at 1 2. unfold logger at 1 2.
  assert (OP_VERBS (get_sql_op sql) <> None) as Hv by by destruct (get_sql_op sql).
  rewrite if_logs_run. unfold mbind, M_bind at 1. rewrite check_method_run.
  destruct (OP_VERBS (get_sql_op sql)); [|done].
  unfold mbind, M_bind at 1. rewrite check_auth_roles_scalar.
  by rewrite !add_logs_add_logs.
Qed.

End Registration.

Lemma coveredb_true sql_params user_params :
  coveredb sql_params user_params = true -> covered sql_params user_params.
Proof.
  unfold coveredb, covered. rewrite forallb_forall. intros Hall p Hp Hne.
  apply list_elem_of_In in Hp. apply Hall in Hp.
  apply orb_prop in Hp as [Hp|Hp].
  - by apply String.eqb_eq in Hp.
  - apply existsb_exists in Hp as (q & Hq & ->%String.eqb_eq). by apply list_elem_of_In.
Qed.

Lemma elem_of_missing_params sql_params user_params p :
  p ∈ missing_params sql_params user_params <->
  p ∈ sql_params /\ (p ∉ user_params) /\ p <> "loggedId".
Proof. unfold missing_params. set_solver. Qed.

(** C1, as amended.  When [allowed_roles] is a list and the operation of the
    query is one of the four, registration succeeds if and only if every
    parameter of the query other than [loggedId] is among the parameters of
    the route (SELECT, DELETE) or among those of the route and the declared
    body parameters (INSERT, UPDATE).  Otherwise the process exits with
    status 1, the last record of the log being an error that names exactly
    the missing parameters, and neither the route table nor the summary has
    changed; on success the route is the one added to the table. *)
Theorem registration_iff_params_covered
    settings get_sql_op route method sql auth_required l description request_body_params w :
  get_sql_op sql <> OTHER ->
  let sources := declared_sources (get_sql_op sql) route request_body_params in
  let run := setup_endpoint settings get_sql_op route method sql auth_required (PyList l)
               description request_body_params w in
  ((exists w', run = (Val tt, w')) <-> covered (extract_params sql) sources) /\
  (covered (extract_params sql) sources ->
   fst run = Val tt /\
   url_map (snd run) =
     (url_map w ++ [installed_rule settings (get_sql_op sql) route method sql auth_required
                      (PyList l) request_body_params])%list) /\
  (~ covered (extract_params sql) sources ->
   exists missing,
     fst run = Exn (SystemExit 1) /\
     last (logs (snd run)) = Some (ERROR, MsgParamsMissing route missing) /\
     missing <> ∅ /\
     (forall p, p ∈ missing <-> p ∈ extract_params sql /\ (p ∉ sources) /\ p <> "loggedId") /\
     url_map (snd run) = url_map w /\ api_summary (snd run) = api_summary w).
Proof.
  intros Hop sources run. subst run.
  rewrite (setup_endpoint_run settings get_sql_op) by done. fold sources.
  destruct (decide (missing_params (extract_params sql) sources = ∅)) as [He|Hne].
  - pose proof (proj1 (missing_params_empty _ _) He) as Hc.
    split; [|split]; [split; eauto | done | done].
  - assert (~ covered (extract_params sql) sources) as Hn.
    { intros Hc. by apply Hne, missing_params_empty. }
    split; [|split]; [split; [by intros [? ?]|done] | done |].
    intros _. exists (missing_params (extract_params sql) sources).
    unfold add_logs. cbn [fst snd logs url_map api_summary].
    split; [done|]. split; [by rewrite app_assoc, last_snoc|].
    split; [done|]. split; [|done].
    intros p. apply elem_of_missing_params.
Qed.

Lemma registration_iff_params_covered_witness :
  let run := Demo.setup "/users/$id" "put"
               "UPDATE users SET name = $name WHERE id = $id AND owner = $loggedId"
               true (PyList [VStr "admin"]) None ["name"] Demo.w0 in
  fst run = Val tt /\ length (url_map (snd run)) = 1.
Proof.
  cbv zeta.
  destruct (registration_iff_params_covered Demo.settings SqlModel.get_sql_op
      "/users/$id" "put" "UPDATE users SET name = $name WHERE id = $id AND owner = $loggedId"
      true [VStr "admin"] None ["name"] Demo.w0 ltac:(vm_compute; discriminate))
    as (_ & Hok & _).
  destruct Hok as [H1 H2].
  - apply coveredb_true. vm_compute. reflexivity.
  - split; [exact H1|]. unfold Demo.setup. rewrite H2. reflexivity.
Defined.

(** C1 as stated fails: a SELECT whose query has no parameter at all, so that
    every parameter is covered, does not register when [allowed_roles] is not
    a list. *)
Lemma registration_iff_params_covered_counterexample :
  SqlModel.get_sql_op "SELECT * FROM t" = SELECT /\
  covered (extract_params "SELECT * FROM t") (extract_params "/t") /\
  fst (Demo.setup "/t" "get" "SELECT * FROM t" false (Scalar (VStr "admin")) None [] Demo.w0)
  = Exn (SystemExit 1) /\
  url_map (snd (Demo.setup "/t" "get" "SELECT * FROM t" false (Scalar (VStr "admin")) None []
                  Demo.w0)) = [].
Proof.
  split; [reflexivity|]. split; [|split; vm_compute; reflexivity].
  intros p Hp. vm_compute in Hp. by apply elem_of_nil in Hp.
Qed.

(** C2. A query whose operation is none of SELECT, INSERT, UPDATE and DELETE
    makes registration exit with status 1 after an error record, whatever the
    other arguments, and leaves the route table and the summary as they were.
    For a recognised operation the canonical verbs are get, post, put and
    delete; [check_method] returns normally, after exactly one warning when
    the declared verb, in lower case, is not the canonical one and without a
    record when it is; and an endpoint whose other checks pass is registered
    under the declared verb all the same, the warning being in the log. *)
Theorem check_method_spec
    settings get_sql_op route method sql auth_required allowed_roles description
    request_body_params w :
  let run := setup_endpoint settings get_sql_op route method sql auth_required allowed_roles
               description request_body_params w in
  (OP_VERBS SELECT = Some "get" /\ OP_VERBS INSERT = Some "post" /\
   OP_VERBS UPDATE = Some "put" /\ OP_VERBS DELETE = Some "delete" /\ OP_VERBS OTHER = None) /\
  (get_sql_op sql = OTHER ->
   fst run = Exn (SystemExit 1) /\
   last (logs (snd run)) = Some (ERROR, MsgUnsupportedQuery sql route) /\
   url_map (snd run) = url_map w /\ api_summary (snd run) = api_summary w) /\
  (forall correct_verb,
      OP_VERBS (get_sql_op sql) = Some correct_verb ->
      check_method get_sql_op sql method route w =
      if String.eqb correct_verb (lower method) then (Val tt, w)
      else (Val tt, add_logs [(WARNING, MsgWrongVerb method (get_sql_op sql) route correct_verb)] w)) /\
  (forall correct_verb l,
      OP_VERBS (get_sql_op sql) = Some correct_verb ->
      correct_verb <> lower method ->
      allowed_roles = PyList l ->
      covered (extract_params sql) (declared_sources (get_sql_op sql) route request_body_params) ->
      fst run = Val tt /\
      (WARNING, MsgWrongVerb method (get_sql_op sql) route correct_verb) ∈ logs (snd run) /\
      url_map (snd run) =
        (url_map w ++ [installed_rule settings (get_sql_op sql) route method sql auth_required
                         allowed_roles request_body_params])%list).
Proof.
  cbv zeta. split; [done|]. split; [|split].
  - intros Hop. rewrite setup_endpoint_unsupported by done.
    unfold add_logs. cbn [fst snd logs url_map api_summary].
    split; [done|]. split; [|done].
    by rewrite !app_assoc, last_snoc.
  - intros cv Hcv. rewrite check_method_run, Hcv. unfold verb_notes. rewrite Hcv.
    destruct (String.eqb cv (lower method)); [by rewrite add_logs_nil|done].
  - intros cv l Hcv Hne -> Hcov.
    assert (get_sql_op sql <> OTHER) as Hop by (intros Ho; by rewrite Ho in Hcv).
    rewrite (setup_endpoint_run settings get_sql_op) by done.
    destruct (decide _) as [_|Hm]; [|by apply missing_params_empty in Hcov].
    cbn [fst snd logs url_map]. split; [done|]. split; [|done].
    unfold registration_notes, verb_notes. rewrite Hcv.
    apply String.eqb_neq in Hne. rewrite Hne.
    do 3 (apply elem_of_app; right). apply elem_of_app; left.
    by apply list_elem_of_singleton.
Qed.

Lemma check_method_spec_witness :
  let run := Demo.setup "/users" "post" "SELECT * FROM users" false (PyList [VStr "*"]) None []
               Demo.w0 in
  fst run = Val tt /\
  (WARNING, MsgWrongVerb "post" SELECT "/users" "get") ∈ logs (snd run) /\
  fst (Demo.setup "/users" "post" "MERGE INTO users" false (PyList [VStr "*"]) None [] Demo.w0)
  = Exn (SystemExit 1).
Proof.
  cbv zeta.
  destruct (check_method_spec Demo.settings SqlModel.get_sql_op "/users" "post"
              "SELECT * FROM users" false (PyList [VStr "*"]) None [] Demo.w0)
    as (_ & _ & _ & Hwarn).
  destruct (Hwarn "get" [VStr "*"] eq_refl) as (H1 & H2 & _).
  - vm_compute. discriminate.
  - reflexivity.
  - apply coveredb_true. vm_compute. reflexivity.
  - split; [exact H1|]. split; [exact H2|].
    destruct (check_method_spec Demo.settings SqlModel.get_sql_op "/users" "post"
                "MERGE INTO users" false (PyList [VStr "*"]) None [] Demo.w0)
      as (_ & Hexit & _).
    exact (proj1 (Hexit eq_refl)).
Defined.

(** ** Authorization configuration *)

Lemma py_eq_star x : Py.eq x (VStr "*") = true <-> x = VStr "*".
Proof.
  split; [|by intros ->].
  destruct x as [|b|n|s]; try done. simpl. by intros ->%String.eqb_eq.
Qed.

Lemma list_eq_star l : Py.list_eq l [VStr "*"] = true <-> l = [VStr "*"].
Proof.
  split; [|by intros ->].
  destruct l as [|x [|y l]]; try done.
  - simpl. rewrite andb_true_r. by intros ->%py_eq_star.
  - simpl. by rewrite andb_false_r.
Qed.

Lemma roles_notes_ignored auth_required l method route :
  (WARNING, MsgRolesIgnored method route) ∈ roles_notes auth_required l method route
  <-> auth_required = false /\ l <> [] /\ l <> [VStr "*"].
Proof.
  unfold roles_notes. rewrite elem_of_app. split.
  - intros [H|H].
    + destruct (negb auth_required && Nat.ltb 0 (length l) && negb (Py.list_eq l [VStr "*"]))
        eqn:Hc; [|by apply elem_of_nil in H].
      apply andb_prop in Hc as [[Ha Hl]%andb_prop Hs].
      split; [by destruct auth_required|]. split; [by destruct l|].
      intros ->. by rewrite (proj2 (list_eq_star _) eq_refl) in Hs.
    + destruct (auth_required && Nat.eqb (length l) 0);
        [by apply list_elem_of_singleton in H|by apply elem_of_nil in H].
  - intros (-> & Hl & Hs). left.
    destruct (Py.list_eq l [VStr "*"]) eqn:Hc; [by apply list_eq_star in Hc|].
    destruct l; [done|]. by apply list_elem_of_singleton.
Qed.

Lemma roles_notes_empty auth_required l method route :
  (WARNING, MsgRolesEmpty method route) ∈ roles_notes auth_required l method route
  <-> auth_required = true /\ l = [].
Proof.
  unfold roles_notes. rewrite elem_of_app. split.
  - intros [H|H].
    + destruct (negb auth_required && Nat.ltb 0 (length l) && negb (Py.list_eq l [VStr "*"]));
        [by apply list_elem_of_singleton in H|by apply elem_of_nil in H].
    + destruct (auth_required && Nat.eqb (length l) 0) eqn:Hc; [|by apply elem_of_nil in H].
      apply andb_prop in Hc as [Ha Hl]. split; [done|]. by destruct l.
  - intros (-> & ->). right. by apply list_elem_of_singleton.
Qed.

Lemma roles_notes_warnings auth_required l method route :
  Forall (fun n => fst n = WARNING) (roles_notes auth_required l method route).
Proof.
  unfold roles_notes. apply Forall_app. split.
  - destruct (_ && _ && _); by repeat constructor.
  - destruct (_ && _); by repeat constructor.
Qed.

(** C9.  When [allowed_roles] is not a list, [check_auth_roles] logs an error
    and exits with status 1, and so does registration, which adds no route.
    When it is a list the check returns normally after warnings only: one
    that the roles are ignored exactly when [auth_required] is false and the
    list is neither empty nor the default [["*"]], and one that nobody has
    access exactly when [auth_required] is true and the list is empty.  An
    endpoint that passes the other checks is then registered with these
    warnings in the log; so it is with [auth_required] false and roles
    [["admin"]], and with [auth_required] true and no role. *)
Theorem check_auth_roles_spec
    settings get_sql_op route method sql auth_required description request_body_params w :
  (forall v,
      check_auth_roles auth_required (Scalar v) method route w =
      (Exn (SystemExit 1), add_logs [(ERROR, MsgRolesNotList (Scalar v) method route)] w) /\
      let run := setup_endpoint settings get_sql_op route method sql auth_required (Scalar v)
                   description request_body_params w in
      fst run = Exn (SystemExit 1) /\ url_map (snd run) = url_map w /\
      api_summary (snd run) = api_summary w) /\
  (forall l,
      let notes := roles_notes auth_required l method route in
      check_auth_roles auth_required (PyList l) method route w = (Val tt, add_logs notes w) /\
      Forall (fun n => fst n = WARNING) notes /\
      ((WARNING, MsgRolesIgnored method route) ∈ notes
       <-> auth_required = false /\ l <> [] /\ l <> [VStr "*"]) /\
      ((WARNING, MsgRolesEmpty method route) ∈ notes <-> auth_required = true /\ l = []) /\
      (get_sql_op sql <> OTHER ->
       covered (extract_params sql) (declared_sources (get_sql_op sql) route request_body_params) ->
       let run := setup_endpoint settings get_sql_op route method sql auth_required (PyList l)
                    description request_body_params w in
       fst run = Val tt /\ (forall n, n ∈ notes -> n ∈ logs (snd run)) /\
       length (url_map (snd run)) = S (length (url_map w)))) /\
  roles_notes false [VStr "admin"] method route = [(WARNING, MsgRolesIgnored method route)] /\
  roles_notes true [] method route = [(WARNING, MsgRolesEmpty method route)].
Proof.
  split; [|split; [|done]].
  - intros v. split; [done|]. cbv zeta.
    destruct (decide (get_sql_op sql = OTHER)) as [Hop|Hop].
    + by rewrite setup_endpoint_unsupported.
    + by rewrite setup_endpoint_roles_not_list.
  - intros l notes. split; [apply check_auth_roles_run|].
    split; [apply roles_notes_warnings|].
    split; [apply roles_notes_ignored|]. split; [apply roles_notes_empty|].
    intros Hop Hcov. cbv zeta.
    rewrite (setup_endpoint_run settings get_sql_op) by done.
    destruct (decide _) as [_|Hm]; [|by apply missing_params_empty in Hcov].
    cbn [fst snd logs url_map]. split; [done|]. split.
    + intros n Hn. unfold registration_notes. do 4 (apply elem_of_app; right). done.
    + rewrite length_app. simpl. lia.
Qed.

Lemma check_auth_roles_spec_witness :
  let run1 := Demo.setup "/users" "get" "SELECT * FROM users" false (PyList [VStr "admin"])
                None [] Demo.w0 in
  let run2 := Demo.setup "/users" "get" "SELECT * FROM users" true (PyList []) None []
                Demo.w0 in
  (fst run1 = Val tt /\ (WARNING, MsgRolesIgnored "get" "/users") ∈ logs (snd run1)) /\
  (fst run2 = Val tt /\ (WARNING, MsgRolesEmpty "get" "/users") ∈ logs (snd run2)).
Proof.
  cbv zeta. split.
  - destruct (check_auth_roles_spec Demo.settings SqlModel.get_sql_op "/users" "get"
                "SELECT * FROM users" false None [] Demo.w0) as (_ & Hlist & _).
    destruct (Hlist [VStr "admin"]) as (_ & _ & _ & _ & Hreg).
    destruct Hreg as (H1 & H2 & _).
    + vm_compute. discriminate.
    + apply coveredb_true. vm_compute. reflexivity.
    + split; [exact H1|]. apply H2. vm_compute. apply list_elem_of_here.
  - destruct (check_auth_roles_spec Demo.settings SqlModel.get_sql_op "/users" "get"
                "SELECT * FROM users" true None [] Demo.w0) as (_ & Hlist & _).
    destruct (Hlist []) as (_ & _ & _ & _ & Hreg).
    destruct Hreg as (H1 & H2 & _).
    + vm_compute. discriminate.
    + apply coveredb_true. vm_compute. reflexivity.
    + split; [exact H1|]. apply H2. vm_compute. apply list_elem_of_here.
Defined.

(** ** The authorization gate *)

Section Gate.

Variable settings : settings_t.
Variable check_token : string -> option user_data.
Variable get_primary_key : string -> option string.
Variable silence_to_mysql : string -> string.
Variable db_query : string -> list value -> res (list row).
Variable db_update : string -> list value -> res value.

Lemma get_logged_user_run req w :
  get_logged_user check_token req w
  = (Val (token_identity check_token req), add_logs (token_notes check_token req) w).
Proof.
  unfold get_logged_user, token_identity, token_notes.
  destruct (header_Token req) as [[|c t]|]; try by rewrite add_logs_nil.
  destruct (check_token (String c t)); [by rewrite add_logs_nil|done].
Qed.



Lemma check_session_role d name l w :
  USER_AUTH_DATA_role settings = Some name -> name <> "" ->
  check_session settings (Some d) (PyList l) w =
  (if py_in (find_role d name) l || py_in (VStr "*") l then Val tt else Exn unauthorized,
   add_logs [(DEBUG, MsgRoles (PyList l) (find_role d name))] w).
Proof.
  intros Hr Hne. unfold check_session. rewrite Hr. destruct name as [|c name]; [done|].
  simpl. unfold mbind, M_bind, logger, lift, py_in. simpl.
  destruct (existsb (Py.eq (find_role d (String c name))) l); [done|]. simpl.
  by destruct (existsb (Py.eq (VStr "*")) l).
Qed.

(** No data access happens before the gate has let the request through. *)
Lemma route_handler_gate ep req kwargs w e w' :
  ep_auth_required ep = true ->
  check_session settings (token_identity check_token req) (ep_allowed_roles ep)
    (add_logs (token_notes check_token req) w) = (Exn e, w') ->
  route_handler settings check_token get_primary_key silence_to_mysql db_query db_update
    ep req kwargs w = (Exn e, w').
Proof.
  intros Ha Hs. unfold route_handler.
  unfold mbind at 1, M_bind at 1. rewrite get_logged_user_run.
  unfold mbind at 1, M_bind at 1. by rewrite Ha, Hs.
Qed.

End Gate.



(** ** Role matching *)

Lemma find_role_first d name pre k v post :
  d = (pre ++ (k, v) :: post)%list ->
  lower k = lower name ->
  Forall (fun kv => lower (fst kv) <> lower name) pre ->
  find_role d name = v.
Proof.
  intros -> Hk Hpre. induction Hpre as [|[k' v'] pre Hk' _ IH]; simpl.
  - by rewrite (proj2 (String.eqb_eq _ _) Hk).
  - simpl in Hk'. by rewrite (proj2 (String.eqb_neq _ _) Hk').
Qed.

Lemma py_in_other_case r l :
  Forall (fun a => exists s, a = VStr s /\ s <> r /\ lower s = lower r) l ->
  py_in (VStr r) l = false.
Proof.
  unfold py_in. induction 1 as [|a l (s & -> & Hne & _) _ IH]; [done|].
  simpl. rewrite IH, orb_false_r. apply String.eqb_neq. congruence.
Qed.

Lemma py_in_exact x l : In x l -> Py.eq x x = true -> py_in x l = true.
Proof. intros Hin Hx. apply existsb_exists. eauto. Qed.

(** C10.  With a configured role column, the role of an identity is the
    value of the first claim whose key equals the column name once both are
    in lower case; that value is then looked up in [allowed_roles] as it
    stands.  When it is a string that every allowed role equals up to letter
    case but not exactly, and the list does not hold ["*"], the check raises
    401, and so does the handler of an endpoint that requires authentication,
    before any query; an exact match or the wildcard lets the request
    through. *)
Theorem role_match_is_case_sensitive
    settings check_token get_primary_key silence_to_mysql db_query db_update
    d name r l :
  USER_AUTH_DATA_role settings = Some name -> name <> "" ->
  find_role d name = VStr r ->
  (forall pre k v post,
      d = (pre ++ (k, v) :: post)%list -> lower k = lower name ->
      Forall (fun kv => lower (fst kv) <> lower name) pre -> v = VStr r) /\
  (Forall (fun a => exists s, a = VStr s /\ s <> r /\ lower s = lower r) l ->
   py_in (VStr "*") l = false ->
   (forall w, check_session settings (Some d) (PyList l) w
              = (Exn (HTTPError 401 "Unauthorized"),
                 add_logs [(DEBUG, MsgRoles (PyList l) (VStr r))] w)) /\
   (forall ep req kwargs w,
       ep_auth_required ep = true -> ep_allowed_roles ep = PyList l ->
       token_identity check_token req = Some d ->
       let run := route_handler settings check_token get_primary_key silence_to_mysql
                    db_query db_update ep req kwargs w in
       fst run = Exn (HTTPError 401 "Unauthorized") /\ dal_calls (snd run) = dal_calls w)) /\
  (In (VStr r) l \/ py_in (VStr "*") l = true ->
   forall w, fst (check_session settings (Some d) (PyList l) w) = Val tt).
Proof.
  intros Hr Hne Hrole. split; [|split].
  - intros pre k v post Hd Hk Hpre.
    by rewrite <- (find_role_first d name pre k v post Hd Hk Hpre).
  - intros Hl Hstar.
    assert (forall w, check_session settings (Some d) (PyList l) w
                      = (Exn unauthorized, add_logs [(DEBUG, MsgRoles (PyList l) (VStr r))] w))
      as Hcs.
    { intros w. rewrite (check_session_role settings d name) by done.
      by rewrite Hrole, (py_in_other_case r l Hl), Hstar. }
    split; [done|]. intros ep req kwargs w Ha Hroles Hid. cbv zeta.
    erewrite route_handler_gate; [| done | by rewrite Hid, Hroles, Hcs ]. done.
  - intros Hin w. rewrite (check_session_role settings d name), Hrole by done.
    destruct Hin as [Hin| ->]; [|by rewrite orb_true_r].
    rewrite (py_in_exact (VStr r) l Hin); [done|]. simpl. apply String.eqb_refl.
Qed.

Lemma role_match_is_case_sensitive_witness :
  let run := Demo.handler DemoEndpoints.admin_users
               (DemoEndpoints.request_with (Some "bob") []) ∅ Demo.w0 in
  fst run = Exn (HTTPError 401 "Unauthorized") /\ dal_calls (snd run) = [].
Proof.
  cbv zeta.
  destruct (role_match_is_case_sensitive Demo.settings Demo.check_token Demo.get_primary_key
              Demo.silence_to_mysql Demo.db_query Demo.db_update
              [("id", VInt 2); ("role", VStr "ADMIN")] "role" "ADMIN" [VStr "admin"]
              eq_refl ltac:(discriminate) eq_refl) as (_ & Hrej & _).
  destruct Hrej as [_ Hh].
  - constructor; [|constructor]. exists "admin". split; [reflexivity|].
    split; [discriminate|reflexivity].
  - reflexivity.
  - exact (Hh DemoEndpoints.admin_users (DemoEndpoints.request_with (Some "bob") []) ∅
              Demo.w0 eq_refl eq_refl eq_refl).
Defined.

Example alice_passes :
  fst (Demo.handler DemoEndpoints.admin_users (DemoEndpoints.request_with (Some "alice") []) ∅
         Demo.w0) = Val (Rows [], 200%Z).
Proof. vm_compute. reflexivity. Qed.

(** ** Single-resource routes *)

Lemma all_word_take_word s : all_word (take_word s) = true.
Proof. induction s as [|c s IH]; [done|]. simpl. destruct (is_word c) eqn:Hc; [|done]. simpl. by rewrite Hc. Qed.

Lemma has_char_app c s t : has_char c (s +:+ t) = has_char c s || has_char c t.
Proof.
  induction s as [|d s IH]; [done|]. rewrite str_app_cons.
  change (has_char c (String d (s +:+ t))) with (Ascii.eqb d c || has_char c (s +:+ t)).
  change (has_char c (String d s)) with (Ascii.eqb d c || has_char c s).
  by rewrite IH, orb_assoc.
Qed.

Lemma has_char_cons c d s : has_char c (String d s) = Ascii.eqb d c || has_char c s.
Proof. reflexivity. Qed.

Lemma has_char_drop_word c s : has_char c s = false -> has_char c (drop_word s) = false.
Proof.
  intros H. rewrite <- (take_drop_word s), has_char_app in H. by apply orb_false_elim in H as [_ ?].
Qed.

Lemma tail_match_ends s :
  has_char LF s = false -> tail_match s = true ->
  exists name, name <> "" /\ all_word name = true /\
               (s = "$" +:+ name \/ s = "$" +:+ name +:+ "/").
Proof.
  destruct s as [|c s]; [done|]. rewrite has_char_cons.
  intros [_ Hlf]%orb_false_elim. unfold tail_match.
  intros [[Hc Hw]%andb_prop Htail]%andb_prop.
  apply Ascii.eqb_eq in Hc as ->.
  exists (take_word s). split; [by destruct s as [|d s]; [|simpl in *; rewrite Hw]|].
  split; [apply all_word_take_word|].
  pose proof (take_drop_word s) as Hsplit.
  pose proof (has_char_drop_word LF s Hlf) as Hrest.
  destruct (drop_word s) as [|d t].
  - left. by rewrite str_app_nil_r in Hsplit; rewrite str_app_cons, str_app_nil_l, Hsplit.
  - right. rewrite has_char_cons in Hrest. apply orb_false_elim in Hrest as [Hd Ht].
    assert (t = "" /\ d = "/"%char) as [-> ->].
    { apply orb_prop in Htail as [[Hd' Ht']%andb_prop|Ht'].
      - apply Ascii.eqb_eq in Hd'. split; [|done].
        destruct t as [|e [|? ?]]; try done. simpl in Ht'.
        rewrite has_char_cons in Ht. by rewrite Ht' in Ht.
      - destruct t; simpl in Ht'; [by rewrite Hd in Ht'|done]. }
    by rewrite str_app_cons, str_app_nil_l, Hsplit.
Qed.

Lemma RE_QUERY_PARAM_match_cons c s :
  RE_QUERY_PARAM_match (String c s)
  = tail_match (String c s) || (negb (Ascii.eqb c LF) && RE_QUERY_PARAM_match s).
Proof. reflexivity. Qed.

(** On a route without a line feed the expression matches exactly the routes
    that end in a placeholder. *)
Lemma RE_QUERY_PARAM_match_spec route :
  has_char LF route = false ->
  RE_QUERY_PARAM_match route = true <-> ends_in_placeholder route.
Proof.
  intros Hlf. split.
  - induction route as [|c s IH]; [done|]. rewrite RE_QUERY_PARAM_match_cons.
    intros [Ht|[_ Hr]%andb_prop]%orb_prop.
    + destruct (tail_match_ends _ Hlf Ht) as (name & ? & ? & Hs). by exists "", name.
    + rewrite has_char_cons in Hlf. apply orb_false_elim in Hlf as [_ Hlf].
      destruct (IH Hlf Hr) as (pre & name & ? & ? & Hs).
      exists (String c pre), name. rewrite !str_app_cons.
      split; [done|]. split; [done|]. by destruct Hs as [-> | ->]; [left|right].
  - intros (pre & name & Hne & Hw & Hs).
    assert (exists tail, route = pre +:+ "$" +:+ name +:+ tail /\ (tail = "" \/ tail = "/"))
      as (tail & -> & Htail).
    { destruct Hs as [-> | ->]; [exists ""|exists "/"]; [|by auto].
      by rewrite str_app_nil_r; auto. }
    clear Hs. induction pre as [|c pre IH].
    + rewrite !str_app_nil_l. change ("$" +:+ name +:+ tail) with (String "$" (name +:+ tail)).
      rewrite RE_QUERY_PARAM_match_cons. apply orb_true_intro. left.
      unfold tail_match.
      assert (starts_word tail = false) as Hst by by destruct Htail as [-> | ->].
      rewrite (drop_word_app name tail Hw Hst).
      assert (starts_word (name +:+ tail) = true) as ->.
      { destruct name as [|d name]; [done|]. simpl in Hw. by apply andb_prop in Hw as [? _]. }
      by destruct Htail as [-> | ->].
    + rewrite (str_app_cons c pre) in Hlf |- *. rewrite RE_QUERY_PARAM_match_cons.
      rewrite has_char_cons in Hlf. apply orb_false_elim in Hlf as [Hc Hlf].
      rewrite Hc, (IH Hlf). simpl. apply orb_true_r.
Qed.

Section ReadHandler.

Variable settings : settings_t.
Variable check_token : string -> option user_data.
Variable get_primary_key : string -> option string.
Variable silence_to_mysql : string -> string.
Variable db_query : string -> list value -> res (list row).
Variable db_update : string -> list value -> res value.

(** What a SELECT endpoint answers once the query has run and its rows have
    been filtered. *)
Lemma route_handler_select ep req kwargs w dict w1 params rows filtered :
  ep_sql_op ep = SELECT ->
  bound_params settings check_token get_primary_key ep req kwargs w = (Val dict, w1) ->
  getitems dict (ep_sql_params ep) = Val params ->
  db_query (silence_to_mysql (ep_sql ep)) params = Val rows ->
  filter_query_results rows (args req) = Val filtered ->
  route_handler settings check_token get_primary_key silence_to_mysql db_query db_update
    ep req kwargs w =
  (if RE_QUERY_PARAM_match (ep_route ep) && bool_decide (filtered = [])
   then Exn (HTTPError 404 "Not found") else Val (Rows filtered, 200%Z),
   record_query (silence_to_mysql (ep_sql ep)) params w1).
Proof.
  intros Hop Hb Hp Hq Hf. unfold bound_params in Hb. unfold route_handler.
  unfold mbind, M_bind in Hb |- *.
  destruct (get_logged_user check_token req w) as [[lud|e] w2]; [|done].
  set (gate := if ep_auth_required ep
               then check_session settings lud (ep_allowed_roles ep) else pass) in *.
  destruct (gate w2) as [[[]|e] w3]; [|done].
  destruct (ep_logged_user ep).
  - destruct (get_current_user_id settings get_primary_key lud w3) as [[uid|e] w4]; [|done].
    unfold mret, M_ret in Hb. injection Hb as <- <-.
    rewrite Hop. simpl. unfold lift, api_safe_query, mbind, M_bind, record_call, lift.
    rewrite Hp, Hq, Hf. unfold record_query.
    by destruct (RE_QUERY_PARAM_match (ep_route ep) && bool_decide (filtered = [])).
  - unfold mret, M_ret in Hb. injection Hb as <- <-.
    rewrite Hop. simpl. unfold lift, api_safe_query, mbind, M_bind, record_call, lift.
    rewrite Hp, Hq, Hf. unfold record_query.
    by destruct (RE_QUERY_PARAM_match (ep_route ep) && bool_decide (filtered = [])).
Qed.

End ReadHandler.

(** X25.  On a route pattern that holds no line feed the handler of a SELECT
    endpoint keeps the rule of the single resource.  Take a request that
    passes the gate, whose query runs and whose filtered result is empty: if
    the route pattern ends in a placeholder, optionally followed by a slash,
    the handler raises 404; if it does not, the handler answers 200 with the
    empty list. *)
Theorem empty_result_of_single_resource
    settings check_token get_primary_key silence_to_mysql db_query db_update
    ep req kwargs w dict w1 params rows :
  ep_sql_op ep = SELECT ->
  has_char LF (ep_route ep) = false ->
  bound_params settings check_token get_primary_key ep req kwargs w = (Val dict, w1) ->
  getitems dict (ep_sql_params ep) = Val params ->
  db_query (silence_to_mysql (ep_sql ep)) params = Val rows ->
  filter_query_results rows (args req) = Val [] ->
  let run := route_handler settings check_token get_primary_key silence_to_mysql db_query
               db_update ep req kwargs w in
  (ends_in_placeholder (ep_route ep) -> fst run = Exn (HTTPError 404 "Not found")) /\
  (~ ends_in_placeholder (ep_route ep) -> fst run = Val (Rows [], 200%Z)).
Proof.
  intros Hop Hlf Hb Hp Hq Hf. cbv zeta.
  rewrite (route_handler_select settings check_token get_primary_key silence_to_mysql
             db_query db_update ep req kwargs w dict w1 params rows [] Hop Hb Hp Hq Hf).
  pose proof (RE_QUERY_PARAM_match_spec (ep_route ep) Hlf) as Hre.
  destruct (RE_QUERY_PARAM_match (ep_route ep)).
  - split; [done|]. intros Hn. exfalso. by apply Hn, Hre.
  - split; [|done]. intros He. by apply Hre in He.
Qed.

Lemma empty_result_of_single_resource_witness :
  fst (Demo.handler DemoRoutes.user_by_id DemoRoutes.no_token DemoRoutes.id7 Demo.w0)
  = Exn (HTTPError 404 "Not found") /\
  fst (Demo.handler DemoRoutes.all_users DemoRoutes.no_token ∅ Demo.w0)
  = Val (Rows [], 200%Z).
Proof.
  split.
  - refine (proj1 (empty_result_of_single_resource Demo.settings Demo.check_token
                     Demo.get_primary_key Demo.silence_to_mysql Demo.db_query Demo.db_update
                     DemoRoutes.user_by_id DemoRoutes.no_token DemoRoutes.id7 Demo.w0
                     DemoRoutes.id7 Demo.w0 [VInt 7] [] eq_refl eq_refl _ _ eq_refl _) _).
    + vm_compute. reflexivity.
    + vm_compute. reflexivity.
    + vm_compute. reflexivity.
    + exists "/users/", "id". split; [discriminate|]. split; [reflexivity|]. by left.
  - refine (proj2 (empty_result_of_single_resource Demo.settings Demo.check_token
                     Demo.get_primary_key Demo.silence_to_mysql Demo.db_query Demo.db_update
                     DemoRoutes.all_users DemoRoutes.no_token ∅ Demo.w0
                     ∅ Demo.w0 [] [] eq_refl eq_refl _ _ eq_refl _) _).
    + vm_compute. reflexivity.
    + vm_compute. reflexivity.
    + vm_compute. reflexivity.
    + intros He. apply (RE_QUERY_PARAM_match_spec "/users" eq_refl) in He. discriminate He.
Defined.

Lemma last_char_app s t : t <> "" -> last_char (s +:+ t) = last_char t.
Proof.
  intros Ht. induction s as [|c s IH]; [done|]. rewrite str_app_cons.
  change (last_char (String c (s +:+ t))) with
    (match s +:+ t with EmptyString => Some c | _ => last_char (s +:+ t) end).
  rewrite IH. destruct s; [by destruct t|done].
Qed.

Lemma last_char_word name :
  name <> "" -> all_word name = true -> exists c, last_char name = Some c /\ is_word c = true.
Proof.
  induction name as [|c name IH]; [done|]. intros _ [Hc Hw]%andb_prop.
  destruct name as [|d name]; [by exists c|].
  destruct IH as (e & He & Hwe); [done|done|]. by exists e.
Qed.

Lemma ends_in_placeholder_last route :
  ends_in_placeholder route ->
  exists c, last_char route = Some c /\ (is_word c = true \/ c = "/"%char).
Proof.
  intros (pre & name & Hne & Hw & [-> | ->]).
  - destruct (last_char_word name Hne Hw) as (c & Hc & Hwc). exists c. split; [|by left].
    rewrite last_char_app; [|by destruct name]. rewrite str_app_cons, str_app_nil_l.
    change (String "$" name) with ("$" +:+ name). by rewrite last_char_app.
  - exists "/"%char. split; [|by right].
    rewrite last_char_app; [|done]. rewrite last_char_app; [|by destruct name].
    by rewrite last_char_app.
Qed.

(** A route with a line feed is registered as any other: [setup_endpoint]
    looks at the characters of a route only to find its parameters. *)
Lemma line_feed_route_registers get_sql_op route sql w :
  get_sql_op sql = SELECT ->
  contains "$loggedId" sql = false ->
  covered (extract_params sql) (extract_params route) ->
  exists w',
    setup_endpoint Demo.settings get_sql_op route "GET" sql false (PyList [VStr "*"]) None [] w
    = (Val tt, w') /\
    (view_func <$> last (url_map w')) = Some (DemoRoutes.read route sql).
Proof.
  intros Hop Hlogged Hcov.
  pose proof (setup_endpoint_run Demo.settings get_sql_op route "GET" sql false [VStr "*"]
                None [] w) as Hrun.
  cbv zeta in Hrun. rewrite Hrun by by rewrite Hop. clear Hrun.
  rewrite Hop. cbn [declared_sources].
  rewrite (proj2 (missing_params_empty _ _) Hcov).
  destruct (decide (∅ = ∅)) as [_|]; [|done].
  eexists. split; [done|]. cbn [url_map]. rewrite last_snoc. cbn [fmap option_fmap option_map].
  unfold installed_rule, DemoRoutes.read. cbn [view_func]. by rewrite Hlogged.
Qed.

(** C7.  The route [/a], a line feed, [/$id] ends in a placeholder, and a
    SELECT endpoint on it is registered as on any other route, with the
    handler of that route.  For a request that passes the gate and whose
    query finds no row, that handler answers 200 with the empty list, where
    the claim, and the comment above the test in the source, say 404:
    [RE_QUERY_PARAM] does not match the route, for [.] stops at a line feed.
    The same expression lets [$] hold before a last line feed: the route
    [/users/$id] followed by a line feed does not end in a placeholder, and
    the handler answers 404 on it. *)
Theorem line_feed_route_misses_404 :
  let sql := "SELECT * FROM users WHERE id = $id" in
  (ends_in_placeholder DemoRoutes.broken_line /\
   RE_QUERY_PARAM_match DemoRoutes.broken_line = false /\
   (forall get_sql_op w,
       get_sql_op sql = SELECT ->
       exists w',
         setup_endpoint Demo.settings get_sql_op DemoRoutes.broken_line "GET" sql false
           (PyList [VStr "*"]) None [] w = (Val tt, w') /\
         (view_func <$> last (url_map w')) = Some (DemoRoutes.read DemoRoutes.broken_line sql)) /\
   fst (Demo.handler (DemoRoutes.read DemoRoutes.broken_line sql)
          DemoRoutes.no_token DemoRoutes.id7 Demo.w0) = Val (Rows [], 200%Z)) /\
  (~ ends_in_placeholder DemoRoutes.trailing_line /\
   RE_QUERY_PARAM_match DemoRoutes.trailing_line = true /\
   fst (Demo.handler (DemoRoutes.read DemoRoutes.trailing_line sql)
          DemoRoutes.no_token DemoRoutes.id7 Demo.w0) = Exn (HTTPError 404 "Not found")).
Proof.
  cbv zeta. split; [split; [|split; [|split]]|split; [|split]].
  - exists ("/a" +:+ String LF "/"), "id". split; [discriminate|]. split; [reflexivity|].
    by left.
  - vm_compute. reflexivity.
  - intros get_sql_op w Hop. apply line_feed_route_registers; [done|by vm_compute|].
    apply coveredb_true. vm_compute. reflexivity.
  - vm_compute. reflexivity.
  - intros (c & Hc & Hw)%ends_in_placeholder_last.
    vm_compute in Hc. injection Hc as <-. by destruct Hw.
  - vm_compute. reflexivity.
  - vm_compute. reflexivity.
Qed.

(** ** The result shaper, stage by stage *)

Lemma filter_query_results_stages data args :
  filter_query_results data args =
  rows ← sorted_rows data args;
  let offset := if int_truthy (limit_of args) && int_truthy (page_of args)
                then (default 0 (limit_of args) * default 0 (page_of args))%Z else 0%Z in
  let top := if int_truthy (limit_of args) then (offset + default 0 (limit_of args))%Z
             else Z.of_nat (length rows) in
  Val (Py.slice rows offset top).
Proof. reflexivity. Qed.

Lemma slice_all {A} (l : list A) : Py.slice l 0 (Z.of_nat (length l)) = l.
Proof.
  unfold Py.slice, Py.slice_bound.
  destruct (Z.ltb_spec (Z.of_nat (length l)) 0) as [?|_]; [lia|].
  simpl. rewrite Z.min_id. rewrite Z.min_l by lia. simpl.
  rewrite Z.sub_0_r, Nat2Z.id. apply firstn_all.
Qed.

Lemma slice_nonneg {A} (l : list A) (lo n : Z) :
  (0 <= lo)%Z -> (0 <= n)%Z ->
  Py.slice l lo (lo + n) = take (Z.to_nat n) (drop (Z.to_nat lo) l).
Proof.
  intros Hlo Hn. unfold Py.slice, Py.slice_bound.
  destruct (Z.ltb_spec lo 0) as [?|_]; [lia|].
  destruct (Z.ltb_spec (lo + n) 0) as [?|_]; [lia|].
  set (len := Z.of_nat (length l)).
  destruct (Z.le_gt_cases len lo) as [Hge|Hlt].
  - rewrite !Z.min_r by lia. rewrite Z.sub_diag.
    rewrite !drop_ge by (subst len; lia). by rewrite !take_nil.
  - rewrite (Z.min_l lo) by lia.
    destruct (Z.le_gt_cases (lo + n) len) as [Hin|Hout].
    + rewrite Z.min_l by lia. f_equal. lia.
    + rewrite Z.min_r by lia.
      rewrite !take_ge; [done| |]; rewrite length_drop; subst len; lia.
Qed.

(** C5.  Once the rows are filtered and sorted, paging never fails.  With a
    limit that parses as a non-zero integer and a page that parses as an
    integer the result is the slice from limit * page to limit * page + limit;
    with such a limit and a page that is absent, not an integer or zero, the
    slice from 0 to limit; with a limit that is absent, not an integer or
    zero, all the rows.  A slice is Python's; for bounds that are not negative
    it is the [limit] rows that follow the first limit * page ones. *)
Theorem pagination_spec data args rows :
  sorted_rows data args = Val rows ->
  (forall n p,
      limit_of args = Some n -> n <> 0%Z -> page_of args = Some p ->
      filter_query_results data args = Val (Py.slice rows (n * p) (n * p + n))) /\
  (forall n,
      limit_of args = Some n -> n <> 0%Z -> page_of args = None \/ page_of args = Some 0%Z ->
      filter_query_results data args = Val (Py.slice rows 0 n)) /\
  (limit_of args = None \/ limit_of args = Some 0%Z ->
   filter_query_results data args = Val rows) /\
  (forall n p, (0 <= n)%Z -> (0 <= p)%Z ->
               Py.slice rows (n * p) (n * p + n)
               = take (Z.to_nat n) (drop (Z.to_nat (n * p)) rows)) /\
  (forall key s, MultiDict.get key args = Some s -> Py.int s = None ->
                 MultiDict.get key args ≫= Py.int = None) /\
  (forall key, MultiDict.get key args = None -> MultiDict.get key args ≫= Py.int = None).
Proof.
  intros Hs. rewrite filter_query_results_stages, Hs.
  split; [|split; [|split; [|split; [|split]]]].
  - intros n p -> Hn ->. simpl. apply Z.eqb_neq in Hn. rewrite Hn. simpl.
    destruct (Z.eqb_spec p 0) as [->|_]; simpl; [|done].
    by rewrite Z.mul_0_r.
  - intros n -> Hn Hp. simpl. apply Z.eqb_neq in Hn. rewrite Hn. simpl.
    by destruct Hp as [-> | ->].
  - intros [-> | ->]; simpl; by rewrite slice_all.
  - intros n p Hn Hp. apply slice_nonneg; lia.
  - intros key s -> Hnone. exact Hnone.
  - by intros key ->.
Qed.

Lemma pagination_spec_witness :
  filter_query_results DemoRows.ten [("_limit", "3"); ("_page", "1")]
  = Val (map DemoRows.numbered [3; 4; 5]%Z) /\
  filter_query_results DemoRows.ten [("_limit", "3")] = Val (map DemoRows.numbered [0; 1; 2]%Z) /\
  filter_query_results DemoRows.ten [] = Val DemoRows.ten /\
  filter_query_results DemoRows.ten [("_limit", "many"); ("_page", "x")] = Val DemoRows.ten.
Proof.
  split; [|split; [|split]].
  - destruct (pagination_spec DemoRows.ten [("_limit", "3"); ("_page", "1")] DemoRows.ten)
      as (H & _); [vm_compute; reflexivity|].
    rewrite (H 3%Z 1%Z); [vm_compute; reflexivity|reflexivity|discriminate|reflexivity].
  - destruct (pagination_spec DemoRows.ten [("_limit", "3")] DemoRows.ten)
      as (_ & H & _); [vm_compute; reflexivity|].
    rewrite (H 3%Z); [vm_compute; reflexivity|reflexivity|discriminate|by left].
  - destruct (pagination_spec DemoRows.ten [] DemoRows.ten)
      as (_ & _ & H & _); [vm_compute; reflexivity|].
    apply H. by left.
  - destruct (pagination_spec DemoRows.ten [("_limit", "many"); ("_page", "x")] DemoRows.ten)
      as (_ & _ & H & _); [vm_compute; reflexivity|].
    apply H. by left.
Defined.

(** ** Sorting with the sentinel *)

Lemma key_lt_rank a b bl :
  key_lt a b = Some bl -> if bl then rank a <= rank b else rank b <= rank a.
Proof. destruct a, b; simpl; intros H; try (injection H as <-); simpl; try lia; destruct bl; lia. Qed.

Section SortProps.

Context {A : Type}.
Implicit Types (x : sort_key * A) (l : list (sort_key * A)).

Lemma insert_keyed_exn x l e : insert_keyed x l = Exn e -> e = TypeError.
Proof.
  induction l as [|y l IH]; [done|]. simpl.
  destruct (key_lt (fst x) (fst y)) as [[]|]; simpl; [done| |by intros [= <-]].
  destruct (insert_keyed x l); simpl; [done|]. intros [= <-]. by apply IH.
Qed.

Lemma insert_keyed_perm x l l' : insert_keyed x l = Val l' -> x :: l ≡ₚ l'.
Proof.
  revert l'. induction l as [|y l IH]; intros l'; simpl; [by intros [= <-]|].
  destruct (key_lt (fst x) (fst y)) as [[]|]; simpl; [by intros [= <-]| |done].
  destruct (insert_keyed x l) as [l''|]; simpl; [|done].
  intros [= <-]. rewrite Permutation_swap. by rewrite (IH l'' eq_refl).
Qed.

Lemma insert_keyed_sorted x l :
  comparable [x] l -> StronglySorted rank_le l ->
  exists l', insert_keyed x l = Val l' /\ StronglySorted rank_le l'.
Proof.
  intros Hc Hs. induction Hs as [|y l Hs IH Hy]; [by exists [x]; repeat constructor|].
  simpl. destruct (key_lt (fst x) (fst y)) as [bl|] eqn:Hlt;
    [|by destruct (Hc x y); [left|left|]].
  apply key_lt_rank in Hlt. destruct bl; simpl.
  - eexists. split; [done|]. constructor; [by constructor|].
    constructor; [done|]. eapply Forall_impl; [exact Hy|].
    intros z Hz. unfold rank_le in *. lia.
  - destruct IH as (l' & Hl' & Hs').
    { intros a b Ha Hb. apply Hc; [done|by right]. }
    rewrite Hl'. simpl. eexists. split; [done|]. constructor; [done|].
    apply insert_keyed_perm in Hl'. rewrite <- Hl'. by constructor.
Qed.

Lemma sort_keyed_exn acc l e : sort_keyed acc l = Exn e -> e = TypeError.
Proof.
  revert acc. induction l as [|x l IH]; intros acc; simpl; [done|].
  destruct (insert_keyed x acc) as [acc'|e'] eqn:Hi; simpl; [apply IH|].
  intros [= <-]. by apply insert_keyed_exn in Hi.
Qed.

Lemma sort_keyed_perm acc l out : sort_keyed acc l = Val out -> acc ++ l ≡ₚ out.
Proof.
  revert acc. induction l as [|x l IH]; intros acc; simpl.
  - intros [= <-]. by rewrite app_nil_r.
  - destruct (insert_keyed x acc) as [acc'|] eqn:Hi; simpl; [|done].
    intros Hs. apply IH in Hs. apply insert_keyed_perm in Hi.
    rewrite <- Hs, <- Hi. simpl. by rewrite Permutation_middle.
Qed.

Lemma sort_keyed_sorted acc l :
  comparable (acc ++ l) (acc ++ l) -> StronglySorted rank_le acc ->
  exists out, sort_keyed acc l = Val out /\ StronglySorted rank_le out.
Proof.
  revert acc. induction l as [|x l IH]; intros acc Hc Hs; simpl; [by exists acc|].
  destruct (insert_keyed_sorted x acc) as (acc' & Hi & Hs'); [|done|].
  { intros a b ->%list_elem_of_singleton Hb. apply Hc; set_solver. }
  rewrite Hi. simpl. apply IH; [|done].
  apply insert_keyed_perm in Hi.
  intros a b Ha Hb. apply Hc.
  - rewrite <- Hi in Ha. set_solver.
  - rewrite <- Hi in Hb. set_solver.
Qed.

(** A list sorted by rank is its sentinel keys followed by the others. *)
Lemma sorted_by_rank_split l :
  StronglySorted rank_le l ->
  exists mins others,
    l = mins ++ others /\ Forall (fun x => fst x = Min) mins /\
    Forall (fun x => fst x <> Min) others.
Proof.
  induction 1 as [|x l Hs (mins & others & -> & Hm & Ho) Hx].
  - by exists [], [].
  - destruct (fst x) eqn:Hk.
    + exists (x :: mins), others. by repeat split; [constructor|].
    + exists [], (x :: mins ++ others). split; [done|]. split; [done|].
      constructor; [by rewrite Hk|].
      eapply Forall_impl; [exact Hx|]. intros y Hy. unfold rank_le in Hy.
      rewrite Hk in Hy. simpl in Hy. intros Hmin. rewrite Hmin in Hy. simpl in Hy. lia.
Qed.

Variable key : A -> res sort_key.

Lemma compute_keys_val (rows : list A) keyed :
  compute_keys key rows = Val keyed ->
  map snd keyed = rows /\ Forall (fun x => key (snd x) = Val (fst x)) keyed.
Proof.
  revert keyed. induction rows as [|r rows IH]; intros keyed; simpl.
  - by intros [= <-].
  - destruct (key r) as [k|] eqn:Hk; simpl; [|done].
    destruct (compute_keys key rows) as [ks|]; simpl; [|done].
    intros [= <-]. destruct (IH ks eq_refl) as [Hm Hf]. simpl. rewrite Hm.
    split; [done|]. by constructor.
Qed.

Lemma compute_keys_exn (rows : list A) e :
  compute_keys key rows = Exn e -> exists r, r ∈ rows /\ key r = Exn e.
Proof.
  induction rows as [|r rows IH]; simpl; [done|].
  destruct (key r) as [k|e'] eqn:Hk; simpl.
  - destruct (compute_keys key rows) as [ks|e'']; simpl; [done|].
    intros [= <-]. destruct IH as (r' & ? & ?); [done|]. exists r'. split; [by right|done].
  - intros [= <-]. exists r. split; [by left|done].
Qed.

Lemma compute_keys_total (rows : list A) :
  Forall (fun r => exists k, key r = Val k) rows ->
  exists keyed, compute_keys key rows = Val keyed.
Proof.
  induction 1 as [|r rows (k & Hk) _ (ks & Hks)]; simpl; [by eexists|].
  rewrite Hk, Hks. simpl. by eexists.
Qed.

Lemma compute_keys_fails (rows : list A) r :
  r ∈ rows -> key r = Exn KeyError ->
  (forall r' e, key r' = Exn e -> e = KeyError) ->
  compute_keys key rows = Exn KeyError.
Proof.
  intros Hr Hk Hall.
  destruct (compute_keys key rows) as [keyed|e] eqn:Hc.
  - apply compute_keys_val in Hc as [<- Hf].
    apply list_elem_of_fmap in Hr as (x & -> & Hx).
    rewrite Forall_forall in Hf. apply Hf in Hx. congruence.
  - apply compute_keys_exn in Hc as (r' & _ & Hr'). by rewrite (Hall _ _ Hr').
Qed.

(** A sort that succeeds rearranges the list. *)
Lemma list_sort_perm reverse (rows out : list A) :
  list_sort key reverse rows = Val out -> rows ≡ₚ out.
Proof.
  unfold list_sort.
  destruct (compute_keys key rows) as [keyed|] eqn:Hk; simpl; [|done].
  destruct (sort_keyed [] (if reverse then rev keyed else keyed)) as [sorted|] eqn:Hs;
    simpl; [|done].
  intros [= <-]. apply compute_keys_val in Hk as [<- _].
  apply sort_keyed_perm in Hs. simpl in Hs.
  destruct reverse.
  - by rewrite <- Permutation_rev, <- Hs, <- Permutation_rev.
  - by rewrite Hs.
Qed.

(** A sort fails with [KeyError] only while computing the keys, and with
    nothing else than [TypeError] afterwards. *)
Lemma list_sort_exn reverse (rows : list A) e :
  (forall r' e', key r' = Exn e' -> e' = KeyError) ->
  list_sort key reverse rows = Exn e -> e = KeyError \/ e = TypeError.
Proof.
  intros Hall. unfold list_sort.
  destruct (compute_keys key rows) as [keyed|e'] eqn:Hk; simpl.
  - destruct (sort_keyed [] _) as [sorted|e''] eqn:Hs; simpl; [done|].
    intros [= <-]. right. by apply sort_keyed_exn in Hs.
  - intros [= <-]. left. apply compute_keys_exn in Hk as (r & _ & Hr). by apply Hall in Hr.
Qed.

End SortProps.

Lemma order_key_func_exn sort_param r e :
  order_key_func sort_param r = Exn e -> e = KeyError.
Proof.
  unfold order_key_func. destruct sort_param as [c|]; [|by intros [= <-]].
  destruct (r !! c) as [[]|]; try done. by intros [= <-].
Qed.

Lemma order_key_func_val c r k :
  order_key_func (Some c) r = Val k ->
  match k with
  | Min => null_at c r
  | Key v => r !! c = Some v /\ v <> VNone
  end.
Proof.
  unfold order_key_func, null_at. destruct (r !! c) as [[]|]; try done; by intros [= <-].
Qed.

Lemma order_key_func_null c r : null_at c r -> order_key_func (Some c) r = Val Min.
Proof. unfold null_at, order_key_func. by intros ->. Qed.

Lemma key_lt_numbers a b :
  (forall v, a = Key v -> is_Some (Py.num_of v)) ->
  (forall v, b = Key v -> is_Some (Py.num_of v)) ->
  key_lt a b <> None.
Proof.
  destruct a as [|x], b as [|y]; try done. intros Ha Hb.
  destruct (Ha x eq_refl) as [n Hn], (Hb y eq_refl) as [m Hm].
  simpl. unfold Py.lt. destruct x, y; try done; by rewrite ?Hn, ?Hm.
Qed.

Lemma key_lt_texts a b :
  (forall v, a = Key v -> exists s, v = VStr s) ->
  (forall v, b = Key v -> exists s, v = VStr s) ->
  key_lt a b <> None.
Proof.
  destruct a as [|x], b as [|y]; try done. intros Ha Hb.
  by destruct (Ha x eq_refl) as [s ->], (Hb y eq_refl) as [t ->].
Qed.

Lemma typed_column_comparable c (rows : list row) keyed :
  typed_column c rows ->
  Forall (fun x => snd x ∈ rows /\ order_key_func (Some c) (snd x) = Val (fst x)) keyed ->
  comparable keyed keyed.
Proof.
  intros Ht Hk x y Hx Hy. rewrite Forall_forall in Hk.
  destruct (Hk x Hx) as [Hxr Hxk], (Hk y Hy) as [Hyr Hyk].
  apply order_key_func_val in Hxk, Hyk.
  destruct Ht as [Hn|Hs].
  - apply key_lt_numbers; intros v Hv.
    + rewrite Hv in Hxk. destruct Hxk as [Hl Hne], (Hn _ Hxr) as (v' & Hl' & Hv').
      rewrite Hl in Hl'. injection Hl' as <-. by destruct Hv'.
    + rewrite Hv in Hyk. destruct Hyk as [Hl Hne], (Hn _ Hyr) as (v' & Hl' & Hv').
      rewrite Hl in Hl'. injection Hl' as <-. by destruct Hv'.
  - apply key_lt_texts; intros v Hv.
    + rewrite Hv in Hxk. destruct Hxk as [Hl Hne], (Hs _ Hxr) as (v' & Hl' & Hv').
      rewrite Hl in Hl'. injection Hl' as <-. by destruct Hv'.
    + rewrite Hv in Hyk. destruct Hyk as [Hl Hne], (Hs _ Hyr) as (v' & Hl' & Hv').
      rewrite Hl in Hl'. injection Hl' as <-. by destruct Hv'.
Qed.

(** On a typed column the sort succeeds and puts the rows whose value is null
    before the others, or after them when the order is reversed. *)
Lemma list_sort_typed c reverse (rows : list row) :
  typed_column c rows ->
  exists nulls others,
    list_sort (order_key_func (Some c)) reverse rows
    = Val (if reverse then others ++ nulls else nulls ++ others) /\
    Forall (null_at c) nulls /\ Forall (value_at c) others.
Proof.
  intros Ht. unfold list_sort.
  destruct (compute_keys_total (order_key_func (Some c)) rows) as [keyed Hk].
  { apply Forall_forall. intros r Hr.
    assert (exists v, r !! c = Some v) as [v Hv].
    { destruct Ht as [H|H]; destruct (H r Hr) as (v & ? & _); eauto. }
    unfold order_key_func. rewrite Hv. destruct v; eauto. }
  rewrite Hk. simpl. apply compute_keys_val in Hk as [Hrows Hkeys].
  set (input := if reverse then rev keyed else keyed).
  assert (input ≡ₚ keyed) as Hperm.
  { subst input. destruct reverse; [by rewrite <- Permutation_rev|done]. }
  assert (Forall (fun x => snd x ∈ rows /\ order_key_func (Some c) (snd x) = Val (fst x))
            keyed) as Hinv.
  { rewrite Forall_forall in Hkeys |- *. intros x Hx. split; [|by apply Hkeys].
    rewrite <- Hrows. apply list_elem_of_fmap. eauto. }
  destruct (sort_keyed_sorted [] input) as (out & Hout & Hsorted); [|constructor|].
  { simpl. eapply typed_column_comparable; [done|]. by rewrite Hperm. }
  rewrite Hout. simpl.
  apply sort_keyed_perm in Hout. simpl in Hout.
  assert (Forall (fun x => order_key_func (Some c) (snd x) = Val (fst x)) out) as Hinv'.
  { rewrite <- Hout, Hperm. eapply Forall_impl; [exact Hinv|]. by intros x [_ ?]. }
  destruct (sorted_by_rank_split out Hsorted) as (mins & others & -> & Hmins & Hothers).
  apply Forall_app in Hinv' as [Hi1 Hi2].
  assert (Forall (null_at c) (map snd mins)) as Hnulls.
  { apply Forall_fmap. rewrite Forall_forall in Hmins, Hi1 |- *. intros x Hx. simpl.
    pose proof (order_key_func_val c _ _ (Hi1 x Hx)) as Hv. by rewrite (Hmins x Hx) in Hv. }
  assert (Forall (value_at c) (map snd others)) as Hvals.
  { apply Forall_fmap. rewrite Forall_forall in Hothers, Hi2 |- *. intros x Hx. simpl.
    pose proof (order_key_func_val c _ _ (Hi2 x Hx)) as Hv.
    destruct (fst x) as [|v] eqn:Hfx; [by destruct (Hothers x Hx)|]. by exists v. }
  destruct reverse.
  - exists (map snd (rev mins)), (map snd (rev others)).
    rewrite rev_app_distr, map_app. split; [done|].
    rewrite !map_rev. split; apply Forall_forall; intros r Hr;
      apply list_elem_of_In, in_rev, list_elem_of_In in Hr;
      [by eapply (proj1 (Forall_forall _ _) Hnulls)|by eapply (proj1 (Forall_forall _ _) Hvals)].
  - exists (map snd mins), (map snd others). by rewrite map_app.
Qed.

Lemma sorted_rows_skip data args :
  (exists r, r ∈ filtered_rows data args /\
             order_key_func (MultiDict.get "_sort" args) r = Exn KeyError) ->
  sorted_rows data args = Val (filtered_rows data args).
Proof.
  intros (r & Hr & Hk). unfold sorted_rows, list_sort.
  rewrite (compute_keys_fails _ _ r Hr Hk); [done|].
  intros r' e. apply order_key_func_exn.
Qed.

Lemma sorted_rows_unsorted data args :
  MultiDict.get "_sort" args = None ->
  sorted_rows data args = Val (filtered_rows data args).
Proof.
  intros Hs. destruct (filtered_rows data args) as [|r rows] eqn:Hf.
  - unfold sorted_rows. rewrite Hf. by destruct (sort_reverse_of args).
  - rewrite <- Hf. apply sorted_rows_skip. exists r. rewrite Hf, Hs. split; [by left|done].
Qed.

Lemma sorted_rows_perm data args rows :
  sorted_rows data args = Val rows -> filtered_rows data args ≡ₚ rows.
Proof.
  unfold sorted_rows.
  destruct (list_sort _ _ _) as [sorted|e] eqn:Hs.
  - intros [= <-]. by apply list_sort_perm in Hs.
  - destruct e; try done. by intros [= <-].
Qed.

Lemma filter_query_results_no_limit data args :
  limit_of args = None -> filter_query_results data args = sorted_rows data args.
Proof.
  intros Hl. rewrite filter_query_results_stages, Hl.
  destruct (sorted_rows data args) as [rows|]; [|done]. simpl. by rewrite slice_all.
Qed.

(** Nothing but the [TypeError] of a sort over values of different types
    escapes the result shaper. *)
Lemma filter_query_results_exn data args e :
  filter_query_results data args = Exn e -> e = TypeError.
Proof.
  rewrite filter_query_results_stages. unfold sorted_rows.
  destruct (list_sort _ _ _) as [sorted|e'] eqn:Hs; [done|].
  apply list_sort_exn in Hs as [-> | ->]; [done| |apply order_key_func_exn].
  simpl. by intros [= <-].
Qed.

(** C4.  A row whose sort column is null is keyed with the sentinel.  When
    the values of the column are of one type, the sort raises nothing and
    yields the rows with a null value first, or last when the order is
    "desc", followed or preceded by the others; when a row lacks the column,
    the rows keep the order the filter left them in.  Without a limit the
    outcome of the sort is the result.  So the rows [v: null], [v: 5], [v: 2]
    come out as null, 2, 5, and as 5, 2, null when the order is "desc". *)
Theorem sort_with_nulls data args c :
  MultiDict.get "_sort" args = Some c ->
  let rows := filtered_rows data args in
  (forall r, null_at c r -> order_key_func (Some c) r = Val Min) /\
  (typed_column c rows ->
   exists nulls others,
     sorted_rows data args
     = Val (if sort_reverse_of args then others ++ nulls else nulls ++ others) /\
     Forall (null_at c) nulls /\ Forall (value_at c) others /\ rows ≡ₚ nulls ++ others) /\
  ((exists r, r ∈ rows /\ r !! c = None) -> sorted_rows data args = Val rows) /\
  (limit_of args = None -> filter_query_results data args = sorted_rows data args) /\
  filter_query_results [row1 "v" VNone; row1 "v" (VInt 5); row1 "v" (VInt 2)] [("_sort", "v")]
  = Val [row1 "v" VNone; row1 "v" (VInt 2); row1 "v" (VInt 5)] /\
  filter_query_results [row1 "v" VNone; row1 "v" (VInt 5); row1 "v" (VInt 2)]
                       [("_sort", "v"); ("_order", "desc")]
  = Val [row1 "v" (VInt 5); row1 "v" (VInt 2); row1 "v" VNone].
Proof.
  intros Hc rows. split; [apply order_key_func_null|].
  split; [|split; [|split; [apply filter_query_results_no_limit|]]].
  - intros Ht.
    destruct (list_sort_typed c (sort_reverse_of args) rows Ht) as (nulls & others & Hs & Hn & Ho).
    exists nulls, others. unfold sorted_rows. fold rows. rewrite Hc, Hs.
    split; [done|]. split; [done|]. split; [done|].
    apply list_sort_perm in Hs. rewrite Hs.
    destruct (sort_reverse_of args); [apply Permutation_app_comm|done].
  - intros (r & Hr & Hnone). apply sorted_rows_skip. exists r. split; [done|].
    unfold order_key_func. by rewrite Hc, Hnone.
  - split; [exact sort_nulls_asc|exact sort_nulls_desc].
Qed.

Lemma sort_with_nulls_witness :
  exists nulls others,
    filter_query_results [row1 "v" VNone; row1 "v" (VInt 5); row1 "v" (VInt 2)]
                         [("_sort", "v"); ("_order", "desc")]
    = Val (others ++ nulls) /\
    Forall (null_at "v") nulls /\ Forall (value_at "v") others.
Proof.
  destruct (sort_with_nulls [row1 "v" VNone; row1 "v" (VInt 5); row1 "v" (VInt 2)]
              [("_sort", "v"); ("_order", "desc")] "v" eq_refl) as (_ & Htyped & _ & Hlim & _).
  destruct Htyped as (nulls & others & Hs & Hn & Ho & _).
  - left. intros r Hr. vm_compute in Hr.
    repeat (apply elem_of_cons in Hr as [->|Hr]);
      [ exists VNone | exists (VInt 5) | exists (VInt 2) | by apply elem_of_nil in Hr ];
      (split; [vm_compute; reflexivity|]); [by left|right; by eexists|right; by eexists].
  - exists nulls, others. rewrite (Hlim eq_refl), Hs. by repeat split.
Defined.

(** ** Filtering *)

Lemma items_from_spec seen args k v :
  (k, v) ∈ MultiDict.items_from seen args
  <-> existsb (String.eqb k) seen = false /\ MultiDict.get k args = Some v.
Proof.
  revert seen. induction args as [|[k0 v0] rest IH]; intros seen; simpl.
  - split; [by intros ?%elem_of_nil|by intros [_ ?]].
  - destruct (existsb (String.eqb k0) seen) eqn:Hseen.
    + rewrite IH. destruct (String.eqb_spec k0 k) as [->|Hne]; [|done].
      rewrite Hseen. split; by intros [? _].
    + rewrite elem_of_cons, IH. simpl.
      destruct (String.eqb_spec k0 k) as [->|Hne].
      * rewrite String.eqb_refl. simpl. split.
        -- intros [[= ->]|[? _]]; [done|done].
        -- intros [_ [= ->]]. by left.
      * rewrite (proj2 (String.eqb_neq k k0)) by done. simpl. split.
        -- intros [[= ? ?]|?]; [done|done].
        -- intros ?. by right.
Qed.

Lemma items_spec args k v :
  (k, v) ∈ MultiDict.items args <-> MultiDict.get k args = Some v.
Proof. unfold MultiDict.items. rewrite items_from_spec. simpl. naive_solver. Qed.

Lemma elem_of_filter_criteria args k v :
  (k, v) ∈ filter_criteria_of args
  <-> MultiDict.get k args = Some v /\ startswith "_" k = false.
Proof.
  unfold filter_criteria_of. rewrite list_elem_of_In, filter_In, <- list_elem_of_In, items_spec.
  cbn [fst]. by rewrite negb_true_iff.
Qed.

Lemma filter_func_spec args r :
  filter_func (filter_criteria_of args) r = true <-> row_matches args r.
Proof.
  unfold filter_func, row_matches. rewrite forallb_forall. split.
  - intros Hall k v x Hget Hk Hx.
    assert (In (k, v) (filter_criteria_of args)) as Hin
        by by apply list_elem_of_In, elem_of_filter_criteria.
    apply Hall in Hin. cbv beta iota in Hin. rewrite Hx in Hin. by apply String.eqb_eq.
  - intros Hm [k v] [Hget Hk]%list_elem_of_In%elem_of_filter_criteria.
    destruct (r !! k) as [x|] eqn:Hx; [|done].
    apply String.eqb_eq. by eapply Hm.
Qed.

Lemma elem_of_filtered_rows data args r :
  r ∈ filtered_rows data args <-> r ∈ data /\ row_matches args r.
Proof.
  unfold filtered_rows. rewrite !list_elem_of_In, filter_In, filter_func_spec. done.
Qed.

Lemma filtered_rows_sublist data args : filtered_rows data args `sublist_of` data.
Proof.
  unfold filtered_rows. induction data as [|r data IH]; simpl; [done|].
  destruct (filter_func _ r); by constructor.
Qed.

Lemma slice_subseteq {A} (l : list A) lo hi : Py.slice l lo hi ⊆ l.
Proof. unfold Py.slice. etrans; [apply subseteq_take|apply subseteq_drop]. Qed.

(** C6.  The filter keeps the rows that pass the filters of the query string
    and no others, in the order they had; the sort only rearranges them and
    paging only drops some, so every row of a result is a row of the data
    that passes the filters; and without a sort column and a limit the result
    is the filtered rows themselves. *)
Theorem filter_spec data args :
  (forall r, filter_func (filter_criteria_of args) r = true <-> row_matches args r) /\
  (forall r, r ∈ filtered_rows data args <-> r ∈ data /\ row_matches args r) /\
  filtered_rows data args `sublist_of` data /\
  (forall r, r ∈ data ->
             length (List.filter (fun x => bool_decide (x = r)) (filtered_rows data args))
             = if filter_func (filter_criteria_of args) r
               then length (List.filter (fun x => bool_decide (x = r)) data) else 0) /\
  (forall out, filter_query_results data args = Val out ->
               forall r, r ∈ out -> r ∈ data /\ row_matches args r) /\
  (MultiDict.get "_sort" args = None -> limit_of args = None ->
   filter_query_results data args = Val (filtered_rows data args)).
Proof.
  split; [intros r; apply filter_func_spec|].
  split; [intros r; apply elem_of_filtered_rows|].
  split; [apply filtered_rows_sublist|].
  split; [|split].
  - intros r _. unfold filtered_rows. induction data as [|x data IH]; simpl.
    + by destruct (filter_func _ r).
    + destruct (filter_func (filter_criteria_of args) x) eqn:Hx; simpl.
      * destruct (bool_decide_reflect (x = r)) as [->|Hne]; simpl; [|done].
        rewrite Hx in *. by rewrite IH.
      * destruct (bool_decide_reflect (x = r)) as [->|Hne]; simpl; [|done].
        by rewrite Hx in *.
  - intros out Hout r Hr. rewrite filter_query_results_stages in Hout.
    destruct (sorted_rows data args) as [rows|] eqn:Hs; [|done].
    simpl in Hout. injection Hout as <-.
    apply slice_subseteq in Hr. apply sorted_rows_perm in Hs.
    rewrite <- Hs in Hr. by apply elem_of_filtered_rows.
  - intros Hs Hl. by rewrite filter_query_results_no_limit, sorted_rows_unsorted.
Qed.

Lemma filter_spec_witness :
  filter_query_results [row1 "name" (VStr "Bob"); row1 "name" (VStr "Al"); row1 "age" (VInt 3)]
                       [("name", "bob"); ("_unused", "x")]
  = Val [row1 "name" (VStr "Bob"); row1 "age" (VInt 3)].
Proof.
  destruct (filter_spec [row1 "name" (VStr "Bob"); row1 "name" (VStr "Al"); row1 "age" (VInt 3)]
              [("name", "bob"); ("_unused", "x")]) as (_ & _ & _ & _ & _ & H).
  rewrite H; [vm_compute; reflexivity|reflexivity|reflexivity].
Defined.

(** * Further properties of the module *)

(** ** What the extractor returns *)

Lemma take_word_nonempty s : starts_word s = true -> take_word s <> "".
Proof. destruct s as [|c s]; [done|]. simpl. by intros ->. Qed.

Lemma startswith_app p t : startswith p (p +:+ t) = true.
Proof.
  induction p as [|c p IH]; [by destruct t|]. rewrite str_app_cons.
  change (startswith (String c p) (String c (p +:+ t)))
    with (Ascii.eqb c c && startswith p (p +:+ t)).
  by rewrite Ascii.eqb_refl, IH.
Qed.

Lemma contains_cons p c s : contains p s = true -> contains p (String c s) = true.
Proof.
  intros H. change (contains p (String c s)) with (startswith p (String c s) || contains p s).
  rewrite H. apply orb_true_r.
Qed.

Lemma contains_startswith p s : startswith p s = true -> contains p s = true.
Proof. intros H. destruct s; simpl; by rewrite H. Qed.

Lemma contains_app_r p u t : contains p t = true -> contains p (u +:+ t) = true.
Proof.
  intros H. induction u as [|c u IH]; [done|]. rewrite str_app_cons. by apply contains_cons.
Qed.

Lemma findall_params_shape s :
  Forall (fun m => exists p, m = String "$" p /\ p <> "" /\ all_word p = true /\
                             contains m s = true)
         (findall_params s).
Proof.
  funelim (findall_params s); [constructor|].
  destruct (Ascii.eqb c "$" && starts_word s')%bool eqn:Hm.
  - apply andb_prop in Hm as [->%Ascii.eqb_eq Hw]. constructor.
    + exists (take_word s'). split; [done|]. split; [by apply take_word_nonempty|].
      split; [apply all_word_take_word|]. apply contains_startswith.
      rewrite <- (take_drop_word s') at 2.
      change (String "$" (take_word s' +:+ drop_word s'))
        with (String "$" (take_word s') +:+ drop_word s').
      apply startswith_app.
    + eapply Forall_impl; [exact H|]. intros m (p & -> & Hne & Hall & Hc).
      exists p. repeat split; try done. apply contains_cons.
      rewrite <- (take_drop_word s'). by apply contains_app_r.
  - eapply Forall_impl; [exact H0|]. intros m (p & -> & Hne & Hall & Hc).
    exists p. repeat split; try done. by apply contains_cons.
Qed.

(** X1.  Every name [extract_params] returns is a non-empty run of word
    characters, and it stands in the string right after a dollar sign. *)
Theorem extract_params_names s p :
  p ∈ extract_params s ->
  p <> "" /\ all_word p = true /\ contains ("$" +:+ p) s = true.
Proof.
  unfold extract_params. intros (m & -> & Hm)%list_elem_of_fmap.
  pose proof (findall_params_shape s) as Hall. rewrite Forall_forall in Hall.
  by destruct (Hall m Hm) as (p & -> & ? & ? & ?).
Qed.

Lemma extract_params_names_witness :
  contains "$id" "SELECT * FROM t WHERE id = $id" = true.
Proof.
  refine (proj2 (proj2 (extract_params_names "SELECT * FROM t WHERE id = $id" "id" _))).
  vm_compute. apply list_elem_of_here.
Defined.

Lemma findall_params_nil_cons c s :
  findall_params (String c s) = [] ->
  (Ascii.eqb c "$" && starts_word s)%bool = false /\ findall_params s = [].
Proof.
  rewrite findall_params_cons. by destruct (Ascii.eqb c "$" && starts_word s)%bool.
Qed.

Lemma flaskify_url_fixed s : findall_params s = [] -> flaskify_url s = s.
Proof.
  induction s as [|c s IH]; [done|]. intros [Hm Hs]%findall_params_nil_cons.
  by rewrite flaskify_url_cons, Hm, IH.
Qed.

Lemma extract_params_nil s : extract_params s = [] <-> findall_params s = [].
Proof. unfold extract_params. split; [apply map_eq_nil|by intros ->]. Qed.

(** X2.  [flaskify_url] leaves a route unchanged exactly when the route has
    no parameter, and translating a translated route changes nothing. *)
Theorem flaskify_url_idempotent route :
  (flaskify_url route = route <-> extract_params route = []) /\
  flaskify_url (flaskify_url route) = flaskify_url route.
Proof.
  split; [split|].
  - intros H. apply extract_params_nil. rewrite <- H. apply findall_params_flaskify.
  - intros H. by apply flaskify_url_fixed, extract_params_nil.
  - apply flaskify_url_fixed, findall_params_flaskify.
Qed.

(** ** What a registration leaves behind *)

Lemma registration_notes_no_error get_sql_op route method sql auth_required l :
  Forall (fun n => fst n <> ERROR) (registration_notes get_sql_op route method sql auth_required l).
Proof.
  unfold registration_notes, logged_id_notes, verb_notes.
  apply Forall_app_2; [|apply Forall_app_2; [|apply Forall_app_2]].
  - by repeat constructor.
  - destruct (_ && _); by repeat constructor.
  - destruct (OP_VERBS _) as [cv|]; [|constructor]. destruct (String.eqb _ _); by repeat constructor.
  - eapply Forall_impl; [apply roles_notes_warnings|]. by intros n ->.
Qed.

(** The three ways a registration can go. *)
Lemma setup_endpoint_cases settings get_sql_op route method sql auth_required allowed_roles
    description request_body_params w :
  let run := setup_endpoint settings get_sql_op route method sql auth_required allowed_roles
               description request_body_params w in
  let early := [(DEBUG, MsgSettingUp method route)] ++
               logged_id_notes sql auth_required method route in
  (get_sql_op sql = OTHER /\
   run = (Exn (SystemExit 1), add_logs (early ++ [(ERROR, MsgUnsupportedQuery sql route)]) w)) \/
  (get_sql_op sql <> OTHER /\ exists v, allowed_roles = Scalar v /\
   run = (Exn (SystemExit 1),
          add_logs (early ++ verb_notes (get_sql_op sql) method route ++
                    [(ERROR, MsgRolesNotList (Scalar v) method route)]) w)) \/
  (get_sql_op sql <> OTHER /\ exists l, allowed_roles = PyList l /\
   let missing := missing_params (extract_params sql)
                    (declared_sources (get_sql_op sql) route request_body_params) in
   let notes := early ++ verb_notes (get_sql_op sql) method route ++
                roles_notes auth_required l method route in
   (missing <> ∅ /\
    run = (Exn (SystemExit 1), add_logs (notes ++ [(ERROR, MsgParamsMissing route missing)]) w)) \/
   (missing = ∅ /\
    run = (Val tt,
           {| logs := logs w ++ notes;
              url_map := url_map w ++ [installed_rule settings (get_sql_op sql) route method sql
                                         auth_required (PyList l) request_body_params];
              api_summary := api_summary w ++ [{| sum_route := full_route_of settings route;
                                                  sum_method := method;
                                                  sum_description := description |}];
              dal_calls := dal_calls w |}))).
Proof.
  cbv zeta. destruct (decide (get_sql_op sql = OTHER)) as [Hop|Hop].
  - left. split; [done|]. by rewrite setup_endpoint_unsupported, <- app_assoc.
  - right. destruct allowed_roles as [v|l].
    + left. split; [done|]. exists v. split; [done|].
      by rewrite setup_endpoint_roles_not_list, <- !app_assoc.
    + right. split; [done|]. exists l. split; [done|].
      rewrite (setup_endpoint_run settings get_sql_op) by done.
      unfold registration_notes. rewrite <- !app_assoc.
      destruct (decide _) as [He|Hne]; [right|left]; done.
Qed.

(** X3.  A registration either succeeds, and then adds exactly one rule to
    the route table and one entry to the summary, the rule without any
    parameter left in its pattern and the log without an error record; or it
    ends the process with status 1, the last record of the log being an
    error, and leaves route table and summary as they were.  It raises
    nothing else, keeps the earlier records of the log and touches no data. *)
Theorem setup_endpoint_atomic settings get_sql_op route method sql auth_required allowed_roles
    description request_body_params w :
  let run := setup_endpoint settings get_sql_op route method sql auth_required allowed_roles
               description request_body_params w in
  dal_calls (snd run) = dal_calls w /\
  exists notes,
    logs (snd run) = logs w ++ notes /\
    ((fst run = Val tt /\
      (exists r, url_map (snd run) = url_map w ++ [r] /\ extract_params (rule r) = [] /\
                 methods r = [method] /\ rule_endpoint r = method +:+ route) /\
      (exists e, api_summary (snd run) = api_summary w ++ [e]) /\
      Forall (fun n => fst n <> ERROR) notes) \/
     (fst run = Exn (SystemExit 1) /\
      url_map (snd run) = url_map w /\ api_summary (snd run) = api_summary w /\
      exists msg, last notes = Some (ERROR, msg))).
Proof.
  cbv zeta.
  destruct (setup_endpoint_cases settings get_sql_op route method sql auth_required
              allowed_roles description request_body_params w)
    as [[_ ->]|[(_ & v & _ & ->)|(_ & l & -> & [[_ ->]|[_ ->]])]];
    cbn [fst snd add_logs logs url_map api_summary dal_calls]; (split; [done|]).
  - eexists. split; [done|]. right. repeat split; try done. rewrite last_snoc. eauto.
  - eexists. split; [done|]. right. repeat split; try done.
    rewrite !app_assoc, last_snoc. eauto.
  - eexists. split; [done|]. right. repeat split; try done. rewrite last_snoc. eauto.
  - eexists. split; [done|]. left. split; [done|]. split; [|split; [eauto|]].
    + eexists. split; [done|]. cbn [rule methods rule_endpoint installed_rule].
      split; [|done]. apply extract_params_nil, findall_params_flaskify.
    + pose proof (registration_notes_no_error get_sql_op route method sql auth_required l) as H.
      unfold registration_notes in H. by rewrite <- !app_assoc.
Qed.

Lemma elem_of_logged_id_notes sql auth_required method route n :
  n ∈ logged_id_notes sql auth_required method route <->
  n = (WARNING, MsgLoggedIdNoAuth method route) /\
  contains "$loggedId" sql = true /\ auth_required = false.
Proof.
  unfold logged_id_notes. destruct (contains "$loggedId" sql), auth_required; simpl;
    rewrite ?list_elem_of_singleton; try (split; [by intros ?%elem_of_nil|by intros (_ & ? & ?)]).
  naive_solver.
Qed.

Lemma extract_params_contains s p : p ∈ extract_params s -> contains ("$" +:+ p) s = true.
Proof.
  unfold extract_params. intros (m & -> & Hm)%list_elem_of_fmap.
  pose proof (findall_params_shape s) as Hall. rewrite Forall_forall in Hall.
  by destruct (Hall m Hm) as (p & -> & _ & _ & ?).
Qed.

(** X4.  Whatever becomes of a registration, it adds the warning that the
    identity of the caller may be null exactly when the query contains
    [$loggedId] and authentication is not required; in particular it does so
    for every query that has [loggedId] among its parameters when
    authentication is not required. *)
Theorem logged_id_warning settings get_sql_op route method sql auth_required allowed_roles
    description request_body_params w :
  let run := setup_endpoint settings get_sql_op route method sql auth_required allowed_roles
               description request_body_params w in
  let warning := (WARNING, MsgLoggedIdNoAuth method route) in
  (warning ∈ logs (snd run) <->
   warning ∈ logs w \/ (contains "$loggedId" sql = true /\ auth_required = false)) /\
  ("loggedId" ∈ extract_params sql -> auth_required = false -> warning ∈ logs (snd run)).
Proof.
  cbv zeta.
  assert ((WARNING, MsgLoggedIdNoAuth method route)
            ∈ logs (snd (setup_endpoint settings get_sql_op route method sql auth_required
                           allowed_roles description request_body_params w))
          <-> (WARNING, MsgLoggedIdNoAuth method route) ∈ logs w \/
              (contains "$loggedId" sql = true /\ auth_required = false)) as Hiff.
  { assert (forall l, (WARNING, MsgLoggedIdNoAuth method route) ∈ roles_notes auth_required l method route
                      -> False) as Hroles.
    { intros l. unfold roles_notes. rewrite elem_of_app.
      destruct (_ && _ && _), (_ && _); rewrite ?list_elem_of_singleton;
        intros [H|H]; try done; by apply elem_of_nil in H. }
    assert ((WARNING, MsgLoggedIdNoAuth method route)
              ∈ verb_notes (get_sql_op sql) method route -> False) as Hverb.
    { unfold verb_notes. destruct (OP_VERBS _); [|by intros ?%elem_of_nil].
      destruct (String.eqb _ _); [by intros ?%elem_of_nil|].
      by intros ?%list_elem_of_singleton. }
    destruct (setup_endpoint_cases settings get_sql_op route method sql auth_required
                allowed_roles description request_body_params w)
      as [[_ ->]|[(_ & v & _ & ->)|(_ & l & -> & [[_ ->]|[_ ->]])]];
      cbn [fst snd add_logs logs]; rewrite !elem_of_app, ?elem_of_logged_id_notes,
        ?list_elem_of_singleton; naive_solver. }
  split; [exact Hiff|]. intros Hp Ha. apply Hiff. right. split; [|done].
  by apply (extract_params_contains sql "loggedId").
Qed.

Lemma logged_id_warning_witness :
  (WARNING, MsgLoggedIdNoAuth "get" "/mine")
    ∈ logs (snd (Demo.setup "/mine" "get" "SELECT * FROM posts WHERE owner = $loggedId" false
                   (PyList [VStr "*"]) None [] Demo.w0)).
Proof.
  refine (proj2 (logged_id_warning Demo.settings SqlModel.get_sql_op "/mine" "get"
                   "SELECT * FROM posts WHERE owner = $loggedId" false (PyList [VStr "*"]) None []
                   Demo.w0) _ eq_refl).
  vm_compute. apply list_elem_of_here.
Defined.

Lemma endswith_slash_snoc p : endswith_slash (p +:+ "/") = true.
Proof.
  induction p as [|c p IH]; [done|]. rewrite str_app_cons.
  change (endswith_slash (String c (p +:+ "/")))
    with (match p +:+ "/" with EmptyString => Ascii.eqb c "/" | _ => endswith_slash (p +:+ "/") end).
  rewrite IH. by destruct p.
Qed.

Lemma drop_last_snoc p c : drop_last (p +:+ String c "") = p.
Proof.
  induction p as [|d p IH]; [done|]. rewrite str_app_cons.
  change (drop_last (String d (p +:+ String c "")))
    with (match p +:+ String c "" with
          | EmptyString => EmptyString
          | _ => String d (drop_last (p +:+ String c ""))
          end).
  rewrite IH. by destruct p.
Qed.

(** X5.  One slash at the end of the API prefix is dropped before the route
    is appended: under the prefix [p/] an endpoint is registered and
    summarised at [p] followed by its route, as it is under the prefix [p]
    when [p] does not end in a slash. *)
Theorem api_prefix_slash settings get_sql_op route method sql auth_required allowed_roles
    description request_body_params w p :
  let run := setup_endpoint settings get_sql_op route method sql auth_required allowed_roles
               description request_body_params w in
  fst run = Val tt ->
  API_PREFIX settings = p +:+ "/" \/ (API_PREFIX settings = p /\ endswith_slash p = false) ->
  (rule <$> last (url_map (snd run))) = Some (flaskify_url (p +:+ route)) /\
  (sum_route <$> last (api_summary (snd run))) = Some (p +:+ route).
Proof.
  cbv zeta. intros Hok Hp.
  assert (full_route_of settings route = p +:+ route) as Hfull.
  { unfold full_route_of.
    destruct Hp as [-> | [-> ->]]; [|done]. by rewrite endswith_slash_snoc, drop_last_snoc. }
  revert Hok.
  destruct (setup_endpoint_cases settings get_sql_op route method sql auth_required
              allowed_roles description request_body_params w)
    as [[_ ->]|[(_ & v & _ & ->)|(_ & l & -> & [[_ ->]|[_ ->]])]]; try done.
  intros _. cbn [fst snd url_map api_summary]. rewrite !last_snoc.
  cbn [fmap option_fmap option_map rule sum_route installed_rule]. by rewrite Hfull.
Qed.

Lemma api_prefix_slash_witness :
  (rule <$> last (url_map (snd (Demo.setup "/users/$id" "get" "SELECT * FROM users WHERE id = $id"
                                  false (PyList [VStr "*"]) None [] Demo.w0))))
  = Some "/api/users/<id>".
Proof.
  refine (proj1 (api_prefix_slash Demo.settings SqlModel.get_sql_op "/users/$id" "get"
                   "SELECT * FROM users WHERE id = $id" false (PyList [VStr "*"]) None []
                   Demo.w0 "/api" _ _)).
  - vm_compute. reflexivity.
  - left. reflexivity.
Defined.

(** ** Binding the parameters of a request *)

Lemma getitems_val d ks vs :
  getitems d ks = Val vs <-> Forall2 (fun k v => d !! k = Some v) ks vs.
Proof.
  revert vs. induction ks as [|k ks IH]; intros vs; simpl.
  - split; [intros [= <-]; constructor|by intros ->%Forall2_nil_inv_l].
  - unfold getitem. destruct (d !! k) as [v|] eqn:Hk; simpl.
    + destruct (getitems d ks) as [vs'|e] eqn:Hks; simpl.
      * split.
        -- intros [= <-]. constructor; [done|]. by apply IH.
        -- intros (v' & vs'' & Hv & Hvs & ->)%Forall2_cons_inv_l.
           apply IH in Hvs. congruence.
      * split; [done|]. intros (v' & vs'' & Hv & Hvs & ->)%Forall2_cons_inv_l.
        by apply IH in Hvs.
    + split; [done|]. intros (v' & vs'' & Hv & _)%Forall2_cons_inv_l. congruence.
Qed.

Lemma getitems_total d ks :
  Forall (fun k => is_Some (d !! k)) ks -> exists vs, getitems d ks = Val vs.
Proof.
  induction 1 as [|k ks [v Hv] _ [vs Hvs]]; simpl; [by eexists|].
  unfold getitem. rewrite Hv. simpl. rewrite Hvs. simpl. by eexists.
Qed.

Lemma getitems_exn d ks :
  ~ Forall (fun k => is_Some (d !! k)) ks -> getitems d ks = Exn KeyError.
Proof.
  induction ks as [|k ks IH]; intros Hn; [by destruct Hn|]. simpl.
  unfold getitem. destruct (d !! k) as [v|] eqn:Hk; simpl; [|done].
  rewrite IH; [done|]. intros H. apply Hn. constructor; [by rewrite Hk|done].
Qed.

Lemma lookup_foldl_insert (f : string -> value) (d0 : gmap string value) l q :
  foldl (fun d p => <[p := f p]> d) d0 l !! q = if decide (q ∈ l) then Some (f q) else d0 !! q.
Proof.
  revert d0. induction l as [|p l IH]; intros d0; simpl; [done|].
  rewrite IH. destruct (decide (q ∈ l)) as [Hin|Hnin].
  - rewrite decide_True; [done|by right].
  - destruct (decide (q = p)) as [->|Hne].
    + rewrite decide_True by by left. by rewrite lookup_insert_eq.
    + rewrite decide_False by (intros [?|?]%elem_of_cons; done).
      by rewrite lookup_insert_ne.
Qed.

(** The loop that copies the URL parameters into the body parameters. *)
Lemma copy_url_params (dict d0 : gmap string value) l (acc : M (gmap string value)) w :
  acc w = (Val d0, w) ->
  Forall (fun p => is_Some (dict !! p)) l ->
  foldl (fun acc param => d ← acc; v ← lift (getitem dict param); mret (<[param := v]> d)) acc l w
  = (Val (foldl (fun d p => <[p := default VNone (dict !! p)]> d) d0 l), w).
Proof.
  intros Hacc Hall. revert acc d0 Hacc.
  induction Hall as [|p l [v Hv] _ IH]; intros acc d0 Hacc; simpl; [done|].
  apply IH. unfold mbind, M_bind. rewrite Hacc. unfold lift, getitem. by rewrite Hv.
Qed.

Section WriteHandler.

Variable settings : settings_t.
Variable check_token : string -> option user_data.
Variable get_primary_key : string -> option string.
Variable silence_to_mysql : string -> string.
Variable db_query : string -> list value -> res (list row).
Variable db_update : string -> list value -> res value.

Lemma route_handler_after_gate ep req kwargs w dict w1 :
  bound_params settings check_token get_primary_key ep req kwargs w = (Val dict, w1) ->
  route_handler settings check_token get_primary_key silence_to_mysql db_query db_update
    ep req kwargs w =
  (if decide (ep_sql_op ep = SELECT) then
     url_pattern_params ← lift (getitems dict (ep_sql_params ep));
     res ← api_safe_query db_query (silence_to_mysql (ep_sql ep)) url_pattern_params;
     res ← lift (filter_query_results res (args req));
     if RE_QUERY_PARAM_match (ep_route ep) && bool_decide (res = [])
     then raise (HTTPError 404 "Not found")
     else mret (Rows res, 200%Z)
   else
     let form := if is_json req then json req else form req in
     let body_params : gmap string value :=
       foldl (fun d param => <[param := default VNone (form !! param)]> d) ∅
             (ep_request_body_params ep) in
     body_params ←
       foldl (fun acc param =>
                d ← acc; v ← lift (getitem dict param);
                mret (<[param := v]> d))
             (mret body_params) (ep_url_params ep);
     (if DISPLAY_BODY_PARAMS_CLI settings then logger INFO (MsgBodyParams body_params) else pass);;
     param_tuple ← lift (getitems body_params (ep_sql_params ep));
     res ← api_safe_update db_update (silence_to_mysql (ep_sql ep)) param_tuple;
     mret (Written res, 200%Z)) w1.
Proof.
  intros Hb. unfold bound_params in Hb. unfold route_handler.
  unfold mbind at 1, M_bind at 1. unfold mbind at 1, M_bind at 1 in Hb.
  destruct (get_logged_user check_token req w) as [[lud|e] w2]; [|done].
  unfold mbind at 1, M_bind at 1. unfold mbind at 1, M_bind at 1 in Hb.
  set (gate := if ep_auth_required ep
               then check_session settings lud (ep_allowed_roles ep) else pass) in *.
  destruct (gate w2) as [[[]|e] w3]; [|done].
  unfold mbind at 1, M_bind at 1.
  destruct (ep_logged_user ep).
  - unfold mbind at 1, M_bind at 1. unfold mbind at 1, M_bind at 1 in Hb.
    destruct (get_current_user_id settings get_primary_key lud w3) as [[uid|e] w4]; [|done].
    unfold mret, M_ret in Hb |- *. by injection Hb as <- <-.
  - unfold mret, M_ret in Hb |- *. by injection Hb as <- <-.
Qed.

End WriteHandler.

Lemma user_getitem_first d pk pre v post :
  d = pre ++ (pk, v) :: post -> pk ∉ map fst pre -> user_getitem d pk = Val v.
Proof.
  intros -> Hpre. induction pre as [|[k x] pre IH]; simpl.
  - by rewrite String.eqb_refl.
  - simpl in Hpre. apply not_elem_of_cons in Hpre as [Hne Hpre].
    rewrite (proj2 (String.eqb_neq k pk)) by done. by apply IH.
Qed.

Lemma user_getitem_missing d pk : pk ∉ map fst d -> user_getitem d pk = Exn KeyError.
Proof.
  induction d as [|[k x] d IH]; simpl; [done|]. intros [Hne Hd]%not_elem_of_cons.
  rewrite (proj2 (String.eqb_neq k pk)) by done. by apply IH.
Qed.

(** X6.  [get_current_user_id] changes nothing in the server.  It answers
    [None] when there is no identity, and when the table of users has no
    primary key; otherwise it answers the value of the claim whose key is
    exactly the primary key, the first such claim, and raises [KeyError] when
    the identity has no such claim. *)
Theorem get_current_user_id_spec settings get_primary_key identity w :
  let run := get_current_user_id settings get_primary_key identity w in
  let pk := get_primary_key (USER_AUTH_DATA_table settings) in
  snd run = w /\
  (identity = None -> fst run = Val VNone) /\
  (pk = None \/ pk = Some "" -> fst run = Val VNone) /\
  (forall d k, identity = Some d -> pk = Some k -> k <> "" ->
               (forall pre v post, d = pre ++ (k, v) :: post -> k ∉ map fst pre ->
                                   fst run = Val v) /\
               (k ∉ map fst d -> fst run = Exn KeyError)).
Proof.
  cbv zeta. unfold get_current_user_id. split; [|split; [|split]].
  - destruct identity as [d|]; [|done].
    by destruct (Py.truthy_str _); [unfold lift|].
  - by intros ->.
  - intros Hpk. destruct identity as [d|]; [|done].
    by destruct Hpk as [-> | ->].
  - intros d k -> -> Hk. destruct k as [|c k]; [done|]. simpl. unfold lift. split.
    + intros pre v post Hd Hpre. simpl. by rewrite (user_getitem_first d _ pre v post).
    + intros Hmiss. simpl. by rewrite user_getitem_missing.
Qed.

Lemma get_current_user_id_spec_witness :
  fst (get_current_user_id Demo.settings Demo.get_primary_key
         (Some [("name", VStr "bob"); ("id", VInt 2)]) Demo.w0) = Val (VInt 2) /\
  fst (get_current_user_id Demo.settings Demo.get_primary_key
         (Some [("ID", VInt 2)]) Demo.w0) = Exn KeyError.
Proof.
  split.
  - destruct (get_current_user_id_spec Demo.settings Demo.get_primary_key
                (Some [("name", VStr "bob"); ("id", VInt 2)]) Demo.w0) as (_ & _ & _ & H).
    destruct (H [("name", VStr "bob"); ("id", VInt 2)] "id" eq_refl eq_refl ltac:(discriminate))
      as [Hval _].
    apply (Hval [("name", VStr "bob")] (VInt 2) [] eq_refl).
    intros Hin. apply list_elem_of_singleton in Hin. discriminate Hin.
  - destruct (get_current_user_id_spec Demo.settings Demo.get_primary_key
                (Some [("ID", VInt 2)]) Demo.w0) as (_ & _ & _ & H).
    destruct (H [("ID", VInt 2)] "id" eq_refl eq_refl ltac:(discriminate)) as [_ Hmiss].
    apply Hmiss. intros Hin. apply list_elem_of_singleton in Hin. discriminate Hin.
Defined.

Section Binding.

Variable settings : settings_t.
Variable check_token : string -> option user_data.
Variable get_primary_key : string -> option string.
Variable silence_to_mysql : string -> string.
Variable db_query : string -> list value -> res (list row).
Variable db_update : string -> list value -> res value.

Lemma bound_params_result ep req kwargs w dict w1 :
  bound_params settings check_token get_primary_key ep req kwargs w = (Val dict, w1) ->
  if ep_logged_user ep then exists uid, dict = <["loggedId" := uid]> kwargs else dict = kwargs.
Proof.
  unfold bound_params. unfold mbind, M_bind.
  destruct (get_logged_user check_token req w) as [[lud|e] w2]; [|done].
  set (gate := if ep_auth_required ep
               then check_session settings lud (ep_allowed_roles ep) else pass).
  destruct (gate w2) as [[[]|e] w3]; [|done].
  destruct (ep_logged_user ep).
  - destruct (get_current_user_id settings get_primary_key lud w3) as [[uid|e] w4]; [|done].
    unfold mret, M_ret. intros [= <- <-]. eauto.
  - unfold mret, M_ret. by intros [= <- <-].
Qed.

Lemma route_handler_select_run ep req kwargs w dict w1 params :
  ep_sql_op ep = SELECT ->
  bound_params settings check_token get_primary_key ep req kwargs w = (Val dict, w1) ->
  getitems dict (ep_sql_params ep) = Val params ->
  route_handler settings check_token get_primary_key silence_to_mysql db_query db_update
    ep req kwargs w =
  (rows ← db_query (silence_to_mysql (ep_sql ep)) params;
   filtered ← filter_query_results rows (args req);
   if RE_QUERY_PARAM_match (ep_route ep) && bool_decide (filtered = [])
   then Exn (HTTPError 404 "Not found") else Val (Rows filtered, 200%Z),
   record_query (silence_to_mysql (ep_sql ep)) params w1).
Proof.
  intros Hop Hb Hp.
  rewrite (route_handler_after_gate settings check_token get_primary_key silence_to_mysql
             db_query db_update ep req kwargs w dict w1 Hb).
  rewrite decide_True by done.
  unfold mbind, M_bind, lift, api_safe_query, record_call, mbind, M_bind, lift.
  rewrite Hp. fold (record_query (silence_to_mysql (ep_sql ep)) params w1).
  destruct (db_query _ _) as [rows|e]; [|done]. simpl.
  destruct (filter_query_results rows (args req)) as [filtered|e]; [|done]. simpl.
  by destruct (_ && _).
Qed.

Lemma route_handler_select_unbound ep req kwargs w dict w1 :
  ep_sql_op ep = SELECT ->
  bound_params settings check_token get_primary_key ep req kwargs w = (Val dict, w1) ->
  ~ Forall (fun p => is_Some (dict !! p)) (ep_sql_params ep) ->
  route_handler settings check_token get_primary_key silence_to_mysql db_query db_update
    ep req kwargs w = (Exn KeyError, w1).
Proof.
  intros Hop Hb Hp.
  rewrite (route_handler_after_gate settings check_token get_primary_key silence_to_mysql
             db_query db_update ep req kwargs w dict w1 Hb).
  rewrite decide_True by done.
  unfold mbind at 1, M_bind at 1, lift. by rewrite getitems_exn.
Qed.

Lemma route_handler_write_eq ep req kwargs w dict w1 :
  ep_sql_op ep <> SELECT ->
  bound_params settings check_token get_primary_key ep req kwargs w = (Val dict, w1) ->
  Forall (fun p => is_Some (dict !! p)) (ep_url_params ep) ->
  exists (body : gmap string value) w2,
    (forall q, body !! q = write_source ep req dict q) /\
    dal_calls w2 = dal_calls w1 /\
    route_handler settings check_token get_primary_key silence_to_mysql db_query db_update
      ep req kwargs w =
    match getitems body (ep_sql_params ep) with
    | Val params =>
        (r ← db_update (silence_to_mysql (ep_sql ep)) params; Val (Written r, 200%Z),
         record_update (silence_to_mysql (ep_sql ep)) params w2)
    | Exn e => (Exn e, w2)
    end.
Proof.
  intros Hop Hb Hurl.
  rewrite (route_handler_after_gate settings check_token get_primary_key silence_to_mysql
             db_query db_update ep req kwargs w dict w1 Hb).
  rewrite decide_False by done. cbv zeta.
  set (form := if is_json req then json req else form req).
  set (body0 := foldl (fun d param => <[param := default VNone (form !! param)]> d) ∅
                      (ep_request_body_params ep)).
  unfold mbind at 1, M_bind at 1.
  rewrite (copy_url_params dict body0 (ep_url_params ep) (mret body0) w1 eq_refl Hurl).
  set (body := foldl (fun d p => <[p := default VNone (dict !! p)]> d) body0 (ep_url_params ep)).
  assert (forall q, body !! q = write_source ep req dict q) as Hbody.
  { intros q. unfold body, body0, write_source.
    rewrite (lookup_foldl_insert (fun p => default VNone (dict !! p))).
    destruct (decide (q ∈ ep_url_params ep)) as [Hin|_].
    - rewrite Forall_forall in Hurl. by destruct (Hurl q Hin) as [v ->].
    - rewrite (lookup_foldl_insert (fun p => default VNone (form !! p))).
      by destruct (decide (q ∈ ep_request_body_params ep)). }
  unfold mbind at 1, M_bind at 1.
  set (shown := (if DISPLAY_BODY_PARAMS_CLI settings then logger INFO (MsgBodyParams body)
                 else pass) w1).
  assert (exists w2, shown = (Val tt, w2) /\ dal_calls w2 = dal_calls w1) as (w2 & -> & Hw2).
  { subst shown. destruct (DISPLAY_BODY_PARAMS_CLI settings); eexists; by split. }
  exists body, w2. split; [done|]. split; [done|].
  unfold mbind at 1, M_bind at 1, lift.
  destruct (getitems body (ep_sql_params ep)) as [params|e]; [|done].
  unfold api_safe_update, mbind, M_bind, record_call, lift.
  fold (record_update (silence_to_mysql (ep_sql ep)) params w2).
  by destruct (db_update _ _).
Qed.

End Binding.

(** X7.  The handler of a SELECT endpoint that passed the parameter check of
    the registration binds its parameters without fail: for a request that
    passes the gate and carries a value for every parameter of the route, it
    runs exactly one query, on the translated statement, with one value for
    each placeholder of the query in the order of the placeholders, a repeated
    placeholder getting its value each time; the values are those of the URL,
    and the identity of the caller for [loggedId]. *)
Theorem registered_select_binds
    settings check_token get_primary_key silence_to_mysql db_query db_update get_sql_op
    route method sql auth_required allowed_roles request_body_params req kwargs w dict w1 :
  let ep := view_func (installed_rule settings (get_sql_op sql) route method sql auth_required
                         allowed_roles request_body_params) in
  let run := route_handler settings check_token get_primary_key silence_to_mysql db_query
               db_update ep req kwargs w in
  get_sql_op sql = SELECT ->
  covered (extract_params sql) (extract_params route) ->
  (forall p, p ∈ extract_params route -> is_Some (kwargs !! p)) ->
  bound_params settings check_token get_primary_key ep req kwargs w = (Val dict, w1) ->
  exists params,
    Forall2 (fun p v => dict !! p = Some v) (extract_params sql) params /\
    (forall p, p <> "loggedId" -> dict !! p = kwargs !! p) /\
    dal_calls (snd run) = dal_calls w1 ++ [SafeQuery (silence_to_mysql sql) params] /\
    fst run = (rows ← db_query (silence_to_mysql sql) params;
               filtered ← filter_query_results rows (args req);
               if RE_QUERY_PARAM_match route && bool_decide (filtered = [])
               then Exn (HTTPError 404 "Not found") else Val (Rows filtered, 200%Z)).
Proof.
  cbv zeta. intros Hop Hcov Hkw Hb.
  pose proof (bound_params_result settings check_token get_primary_key _ _ _ _ _ _ Hb) as Hd.
  cbn [view_func installed_rule ep_logged_user] in Hd.
  assert (forall p, p <> "loggedId" -> dict !! p = kwargs !! p) as Hsame.
  { intros p Hp. destruct (contains "$loggedId" sql); [|by rewrite Hd].
    destruct Hd as [uid ->]. by rewrite lookup_insert_ne. }
  assert (Forall (fun p => is_Some (dict !! p)) (extract_params sql)) as Hall.
  { apply Forall_forall. intros p Hp. destruct (decide (p = "loggedId")) as [->|Hne].
    - apply extract_params_contains in Hp. rewrite str_app_cons, str_app_nil_l in Hp.
      rewrite Hp in Hd. destruct Hd as [uid ->]. by rewrite lookup_insert_eq.
    - rewrite Hsame by done. by apply Hkw, Hcov. }
  destruct (getitems_total dict (extract_params sql) Hall) as [params Hparams].
  exists params. split; [by apply getitems_val|]. split; [done|].
  rewrite (route_handler_select_run settings check_token get_primary_key silence_to_mysql
             db_query db_update
             (view_func (installed_rule settings (get_sql_op sql) route method sql auth_required
                           allowed_roles request_body_params))
             req kwargs w dict w1 params Hop Hb Hparams).
  by cbn [fst snd record_query dal_calls view_func installed_rule ep_sql ep_route].
Qed.

Lemma registered_select_binds_witness :
  dal_calls (snd (Demo.handler DemoRoutes.user_by_id DemoRoutes.no_token DemoRoutes.id7 Demo.w0))
  = [SafeQuery "SELECT * FROM users WHERE id = $id" [VInt 7]].
Proof.
  destruct (registered_select_binds Demo.settings Demo.check_token Demo.get_primary_key
              Demo.silence_to_mysql Demo.db_query Demo.db_update SqlModel.get_sql_op
              "/users/$id" "get" "SELECT * FROM users WHERE id = $id" false (PyList [VStr "*"]) []
              DemoRoutes.no_token DemoRoutes.id7 Demo.w0 DemoRoutes.id7 Demo.w0)
    as (params & Hp & _ & Hcalls & _).
  - reflexivity.
  - apply coveredb_true. vm_compute. reflexivity.
  - intros p Hp. vm_compute in Hp. apply elem_of_cons in Hp as [->|Hp]; [by eexists|].
    by apply elem_of_nil in Hp.
  - vm_compute. reflexivity.
  - apply Forall2_cons_inv_l in Hp as (v & vs & Hv & Hvs & ->).
    apply Forall2_nil_inv_l in Hvs as ->. vm_compute in Hv. injection Hv as <-.
    exact Hcalls.
Defined.

(** X8.  An endpoint that uses [$loggedId] without requiring authentication
    serves a request without a valid token with [loggedId] bound to [None],
    the other parameters as the URL gives them; a SELECT then runs its query
    with that null. *)
Theorem anonymous_logged_id_is_none
    settings check_token get_primary_key silence_to_mysql db_query db_update
    ep req kwargs w :
  ep_auth_required ep = false -> ep_logged_user ep = true ->
  token_identity check_token req = None ->
  let dict := <["loggedId" := VNone]> kwargs in
  let run := route_handler settings check_token get_primary_key silence_to_mysql db_query
               db_update ep req kwargs w in
  bound_params settings check_token get_primary_key ep req kwargs w
  = (Val dict, add_logs (token_notes check_token req) w) /\
  (forall params,
      ep_sql_op ep = SELECT -> getitems dict (ep_sql_params ep) = Val params ->
      dal_calls (snd run) = dal_calls w ++ [SafeQuery (silence_to_mysql (ep_sql ep)) params] /\
      Forall2 (fun p v => p = "loggedId" -> v = VNone) (ep_sql_params ep) params).
Proof.
  intros Ha Hl Hid. cbv zeta.
  assert (bound_params settings check_token get_primary_key ep req kwargs w
          = (Val (<["loggedId" := VNone]> kwargs), add_logs (token_notes check_token req) w))
    as Hb.
  { unfold bound_params. unfold mbind at 1, M_bind at 1.
    rewrite get_logged_user_run, Ha, Hl, Hid. reflexivity. }
  split; [exact Hb|]. intros params Hop Hp.
  rewrite (route_handler_select_run settings check_token get_primary_key silence_to_mysql
             db_query db_update ep req kwargs w _ _ params Hop Hb Hp).
  split; [done|].
  apply getitems_val in Hp. eapply Forall2_impl; [exact Hp|].
  intros p v Hv ->. rewrite lookup_insert_eq in Hv. by injection Hv.
Qed.

Lemma anonymous_logged_id_is_none_witness :
  dal_calls (snd (Demo.handler
                    (view_func (installed_rule Demo.settings SELECT "/mine" "get"
                                  "SELECT * FROM posts WHERE owner = $loggedId" false
                                  (PyList [VStr "*"]) []))
                    DemoRoutes.no_token ∅ Demo.w0))
  = [SafeQuery "SELECT * FROM posts WHERE owner = $loggedId" [VNone]].
Proof.
  refine (proj1 (proj2 (anonymous_logged_id_is_none Demo.settings Demo.check_token
                          Demo.get_primary_key Demo.silence_to_mysql Demo.db_query
                          Demo.db_update
                          (view_func (installed_rule Demo.settings SELECT "/mine" "get"
                                        "SELECT * FROM posts WHERE owner = $loggedId" false
                                        (PyList [VStr "*"]) []))
                          DemoRoutes.no_token ∅ Demo.w0
                          eq_refl eq_refl eq_refl) [VNone] eq_refl _)).
  vm_compute. reflexivity.
Defined.

(** X9.  For a request that passes the gate of an endpoint that is no SELECT
    and carries a value for every parameter of the route, each placeholder of
    the query takes the value of the URL when the route declares its name,
    even if the body has a field of that name, and otherwise the field of the
    body when the endpoint declares it as a body parameter, [None] standing
    for a field the request does not send.  When every placeholder has such a
    source, exactly one update runs, with these values in the order of the
    placeholders, and its result is answered with status 200; when one has
    none, the handler raises [KeyError] and no statement runs. *)
Theorem write_binding
    settings check_token get_primary_key silence_to_mysql db_query db_update
    ep req kwargs w dict w1 :
  ep_sql_op ep <> SELECT ->
  bound_params settings check_token get_primary_key ep req kwargs w = (Val dict, w1) ->
  Forall (fun p => is_Some (dict !! p)) (ep_url_params ep) ->
  let run := route_handler settings check_token get_primary_key silence_to_mysql db_query
               db_update ep req kwargs w in
  (Forall (fun p => is_Some (write_source ep req dict p)) (ep_sql_params ep) ->
   exists params,
     Forall2 (fun p v => write_source ep req dict p = Some v) (ep_sql_params ep) params /\
     fst run = (r ← db_update (silence_to_mysql (ep_sql ep)) params; Val (Written r, 200%Z)) /\
     dal_calls (snd run) = dal_calls w1 ++ [SafeUpdate (silence_to_mysql (ep_sql ep)) params]) /\
  (~ Forall (fun p => is_Some (write_source ep req dict p)) (ep_sql_params ep) ->
   fst run = Exn KeyError /\ dal_calls (snd run) = dal_calls w1).
Proof.
  intros Hop Hb Hurl. cbv zeta.
  destruct (route_handler_write_eq settings check_token get_primary_key silence_to_mysql
              db_query db_update ep req kwargs w dict w1 Hop Hb Hurl)
    as (body & w2 & Hbody & Hw2 & ->).
  split.
  - intros Hall.
    destruct (getitems_total body (ep_sql_params ep)) as [params Hparams].
    { eapply Forall_impl; [exact Hall|]. intros p Hp. by rewrite Hbody. }
    exists params. rewrite Hparams. cbn [fst snd record_update dal_calls].
    split; [|by rewrite Hw2].
    apply getitems_val in Hparams. eapply Forall2_impl; [exact Hparams|].
    intros p v Hv. by rewrite <- Hbody.
  - intros Hn. rewrite getitems_exn; [done|].
    intros H. apply Hn. eapply Forall_impl; [exact H|]. intros p Hp. by rewrite <- Hbody.
Qed.

Lemma write_binding_witness :
  dal_calls (snd (Demo.handler DemoWrites.rename_user DemoWrites.rename_request DemoRoutes.id7
                    Demo.w0))
  = [SafeUpdate "UPDATE users SET name = $name, age = $age WHERE id = $id"
       [VStr "Ann"; VNone; VInt 7]].
Proof.
  destruct (write_binding Demo.settings Demo.check_token Demo.get_primary_key
              Demo.silence_to_mysql Demo.db_query Demo.db_update
              DemoWrites.rename_user DemoWrites.rename_request DemoRoutes.id7 Demo.w0
              DemoRoutes.id7 Demo.w0) as [Hok _].
  - discriminate.
  - vm_compute. reflexivity.
  - repeat constructor. by eexists.
  - destruct Hok as (params & Hp & _ & Hcalls).
    + repeat constructor; vm_compute; by eexists.
    + unfold Demo.handler. rewrite Hcalls.
      repeat (apply Forall2_cons_inv_l in Hp as (? & ? & Hv & Hp & ->);
              vm_compute in Hv; injection Hv as <-).
      apply Forall2_nil_inv_l in Hp as ->. reflexivity.
Defined.

(** X10.  A write endpoint whose query uses [loggedId] is registered whether
    or not the name is declared, but unless the route or the declared body
    parameters hold the name, every request that passes its gate ends in
    [KeyError] before any statement runs: the identity is put among the URL
    parameters and never copied to the parameters the statement is bound
    from. *)
Theorem write_logged_id_unbound
    settings check_token get_primary_key silence_to_mysql db_query db_update
    ep req kwargs w dict w1 :
  ep_sql_op ep <> SELECT ->
  "loggedId" ∈ ep_sql_params ep ->
  "loggedId" ∉ ep_url_params ep -> "loggedId" ∉ ep_request_body_params ep ->
  bound_params settings check_token get_primary_key ep req kwargs w = (Val dict, w1) ->
  Forall (fun p => is_Some (dict !! p)) (ep_url_params ep) ->
  let run := route_handler settings check_token get_primary_key silence_to_mysql db_query
               db_update ep req kwargs w in
  fst run = Exn KeyError /\ dal_calls (snd run) = dal_calls w1.
Proof.
  intros Hop Hsql Hurl Hbody Hb Hall. cbv zeta.
  destruct (route_handler_write_eq settings check_token get_primary_key silence_to_mysql
              db_query db_update ep req kwargs w dict w1 Hop Hb Hall)
    as (body & w2 & Hlook & Hw2 & ->).
  rewrite getitems_exn; [done|].
  intros H. rewrite Forall_forall in H. destruct (H _ Hsql) as [v Hv].
  rewrite Hlook in Hv. unfold write_source in Hv.
  by rewrite !decide_False in Hv.
Qed.

Lemma write_logged_id_unbound_witness :
  let run := Demo.handler DemoWrites.create_post DemoWrites.post_request ∅ Demo.w0 in
  fst (Demo.setup "/posts" "post" "INSERT INTO posts (title, author) VALUES ($title, $loggedId)"
         true (PyList [VStr "*"]) None ["title"] Demo.w0) = Val tt /\
  fst run = Exn KeyError /\ dal_calls (snd run) = [].
Proof.
  cbv zeta. split; [vm_compute; reflexivity|].
  refine (write_logged_id_unbound Demo.settings Demo.check_token Demo.get_primary_key
            Demo.silence_to_mysql Demo.db_query Demo.db_update
            DemoWrites.create_post DemoWrites.post_request ∅ Demo.w0
            (<["loggedId" := VInt 1]> ∅) (add_logs [(DEBUG, MsgRoles (PyList [VStr "*"]) (VStr "admin"))] Demo.w0)
            _ _ _ _ _ _).
  - discriminate.
  - vm_compute. right. apply list_elem_of_here.
  - vm_compute. apply not_elem_of_nil.
  - vm_compute. intros Hin. apply list_elem_of_singleton in Hin. discriminate Hin.
  - vm_compute. reflexivity.
  - vm_compute. constructor.
Defined.

Lemma RE_QUERY_PARAM_match_params route :
  RE_QUERY_PARAM_match route = true -> findall_params route <> [].
Proof.
  induction route as [|c s IH]; [done|]. rewrite RE_QUERY_PARAM_match_cons, findall_params_cons.
  intros [Ht|[_ Hr]%andb_prop]%orb_prop.
  - unfold tail_match in Ht. apply andb_prop in Ht as [-> _]. done.
  - destruct (_ && _)%bool; [done|by apply IH].
Qed.

(** X11.  On a route without any parameter a SELECT endpoint never answers
    404 for want of rows: when the request passes the gate and the query and
    the shaping of its rows succeed, the answer is the rows, be they none,
    with status 200. *)
Theorem collection_never_404
    settings check_token get_primary_key silence_to_mysql db_query db_update
    ep req kwargs w dict w1 params rows filtered :
  ep_sql_op ep = SELECT ->
  extract_params (ep_route ep) = [] ->
  bound_params settings check_token get_primary_key ep req kwargs w = (Val dict, w1) ->
  getitems dict (ep_sql_params ep) = Val params ->
  db_query (silence_to_mysql (ep_sql ep)) params = Val rows ->
  filter_query_results rows (args req) = Val filtered ->
  fst (route_handler settings check_token get_primary_key silence_to_mysql db_query db_update
         ep req kwargs w) = Val (Rows filtered, 200%Z).
Proof.
  intros Hop Hroute Hb Hp Hq Hf.
  rewrite (route_handler_select settings check_token get_primary_key silence_to_mysql
             db_query db_update ep req kwargs w dict w1 params rows filtered Hop Hb Hp Hq Hf).
  destruct (RE_QUERY_PARAM_match (ep_route ep)) eqn:Hre; [|done].
  apply RE_QUERY_PARAM_match_params in Hre. by apply extract_params_nil in Hroute.
Qed.

Lemma collection_never_404_witness :
  fst (Demo.handler DemoRoutes.all_users DemoRoutes.no_token ∅ Demo.w0) = Val (Rows [], 200%Z).
Proof.
  refine (collection_never_404 Demo.settings Demo.check_token Demo.get_primary_key
            Demo.silence_to_mysql Demo.db_query Demo.db_update
            DemoRoutes.all_users DemoRoutes.no_token ∅ Demo.w0 ∅ Demo.w0 [] [] []
            eq_refl _ _ _ eq_refl _); vm_compute; reflexivity.
Defined.

(** ** More on the result shaper *)

Lemma filter_all {A} (f : A -> bool) (l : list A) :
  (forall x, x ∈ l -> f x = true) -> List.filter f l = l.
Proof.
  induction l as [|x l IH]; intros H; simpl; [done|].
  rewrite (H x) by by left. f_equal. apply IH. intros y Hy. apply H. by right.
Qed.

(** X12.  Keys that start with an underscore, and keys that are a column of
    no row, filter nothing: when every other key is absent from every row,
    all the rows pass the filter, and without a sort column and a limit they
    are the result, in their order. *)
Theorem filter_ignores_unknown_keys data args :
  (forall k v r, MultiDict.get k args = Some v -> startswith "_" k = false ->
                 r ∈ data -> r !! k = None) ->
  filtered_rows data args = data /\
  (MultiDict.get "_sort" args = None -> limit_of args = None ->
   filter_query_results data args = Val data).
Proof.
  intros Hnone.
  assert (filtered_rows data args = data) as Hf.
  { unfold filtered_rows. apply filter_all. intros r Hr. apply filter_func_spec.
    intros k v x Hget Hk Hx. by rewrite (Hnone k v r Hget Hk Hr) in Hx. }
  split; [done|]. intros Hs Hl.
  by rewrite filter_query_results_no_limit, sorted_rows_unsorted, Hf.
Qed.

Lemma filter_ignores_unknown_keys_witness :
  filter_query_results DemoRows.ten [("_page", "2"); ("colour", "red")] = Val DemoRows.ten.
Proof.
  refine (proj2 (filter_ignores_unknown_keys DemoRows.ten [("_page", "2"); ("colour", "red")] _)
            eq_refl eq_refl).
  intros k v r Hget Hk Hr.
  assert (k = "colour") as ->.
  { change (MultiDict.get k [("_page", "2"); ("colour", "red")])
      with (if String.eqb "_page" k then Some "2"
            else if String.eqb "colour" k then Some "red" else None) in Hget.
    destruct (String.eqb_spec "_page" k) as [<-|_].
    - vm_compute in Hk. discriminate Hk.
    - destruct (String.eqb_spec "colour" k) as [<-|_]; [reflexivity|discriminate Hget]. }
  vm_compute in Hr.
  repeat (apply elem_of_cons in Hr as [->|Hr]; [vm_compute; reflexivity|]).
  by apply elem_of_nil in Hr.
Defined.

Lemma slice_length_le {A} (l : list A) lo n :
  (0 < n)%Z -> (Z.of_nat (length (Py.slice l lo (lo + n))) <= n)%Z.
Proof.
  intros Hn. unfold Py.slice, Py.slice_bound. rewrite length_take, length_drop.
  set (len := Z.of_nat (length l)).
  destruct (Z.ltb_spec lo 0), (Z.ltb_spec (lo + n) 0); lia.
Qed.

(** X13.  The bounds of paging.  A positive limit is an upper bound on the
    number of rows of a result, whatever the page; a page that starts at or
    beyond the end of the rows gives the empty list and no error; and a
    negative limit without a page gives all the rows but the last ones, as
    many as the limit counts below zero. *)
Theorem pagination_bounds data args rows n :
  sorted_rows data args = Val rows ->
  limit_of args = Some n ->
  (0 < n -> exists out, filter_query_results data args = Val out /\
                        (Z.of_nat (length out) <= n)%Z)%Z /\
  (forall p, (0 < n)%Z -> page_of args = Some p -> (Z.of_nat (length rows) <= n * p)%Z ->
             filter_query_results data args = Val []) /\
  ((n < 0)%Z -> page_of args = None \/ page_of args = Some 0%Z ->
   filter_query_results data args = Val (take (length rows - Z.to_nat (- n)) rows)).
Proof.
  intros Hs Hl. rewrite filter_query_results_stages, Hs, Hl. simpl.
  split; [|split].
  - intros Hn. rewrite (proj2 (Z.eqb_neq n 0)) by lia. simpl.
    eexists. split; [done|]. by apply slice_length_le.
  - intros p Hn -> Hp. rewrite (proj2 (Z.eqb_neq n 0)) by lia. simpl.
    destruct (Z.eqb_spec p 0) as [->|Hp0]; simpl.
    + destruct rows; [|simpl in Hp; lia]. unfold Py.slice. by rewrite drop_nil, take_nil.
    + rewrite slice_nonneg by nia. rewrite drop_ge by nia. by rewrite take_nil.
  - intros Hn Hp. rewrite (proj2 (Z.eqb_neq n 0)) by lia. simpl.
    assert ((if int_truthy (page_of args) then (n * default 0 (page_of args))%Z else 0%Z) = 0%Z)
      as ->.
    { by destruct Hp as [-> | ->]. }
    f_equal. unfold Py.slice, Py.slice_bound. rewrite Z.add_0_l.
    rewrite (proj2 (Z.ltb_lt n 0)) by done. rewrite Z.ltb_irrefl.
    rewrite (Z.min_l 0) by lia. rewrite drop_0. f_equal. lia.
Qed.

Lemma pagination_bounds_witness :
  filter_query_results DemoRows.ten [("_limit", "3"); ("_page", "4")] = Val [] /\
  filter_query_results DemoRows.ten [("_limit", "-8")] = Val (map DemoRows.numbered [0; 1]%Z).
Proof.
  split.
  - destruct (pagination_bounds DemoRows.ten [("_limit", "3"); ("_page", "4")] DemoRows.ten 3)
      as (_ & H & _); [vm_compute; reflexivity|reflexivity|].
    apply (H 4%Z); [reflexivity|reflexivity|vm_compute; discriminate].
  - destruct (pagination_bounds DemoRows.ten [("_limit", "-8")] DemoRows.ten (-8))
      as (_ & _ & H); [vm_compute; reflexivity|reflexivity|].
    rewrite H; [vm_compute; reflexivity|reflexivity|by left].
Defined.

(** ** The order of a sorted result *)

Lemma string_ltb_asym s t : String.ltb s t = true -> String.ltb t s = false.
Proof.
  unfold String.ltb. rewrite (String.compare_antisym t s).
  by destruct (String.compare s t).
Qed.

Lemma string_ltb_trans s t u :
  String.ltb t s = false -> String.ltb u t = false -> String.ltb u s = false.
Proof.
  unfold String.ltb. intros Hts Hut.
  destruct (String.compare u s) eqn:Hus; try done.
  apply OrderedTypeEx.String_as_OT.cmp_lt in Hus.
  destruct (String.compare t s) eqn:Hts'; try done.
  - apply String.compare_eq_iff in Hts' as ->.
    apply OrderedTypeEx.String_as_OT.cmp_lt in Hus. unfold OrderedTypeEx.String_as_OT.cmp in Hus. by rewrite Hus in Hut.
  - rewrite String.compare_antisym in Hts'.
    destruct (String.compare s t) eqn:Hst; try done.
    apply OrderedTypeEx.String_as_OT.cmp_lt in Hst.
    pose proof (OrderedTypeEx.String_as_OT.lt_trans _ _ _ Hus Hst) as Hlt.
    apply OrderedTypeEx.String_as_OT.cmp_lt in Hlt. unfold OrderedTypeEx.String_as_OT.cmp in Hlt. by rewrite Hlt in Hut.
Qed.

Lemma number_keys_ordered : ordered_keys number_key.
Proof.
  split.
  - intros a b Ha Hb. apply key_lt_numbers; intros v ->; done.
  - intros [|x] [|y] Hx Hy; unfold key_le; simpl; try done.
    destruct Hx as [n Hn], Hy as [m Hm]. unfold Py.lt.
    destruct x, y; try done; simpl in *; injection Hn as <-; injection Hm as <-;
      intros [= H]; f_equal; lia.
  - intros [|x] [|y] [|z] Hx Hy Hz; unfold key_le; simpl; try done.
    destruct Hx as [n Hn], Hy as [m Hm], Hz as [k Hk]. unfold Py.lt.
    destruct x, y, z; try done; simpl in *; injection Hn as <-; injection Hm as <-;
      injection Hk as <-; intros [= H1] [= H2]; f_equal; lia.
Qed.

Lemma text_keys_ordered : ordered_keys text_key.
Proof.
  split.
  - intros a b Ha Hb. apply key_lt_texts.
    + intros v ->. destruct v; try done. by eexists.
    + intros v ->. destruct v; try done. by eexists.
  - intros [|[| | |s]] [|[| | |t]] Hx Hy; unfold key_le; simpl; try done.
    intros [= H]. f_equal. by apply string_ltb_asym.
  - intros [|[| | |s]] [|[| | |t]] [|[| | |u]] Hx Hy Hz; unfold key_le; simpl; try done.
    intros [= H1] [= H2]. f_equal. by apply (string_ltb_trans s t u).
Qed.

Section SortOrder.

Context {A : Type}.
Variable good : sort_key -> Prop.
Hypothesis Hgood : ordered_keys good.

Lemma insert_keyed_ordered (x : sort_key * A) l :
  good (fst x) -> Forall (fun y => good (fst y)) l -> StronglySorted pair_le l ->
  exists l', insert_keyed x l = Val l' /\ StronglySorted pair_le l'.
Proof.
  intros Hx Hl Hs. induction Hs as [|y l Hs IH Hy]; [by exists [x]; repeat constructor|].
  apply Forall_cons in Hl as [Hgy Hl]. simpl.
  destruct (key_lt (fst x) (fst y)) as [bl|] eqn:Hlt;
    [|by destruct (ok_total good Hgood (fst x) (fst y))].
  destruct bl; simpl.
  - eexists. split; [done|]. constructor; [by constructor|].
    assert (pair_le x y) as Hxy by by apply (ok_asym good Hgood).
    constructor; [done|].
    rewrite Forall_forall in Hy, Hl |- *. intros z Hz.
    apply (ok_trans good Hgood (fst x) (fst y) (fst z)); auto.
    by apply Hy.
  - destruct (IH Hl) as (l' & Hl' & Hs'). rewrite Hl'. simpl.
    eexists. split; [done|]. constructor; [done|].
    apply insert_keyed_perm in Hl'. rewrite <- Hl'. by constructor.
Qed.

Lemma sort_keyed_ordered (acc l : list (sort_key * A)) :
  Forall (fun y => good (fst y)) acc -> Forall (fun y => good (fst y)) l ->
  StronglySorted pair_le acc ->
  exists out, sort_keyed acc l = Val out /\ StronglySorted pair_le out.
Proof.
  revert acc. induction l as [|x l IH]; intros acc Hacc Hl Hs; simpl; [by exists acc|].
  apply Forall_cons in Hl as [Hx Hl].
  destruct (insert_keyed_ordered x acc Hx Hacc Hs) as (acc' & Hi & Hs').
  rewrite Hi. simpl. apply IH; [|done|done].
  apply insert_keyed_perm in Hi. rewrite <- Hi. by constructor.
Qed.

End SortOrder.

Lemma StronglySorted_rev {A} (R : relation A) (l : list A) :
  StronglySorted R l -> StronglySorted (flip R) (rev l).
Proof.
  induction 1 as [|x l Hs IH Hx]; simpl; [constructor|].
  apply StronglySorted_app. split; [|split; [done|by repeat constructor]].
  intros y z Hy ->%list_elem_of_singleton. unfold flip.
  rewrite Forall_forall in Hx. apply Hx. by apply list_elem_of_In, in_rev, list_elem_of_In.
Qed.

Lemma StronglySorted_rows (R : relation (sort_key * row)) (R' : relation row) l :
  (forall x y, x ∈ l -> y ∈ l -> R x y -> R' (snd x) (snd y)) ->
  StronglySorted R l -> StronglySorted R' (map snd l).
Proof.
  intros Himp Hs. induction Hs as [|x l Hs IH Hx]; simpl; [constructor|].
  constructor.
  - apply IH. intros y z Hy Hz. apply Himp; by right.
  - apply Forall_fmap, Forall_forall. intros y Hy. rewrite Forall_forall in Hx.
    apply Himp; [by left|by right|by apply Hx].
Qed.

(** On a typed column the outcome of the sort is in order. *)
Lemma list_sort_ordered c reverse (rows : list row) :
  typed_column c rows ->
  exists out,
    list_sort (order_key_func (Some c)) reverse rows = Val out /\
    StronglySorted (if reverse then flip (row_le c) else row_le c) out.
Proof.
  intros Ht. unfold list_sort.
  destruct (compute_keys_total (order_key_func (Some c)) rows) as [keyed Hk].
  { apply Forall_forall. intros r Hr.
    assert (exists v, r !! c = Some v) as [v Hv].
    { destruct Ht as [H|H]; destruct (H r Hr) as (v & ? & _); eauto. }
    unfold order_key_func. rewrite Hv. destruct v; eauto. }
  rewrite Hk. simpl. apply compute_keys_val in Hk as [Hrows Hkeys].
  set (input := if reverse then rev keyed else keyed).
  assert (input ≡ₚ keyed) as Hperm.
  { subst input. destruct reverse; [by rewrite <- Permutation_rev|done]. }
  assert (exists good, ordered_keys good /\ Forall (fun x => good (fst x)) keyed)
    as (good & Hgood & Hall).
  { destruct Ht as [Hn|Hs]; [exists number_key|exists text_key];
      (split; [auto using number_keys_ordered, text_keys_ordered|]);
      rewrite Forall_forall in Hkeys |- *; intros x Hx;
      pose proof (order_key_func_val c _ _ (Hkeys x Hx)) as Hv;
      (assert (snd x ∈ rows) as Hr by (rewrite <- Hrows; apply list_elem_of_fmap; eauto));
      destruct (fst x) as [|v]; try done; destruct Hv as [Hl Hne].
    - destruct (Hn _ Hr) as (v' & Hl' & Hv'). rewrite Hl in Hl'. injection Hl' as <-.
      by destruct Hv'.
    - destruct (Hs _ Hr) as (v' & Hl' & Hv'). rewrite Hl in Hl'. injection Hl' as <-.
      destruct Hv' as [->|[s ->]]; done. }
  destruct (sort_keyed_ordered good Hgood [] input) as (out & Hout & Hsorted);
    [constructor|by rewrite Hperm|constructor|].
  rewrite Hout. simpl. eexists. split; [done|].
  apply sort_keyed_perm in Hout. simpl in Hout.
  assert (Forall (fun x => order_key_func (Some c) (snd x) = Val (fst x)) out) as Hinv.
  { by rewrite <- Hout, Hperm. }
  rewrite Forall_forall in Hinv.
  destruct reverse.
  - apply (StronglySorted_rows (flip pair_le)); [|by apply StronglySorted_rev].
    intros x y Hx Hy Hxy. unfold flip, row_le.
    apply list_elem_of_In, in_rev, list_elem_of_In in Hx, Hy.
    exists (fst y), (fst x). auto.
  - apply (StronglySorted_rows pair_le); [|done].
    intros x y Hx Hy Hxy. exists (fst x), (fst y). auto.
Qed.

(** X14.  The only exception the shaping of a result lets through is the
    [TypeError] of a comparison between two sort keys: it takes a [_sort]
    column that every row left by the filter has, and at least two such
    rows.  A missing column never fails, nor does a request without
    [_sort]. *)
Theorem shaper_errors data args e :
  filter_query_results data args = Exn e ->
  e = TypeError /\
  exists c, MultiDict.get "_sort" args = Some c /\
            (forall r, r ∈ filtered_rows data args -> is_Some (r !! c)) /\
            2 <= length (filtered_rows data args).
Proof.
  intros He. split; [by apply filter_query_results_exn in He|].
  rewrite filter_query_results_stages in He. unfold sorted_rows in He.
  destruct (list_sort _ _ _) as [sorted|e'] eqn:Hs; [done|].
  destruct (MultiDict.get "_sort" args) as [c|] eqn:Hc.
  2:{ unfold list_sort in Hs.
      destruct (filtered_rows data args) as [|r rows], (sort_reverse_of args);
        simpl in Hs; try done; by injection Hs as <-. }
  exists c. split; [done|].
  unfold list_sort in Hs.
  destruct (compute_keys _ _) as [keyed|e''] eqn:Hk; simpl in Hs.
  - apply compute_keys_val in Hk as [Hrows Hkeys]. split.
    + intros r Hr. rewrite <- Hrows in Hr. apply list_elem_of_fmap in Hr as (x & -> & Hx).
      rewrite Forall_forall in Hkeys. apply Hkeys in Hx.
      unfold order_key_func in Hx. by destruct (snd x !! c).
    + rewrite <- Hrows, length_map.
      destruct keyed as [|x [|y keyed]]; simpl; [|by destruct (sort_reverse_of args)|lia].
      by destruct (sort_reverse_of args).
  - injection Hs as <-. apply compute_keys_exn in Hk as (r & _ & Hr).
    apply order_key_func_exn in Hr as ->. done.
Qed.

Lemma shaper_errors_witness :
  filter_query_results [row1 "v" (VInt 1); row1 "v" (VStr "a")] [("_sort", "v")] = Exn TypeError /\
  2 <= length (filtered_rows [row1 "v" (VInt 1); row1 "v" (VStr "a")] [("_sort", "v")]).
Proof.
  assert (filter_query_results [row1 "v" (VInt 1); row1 "v" (VStr "a")] [("_sort", "v")]
          = Exn TypeError) as H by (vm_compute; reflexivity).
  split; [done|].
  by destruct (shaper_errors _ _ _ H) as (_ & c & _ & _ & Hlen).
Defined.

(** X15.  When the values of the [_sort] column are, null apart, all numbers
    or all strings, the sort yields the rows the filter left, rearranged so
    that no row is followed by one whose key is less than its own; with the
    order "desc", so that no row is preceded by one.  Without a limit this is
    the result. *)
Theorem sorted_result_in_order data args c :
  MultiDict.get "_sort" args = Some c ->
  typed_column c (filtered_rows data args) ->
  exists out,
    sorted_rows data args = Val out /\
    out ≡ₚ filtered_rows data args /\
    StronglySorted (if sort_reverse_of args then flip (row_le c) else row_le c) out /\
    (limit_of args = None -> filter_query_results data args = Val out).
Proof.
  intros Hc Ht.
  destruct (list_sort_ordered c (sort_reverse_of args) _ Ht) as (out & Hs & Hsorted).
  exists out. unfold sorted_rows. rewrite Hc, Hs.
  split; [done|]. split; [symmetry; by apply list_sort_perm in Hs|]. split; [done|].
  intros Hl. rewrite filter_query_results_no_limit by done.
  unfold sorted_rows. by rewrite Hc, Hs.
Qed.

Lemma sorted_result_in_order_witness :
  exists out,
    filter_query_results [row1 "v" (VStr "b"); row1 "v" VNone; row1 "v" (VStr "a")]
                         [("_sort", "v"); ("_order", "desc")] = Val out /\
    StronglySorted (flip (row_le "v")) out.
Proof.
  destruct (sorted_result_in_order
              [row1 "v" (VStr "b"); row1 "v" VNone; row1 "v" (VStr "a")]
              [("_sort", "v"); ("_order", "desc")] "v" eq_refl) as (out & _ & _ & Hs & Hl).
  - right. intros r Hr. vm_compute in Hr.
    repeat (apply elem_of_cons in Hr as [->|Hr]);
      [ exists (VStr "b") | exists VNone | exists (VStr "a") | by apply elem_of_nil in Hr ];
      (split; [vm_compute; reflexivity|]); [right; by eexists|by left|right; by eexists].
  - exists out. split; [by apply Hl|done].
Defined.

(** * Properties of the endpoint generator *)

(** ** The text of a list of columns *)

Lemma drop_last2_sep s : drop_last2 (s +:+ ", ") = s.
Proof.
  unfold drop_last2.
  replace (s +:+ ", ") with ((s +:+ ",") +:+ " ") by (by rewrite str_app_assoc).
  by rewrite (drop_last_snoc _ " "), (drop_last_snoc _ ",").
Qed.

Lemma fold_left_join (g : string -> string) l acc :
  l <> [] ->
  fold_left (fun res p => res +:+ (g p +:+ ", ")) l acc = acc +:+ join ", " (map g l) +:+ ", ".
Proof.
  revert acc. induction l as [|p l IH]; intros acc Hne; [done|]. simpl fold_left.
  destruct l as [|q l]; [done|].
  rewrite IH by done. change (join ", " (map g (p :: q :: l)))
    with (g p +:+ ", " +:+ join ", " (map g (q :: l))).
  by rewrite !str_app_assoc.
Qed.

Lemma params_to_string_create l c : params_to_string l c true false = Some (tuple_text c l).
Proof.
  unfold params_to_string, tuple_text. destruct l as [|p l]; [done|].
  rewrite (fold_left_join (String.append c)) by done.
  by rewrite <- str_app_assoc, drop_last2_sep.
Qed.

Lemma params_to_string_update l c : params_to_string l c false true = Some (set_text l).
Proof.
  unfold params_to_string, set_text. destruct l as [|p l]; [done|].
  rewrite (fold_left_join (fun p => (p +:+ " = $") +:+ p)) by done.
  rewrite str_app_nil_l, drop_last2_sep. do 2 f_equal. apply map_ext. intros q. by rewrite str_app_assoc.
Qed.

(** ** The parameters of a generated text *)

Lemma all_word_no_dollar w : all_word w = true -> has_char "$" w = false.
Proof.
  induction w as [|c w IH]; [done|]. simpl. intros [Hc Hw]%andb_prop.
  rewrite IH by done. destruct (Ascii.eqb_spec c "$") as [->|]; [|done]. by vm_compute in Hc.
Qed.

Lemma findall_params_skip pre s :
  has_char "$" pre = false -> findall_params (pre +:+ s) = findall_params s.
Proof.
  induction pre as [|c pre IH]; [done|]. rewrite has_char_cons, str_app_cons.
  intros [Hc Hpre]%orb_false_elim. rewrite findall_params_cons, Hc. simpl. by apply IH.
Qed.

Lemma starts_word_identifier w s : w <> "" -> all_word w = true -> starts_word (w +:+ s) = true.
Proof. destruct w as [|c w]; [done|]. simpl. by intros _ [-> _]%andb_prop. Qed.

Lemma findall_params_identifier w s :
  identifier w -> starts_word s = false ->
  findall_params ("$" +:+ w +:+ s) = ("$" +:+ w) :: findall_params s.
Proof.
  intros [Hne Hw] Hs. rewrite str_app_cons, str_app_nil_l, findall_params_cons.
  rewrite starts_word_identifier by done. simpl. by rewrite take_word_app, drop_word_app.
Qed.

Lemma extract_params_skip pre s :
  has_char "$" pre = false -> extract_params (pre +:+ s) = extract_params s.
Proof. intros H. unfold extract_params. by rewrite findall_params_skip. Qed.

Lemma extract_params_param w s :
  identifier w -> starts_word s = false ->
  extract_params ("$" +:+ w +:+ s) = w :: extract_params s.
Proof. intros Hw Hs. unfold extract_params. by rewrite findall_params_identifier. Qed.

Lemma extract_params_plain s : has_char "$" s = false -> extract_params s = [].
Proof. intros H. rewrite <- (str_app_nil_r s). by rewrite extract_params_skip. Qed.

(** The parameters of a list of texts that a comma and a space separate. *)
Lemma extract_params_join (g : string -> string) (h : string -> list string) l rest :
  (forall p s, p ∈ l -> starts_word s = false ->
               extract_params (g p +:+ s) = h p ++ extract_params s) ->
  starts_word rest = false ->
  extract_params (join ", " (map g l) +:+ rest) = flat_map h l ++ extract_params rest.
Proof.
  intros Hg Hrest. induction l as [|p l IH]; [done|].
  assert (extract_params (join ", " (map g l) +:+ rest) = flat_map h l ++ extract_params rest)
    as IH' by (apply IH; intros; apply Hg; [by right|done]).
  destruct l as [|q l].
  - simpl. rewrite Hg; [|by left|done]. by rewrite app_nil_r.
  - change (join ", " (map g (p :: q :: l))) with (g p +:+ ", " +:+ join ", " (map g (q :: l))).
    rewrite !str_app_assoc. rewrite Hg; [|by left|done].
    rewrite (extract_params_skip ", ") by done. rewrite IH'. simpl. by rewrite app_assoc.
Qed.

Lemma flat_map_singleton {A} (l : list A) : flat_map (fun p => [p]) l = l.
Proof. induction l as [|p l IH]; [done|]. simpl. by rewrite IH. Qed.

Lemma flat_map_nil {A B} (l : list A) : flat_map (fun _ => @nil B) l = [].
Proof. by induction l. Qed.

Lemma extract_params_tuple_dollar l rest :
  Forall identifier l -> starts_word rest = false ->
  extract_params (tuple_text "$" l +:+ rest) = l ++ extract_params rest.
Proof.
  intros Hl Hrest. unfold tuple_text. destruct l as [|p l]; [by rewrite extract_params_skip|].
  rewrite str_app_assoc, (extract_params_skip "(") by done.
  rewrite str_app_assoc.
  rewrite (extract_params_join (String.append "$") (fun p => [p])).
  - rewrite flat_map_singleton. by rewrite (extract_params_skip ")").
  - intros q s Hq Hs. rewrite Forall_forall in Hl.
    change (String.append "$" q) with ("$" +:+ q). rewrite str_app_assoc.
    by rewrite extract_params_param; [|apply Hl|].
  - done.
Qed.

Lemma has_char_join c sep l :
  has_char c sep = false -> Forall (fun p => has_char c p = false) l ->
  has_char c (join sep l) = false.
Proof.
  intros Hsep. induction 1 as [|p l Hp Hl IH]; [done|].
  destruct l as [|q l]; [done|].
  change (join sep (p :: q :: l)) with (p +:+ sep +:+ join sep (q :: l)).
  by rewrite !has_char_app, Hp, Hsep, IH.
Qed.

Lemma has_char_tuple_plain l :
  Forall identifier l -> has_char "$" (tuple_text "" l) = false.
Proof.
  intros Hl. unfold tuple_text. destruct l as [|p l]; [done|].
  rewrite !has_char_app. rewrite has_char_join; [done|done|].
  apply Forall_fmap. eapply Forall_impl; [done|]. intros q [_ Hq]. simpl.
  by apply all_word_no_dollar.
Qed.

Lemma extract_params_set l rest :
  Forall identifier l -> starts_word rest = false ->
  extract_params (set_text l +:+ rest) = l ++ extract_params rest.
Proof.
  intros Hl Hrest. unfold set_text.
  rewrite (extract_params_join (fun p => p +:+ " = $" +:+ p) (fun p => [p])).
  - by rewrite flat_map_singleton.
  - intros q s Hq Hs. rewrite Forall_forall in Hl. destruct (Hl q Hq) as [Hne Hw].
    rewrite !str_app_assoc. rewrite extract_params_skip by by apply all_word_no_dollar.
    change (" = $" +:+ q +:+ s) with (" = " +:+ "$" +:+ q +:+ s).
    rewrite (extract_params_skip " = ") by done.
    by rewrite extract_params_param.
  - done.
Qed.

(** ** One table *)

Lemma generate_create_ok route name columns pk is_AI :
  generate_create route (name, columns) pk is_AI
  = Ok (created_endpoint route name (create_columns pk is_AI columns),
        create_columns pk is_AI columns).
Proof.
  unfold generate_create, created_endpoint. cbn [fst snd].
  replace (if negb is_AI then columns ++ [pk] else columns)
    with (create_columns pk is_AI columns) by by destruct is_AI.
  rewrite !params_to_string_create. cbn [str_add mbind outcome_bind].
  by rewrite !str_app_assoc.
Qed.

Lemma generate_update_ok route name columns pk :
  generate_update route (name, columns) pk = Ok (updated_endpoint route name pk columns).
Proof.
  unfold generate_update, updated_endpoint. cbn [fst snd].
  rewrite params_to_string_update. cbn [str_add mbind outcome_bind].
  by rewrite !str_app_assoc.
Qed.

Lemma remove_first_elem x l : is_Some (remove_first x l) <-> x ∈ l.
Proof.
  induction l as [|y l IH]; simpl.
  - split; [by intros [? ?]|by intros ?%elem_of_nil].
  - destruct (String.eqb_spec y x) as [->|Hne].
    + split; [intros _; by left|by eexists].
    + rewrite fmap_is_Some, IH, elem_of_cons. naive_solver.
Qed.

Section TableRun.

Variable get_primary_key : string -> option string.
Variable is_auto_increment : string -> option string -> bool.
Variable existing : list (string * string).
Variable auto_dir : string.

Lemma table_iteration_run name all_columns pk columns tr :
  get_primary_key name = Some pk ->
  remove_first pk all_columns = Some columns ->
  table_iteration get_primary_key is_auto_increment existing auto_dir (name, all_columns) tr
  = (Ok pk,
     tr ++ file_events auto_dir name pk
             (table_endpoints existing name pk (is_auto_increment name (Some pk)) columns)).
Proof.
  intros Hpk Hrem. unfold table_iteration, file_events, table_endpoints, candidate_endpoints,
    update_columns, user_defined, collection_route, item_route.
  cbn [fst snd]. rewrite Hpk. unfold list_remove. rewrite Hrem.
  unfold lift_outcome, mbind, G_bind, emit, dicts_to_file, mret, G_ret.
  rewrite !generate_create_ok. 
  cbn [List.filter snd d_route d_method generate_get_all generate_get_by_id generate_delete
       created_endpoint updated_endpoint].
  set (lname := lower name).
  set (ai := is_auto_increment name (Some pk)).
  destruct (bool_decide (("/" +:+ lname, "GET") ∈ existing));
  destruct (bool_decide (("/" +:+ lname +:+ "/$" +:+ pk, "GET") ∈ existing));
  destruct (bool_decide (("/" +:+ lname, "POST") ∈ existing));
  destruct (bool_decide (("/" +:+ lname +:+ "/$" +:+ pk, "PUT") ∈ existing));
  destruct (bool_decide (("/" +:+ lname +:+ "/$" +:+ pk, "DELETE") ∈ existing));
  cbn [negb fst snd app]; rewrite ?generate_update_ok; cbn [length Nat.eqb negb app map tuple_of fst snd];
  unfold emit; cbn [length Nat.eqb negb]; rewrite <- ?app_assoc; reflexivity.
Qed.

End TableRun.

Lemma lower_char_dollar d : Ascii.eqb (lower_char d) "$" = Ascii.eqb d "$".
Proof. by destruct d as [[] [] [] [] [] [] [] []]. Qed.


Lemma has_char_lower_dollar s : has_char "$" (lower s) = has_char "$" s.
Proof. induction s as [|d s IH]; [done|]. simpl. by rewrite lower_char_dollar, IH. Qed.


(** ** The parameters of the generated endpoints *)

Section Generated.

Variables (name pk : string).
Hypothesis Hname : has_char "$" name = false.
Hypothesis Hpk : identifier pk.

Lemma pk_no_dollar : has_char "$" pk = false.
Proof. destruct Hpk. by apply all_word_no_dollar. Qed.

Lemma extract_params_collection_route : extract_params (collection_route name) = [].
Proof.
  apply extract_params_plain. unfold collection_route.
  by rewrite has_char_app, has_char_lower_dollar, Hname.
Qed.

Lemma extract_params_item_route : extract_params (item_route name pk) = [pk].
Proof.
  unfold item_route.
  change ("/" +:+ lower name +:+ "/$" +:+ pk) with ("/" +:+ lower name +:+ "/" +:+ "$" +:+ pk).
  rewrite (extract_params_skip "/") by done.
  rewrite extract_params_skip by by rewrite has_char_lower_dollar.
  rewrite (extract_params_skip "/") by done.
  rewrite <- (str_app_nil_r pk) at 1. by rewrite extract_params_param.
Qed.

Lemma extract_params_where pre :
  has_char "$" pre = false ->
  extract_params (pre +:+ " WHERE " +:+ pk +:+ " = $" +:+ pk) = [pk].
Proof.
  intros Hpre. rewrite extract_params_skip by done.
  rewrite (extract_params_skip " WHERE ") by done.
  rewrite extract_params_skip by apply pk_no_dollar.
  change (" = $" +:+ pk) with (" = " +:+ "$" +:+ pk).
  rewrite (extract_params_skip " = ") by done.
  rewrite <- (str_app_nil_r pk) at 1. by rewrite extract_params_param.
Qed.

Lemma extract_params_get_all route columns :
  extract_params (d_sql (generate_get_all route (name, columns))) = [].
Proof. apply extract_params_plain. simpl. by rewrite has_char_app, Hname. Qed.

Lemma extract_params_get_by_id route columns :
  extract_params (d_sql (generate_get_by_id route (name, columns) pk)) = [pk].
Proof.
  cbn [d_sql generate_get_by_id fst]. rewrite <- str_app_assoc.
  apply extract_params_where. by rewrite has_char_app, Hname.
Qed.

Lemma extract_params_delete route columns :
  extract_params (d_sql (generate_delete route (name, columns) pk)) = [pk].
Proof.
  cbn [d_sql generate_delete fst]. rewrite <- str_app_assoc.
  apply extract_params_where. by rewrite has_char_app, Hname.
Qed.

Lemma extract_params_created route created :
  Forall identifier created ->
  extract_params (d_sql (created_endpoint route name created)) = created.
Proof.
  intros Hc. cbn [d_sql created_endpoint].
  rewrite (extract_params_skip "INSERT INTO ") by done.
  rewrite extract_params_skip by done.
  rewrite extract_params_skip by by apply has_char_tuple_plain.
  rewrite (extract_params_skip " VALUES ") by done.
  rewrite <- (str_app_nil_r (tuple_text "$" created)).
  rewrite extract_params_tuple_dollar by done. by rewrite app_nil_r.
Qed.

Lemma extract_params_updated route updated :
  Forall identifier updated ->
  extract_params (d_sql (updated_endpoint route name pk updated)) = updated ++ [pk].
Proof.
  intros Hc. cbn [d_sql updated_endpoint].
  rewrite (extract_params_skip "UPDATE ") by done.
  rewrite extract_params_skip by done.
  rewrite (extract_params_skip " SET ") by done.
  rewrite extract_params_set; [|done|done]. f_equal.
  rewrite <- (str_app_nil_l (" WHERE " +:+ _)). by apply (extract_params_where "").
Qed.

End Generated.

(** ** The run over the tables and the views *)

Section Run.

Variable getcwd : string.
Variable auto_dir_exists : bool.
Variable get_primary_key : string -> option string.
Variable is_auto_increment : string -> option string -> bool.
Variable existing : list (string * string).
Variable auto_dir : string.

Lemma list_remove_good t :
  good_table get_primary_key t ->
  exists pk columns, get_primary_key (fst t) = Some pk /\
                     remove_first pk (snd t) = Some columns /\
                     list_remove (get_primary_key (fst t)) (snd t) = Ok (pk, columns).
Proof.
  intros (pk & Hpk & Hin). apply remove_first_elem in Hin as [columns Hc].
  exists pk, columns. unfold list_remove. by rewrite Hpk, Hc.
Qed.

Lemma list_remove_bad t :
  ~ good_table get_primary_key t ->
  list_remove (get_primary_key (fst t)) (snd t) = Raise GenExn.ValueError.
Proof.
  intros Hbad. unfold list_remove. destruct (get_primary_key (fst t)) as [pk|] eqn:Hpk; [|done].
  destruct (remove_first pk (snd t)) as [columns|] eqn:Hc; [|done].
  destruct Hbad. exists pk. split; [done|]. apply remove_first_elem. by eexists.
Qed.

Lemma table_iteration_good t tr :
  good_table get_primary_key t ->
  exists pk, get_primary_key (fst t) = Some pk /\
  table_iteration get_primary_key is_auto_increment existing auto_dir t tr
  = (Ok pk, tr ++ table_events get_primary_key is_auto_increment existing auto_dir t).
Proof.
  intros Hgood. destruct (list_remove_good t Hgood) as (pk & columns & Hpk & Hc & Hrem).
  exists pk. split; [done|]. destruct t as [name all_columns]. unfold table_events.
  rewrite Hrem. cbn [fst snd] in *.
  rewrite (table_iteration_run _ _ _ _ name all_columns pk columns tr Hpk Hc).
  by rewrite Hpk.
Qed.

Lemma table_iteration_bad t tr :
  ~ good_table get_primary_key t ->
  table_iteration get_primary_key is_auto_increment existing auto_dir t tr
  = (Raise GenExn.ValueError, tr).
Proof.
  intros Hbad. unfold table_iteration. unfold mbind at 1. unfold G_bind, lift_outcome.
  by rewrite (list_remove_bad t Hbad).
Qed.

Lemma table_events_bad t :
  ~ good_table get_primary_key t ->
  table_events get_primary_key is_auto_increment existing auto_dir t = [].
Proof. intros Hbad. unfold table_events. by rewrite (list_remove_bad t Hbad). Qed.

Lemma tables_loop_cons t tables pk tr :
  tables_loop get_primary_key is_auto_increment existing auto_dir (t :: tables) pk tr
  = match table_iteration get_primary_key is_auto_increment existing auto_dir t tr with
    | (Ok pk', tr') =>
        tables_loop get_primary_key is_auto_increment existing auto_dir tables (Some pk') tr'
    | (Raise e, tr') => (Raise e, tr')
    end.
Proof. reflexivity. Qed.

Lemma last_key_cons t u tables :
  last_key get_primary_key (t :: u :: tables) = last_key get_primary_key (u :: tables).
Proof. reflexivity. Qed.

Lemma tables_loop_good tables pk tr :
  Forall (good_table get_primary_key) tables ->
  tables_loop get_primary_key is_auto_increment existing auto_dir tables pk tr
  = (Ok (match last_key get_primary_key tables with Some pk' => Some pk' | None => pk end),
     tr ++ flat_map (table_events get_primary_key is_auto_increment existing auto_dir) tables).
Proof.
  intros Hgood. revert pk tr. induction Hgood as [|t tables Ht Hts IH]; intros pk tr.
  - simpl. by rewrite app_nil_r.
  - rewrite tables_loop_cons.
    destruct (table_iteration_good t tr Ht) as (pk' & Hpk' & ->).
    rewrite IH. cbn [flat_map]. rewrite app_assoc. f_equal. f_equal.
    destruct tables as [|u tables]; [by unfold last_key; simpl; rewrite Hpk'|].
    rewrite last_key_cons. destruct (last_key get_primary_key (u :: tables)) eqn:Hl; [done|].
    exfalso. revert Hl. clear -Hts. unfold last_key.
    destruct (proj2 (last_is_Some (u :: tables))) as [v Hv]; [done|]. rewrite Hv.
    simpl. apply last_Some_elem_of in Hv. rewrite Forall_forall in Hts.
    destruct (Hts v Hv) as (p & -> & _). done.
Qed.

Lemma tables_loop_bad good bad rest pk tr :
  Forall (good_table get_primary_key) good -> ~ good_table get_primary_key bad ->
  tables_loop get_primary_key is_auto_increment existing auto_dir (good ++ bad :: rest) pk tr
  = (Raise GenExn.ValueError,
     tr ++ flat_map (table_events get_primary_key is_auto_increment existing auto_dir) good).
Proof.
  intros Hgood Hbad. revert pk tr. induction Hgood as [|t tables Ht Hts IH]; intros pk tr.
  - simpl app. rewrite tables_loop_cons, table_iteration_bad by done. simpl. by rewrite app_nil_r.
  - rewrite <- app_comm_cons, tables_loop_cons.
    destruct (table_iteration_good t tr Ht) as (pk' & Hpk' & ->).
    rewrite IH. cbn [flat_map]. by rewrite app_assoc.
Qed.

Lemma view_iteration_bound pk v tr :
  view_iteration existing auto_dir (Some pk) v tr
  = (Ok tt, tr ++ view_events existing auto_dir pk v).
Proof.
  unfold view_iteration, view_events, view_endpoints, file_events, user_defined, collection_route.
  unfold lift_outcome, mbind, G_bind, emit, dicts_to_file, mret, G_ret.
  cbn [List.filter snd d_route d_method generate_get_all].
  destruct (bool_decide (("/" +:+ lower (fst v), "GET") ∈ existing));
    cbn [negb length Nat.eqb app map]; unfold emit; rewrite <- ?app_assoc; reflexivity.
Qed.

Lemma view_iteration_unbound v tr :
  view_iteration existing auto_dir None v tr
  = if bool_decide ((collection_route (fst v), "GET") ∈ existing)
    then (Ok tt, tr ++ [Log INFO (MsgGeneratingEndpoints (lower (fst v)));
                        ApiFile [] (lower (fst v))])
    else (Raise GenExn.UnboundLocalError,
          tr ++ [Log INFO (MsgGeneratingEndpoints (lower (fst v)))]).
Proof.
  unfold view_iteration, collection_route.
  unfold lift_outcome, mbind, G_bind, emit, dicts_to_file, mret, G_ret.
  destruct (bool_decide (("/" +:+ lower (fst v), "GET") ∈ existing));
    cbn [negb length Nat.eqb app map]; unfold emit; rewrite <- ?app_assoc; reflexivity.
Qed.

Lemma views_loop_cons pk v views tr :
  views_loop existing auto_dir pk (v :: views) tr
  = match view_iteration existing auto_dir pk v tr with
    | (Ok _, tr') => views_loop existing auto_dir pk views tr'
    | (Raise e, tr') => (Raise e, tr')
    end.
Proof. reflexivity. Qed.

Lemma views_loop_bound pk views tr :
  views_loop existing auto_dir (Some pk) views tr
  = (Ok tt, tr ++ flat_map (view_events existing auto_dir pk) views).
Proof.
  revert tr. induction views as [|v views IH]; intros tr; [by simpl; rewrite app_nil_r|].
  rewrite views_loop_cons, view_iteration_bound, IH. cbn [flat_map]. by rewrite app_assoc.
Qed.

Lemma written_app tr1 tr2 : written (tr1 ++ tr2) = written tr1 ++ written tr2.
Proof. unfold written. apply omap_app. Qed.

Lemma views_loop_unbound views tr :
  let run := views_loop existing auto_dir None views tr in
  fst run = (if forallb (fun v => bool_decide ((collection_route (fst v), "GET") ∈ existing)) views
             then Ok tt else Raise GenExn.UnboundLocalError) /\
  written (snd run) = written tr.
Proof.
  cbv zeta. revert tr. induction views as [|v views IH]; intros tr; [done|].
  rewrite views_loop_cons, view_iteration_unbound. cbn [forallb].
  destruct (bool_decide ((collection_route (fst v), "GET") ∈ existing)); cbn [andb].
  - destruct (IH (tr ++ [Log INFO (MsgGeneratingEndpoints (lower (fst v)));
                         ApiFile [] (lower (fst v))])) as [-> ->].
    split; [done|]. rewrite written_app. simpl. by rewrite app_nil_r.
  - split; [done|]. simpl. rewrite written_app. simpl. by rewrite app_nil_r.
Qed.

Lemma create_entity_endpoints_eq tables views tr :
  create_entity_endpoints getcwd auto_dir_exists tables views get_primary_key is_auto_increment
    existing tr
  = match tables_loop get_primary_key is_auto_increment existing (auto_dir_of getcwd) tables None
            (tr ++ setup_events getcwd auto_dir_exists) with
    | (Ok pk, tr') => views_loop existing (auto_dir_of getcwd) pk views tr'
    | (Raise e, tr') => (Raise e, tr')
    end.
Proof.
  unfold create_entity_endpoints, setup_events, auto_dir_of.
  unfold mbind, G_bind, emit, mret, G_ret.
  destruct auto_dir_exists; cbn [app]; rewrite <- ?app_assoc; cbn [app];
    rewrite ?str_app_assoc; reflexivity.
Qed.

End Run.

(** X16.  [params_to_string] writes the columns of an INSERT between
    parentheses and the assignments of an UPDATE, each list separated by a
    comma and a space; [is_create] prevails over [is_update] and with neither
    the result is [None].  For an empty list of columns the INSERT text is a
    closing parenthesis alone, and the UPDATE text is empty. *)
Theorem params_to_string_text param_list char_add :
  (param_list <> [] ->
   params_to_string param_list char_add true false
   = Some ("(" +:+ join ", " (map (String.append char_add) param_list) +:+ ")")) /\
  params_to_string param_list char_add false true
  = Some (join ", " (map (fun p => p +:+ " = $" +:+ p) param_list)) /\
  params_to_string param_list char_add true true = params_to_string param_list char_add true false /\
  params_to_string param_list char_add false false = None /\
  params_to_string [] char_add true false = Some ")" /\
  params_to_string [] char_add false true = Some "".
Proof.
  split; [|split; [apply params_to_string_update|done]].
  intros Hne. rewrite params_to_string_create. by destruct param_list.
Qed.

(** X17.  The texts of [params_to_string] hold the parameters they are meant
    to: for columns that are identifiers, the parameters the extractor finds
    in the values of an INSERT and in the assignments of an UPDATE are the
    columns, in order, and it finds none in the list of the column names. *)
Theorem params_to_string_round_trip param_list :
  Forall identifier param_list ->
  (extract_params <$> params_to_string param_list "$" true false) = Some param_list /\
  (extract_params <$> params_to_string param_list "" false true) = Some param_list /\
  (extract_params <$> params_to_string param_list "" true false) = Some [].
Proof.
  intros Hl. rewrite !params_to_string_create, params_to_string_update. simpl.
  split; [|split]; f_equal.
  - rewrite <- (str_app_nil_r (tuple_text "$" param_list)).
    rewrite extract_params_tuple_dollar by done. by rewrite app_nil_r.
  - rewrite <- (str_app_nil_r (set_text param_list)).
    rewrite extract_params_set by done. by rewrite app_nil_r.
  - apply extract_params_plain. by apply has_char_tuple_plain.
Qed.

Lemma params_to_string_round_trip_witness :
  (extract_params <$> params_to_string ["name"; "age"] "$" true false) = Some ["name"; "age"] /\
  (extract_params <$> params_to_string ["name"; "age"] "" false true) = Some ["name"; "age"] /\
  (extract_params <$> params_to_string ["name"; "age"] "" true false) = Some [].
Proof.
  apply (params_to_string_round_trip ["name"; "age"]).
  repeat constructor; done.
Defined.



Lemma fresh_file_events existing auto_dir name pk eps :
  (forall k d, (k, d) ∈ eps -> (d_route d, d_method d) ∉ existing) ->
  Forall (fresh existing) (file_events auto_dir name pk eps).
Proof.
  intros Heps. unfold file_events. repeat constructor.
  destruct eps as [|e eps]; [constructor|]. repeat constructor; done.
Qed.

Lemma filter_not_user_defined existing (l : list (string * endpoint_dict)) k d :
  (k, d) ∈ List.filter (fun kd => negb (user_defined existing (snd kd))) l ->
  (k, d) ∈ l /\ (d_route d, d_method d) ∉ existing.
Proof.
  intros Hin. apply list_elem_of_In, filter_In in Hin as [Hin Hu]. split; [by apply list_elem_of_In|].
  unfold user_defined in Hu. simpl in Hu. apply negb_true_iff, bool_decide_eq_false in Hu. done.
Qed.

Lemma fresh_table_events get_primary_key is_auto_increment existing auto_dir t :
  Forall (fresh existing) (table_events get_primary_key is_auto_increment existing auto_dir t).
Proof.
  unfold table_events. destruct (list_remove _ _) as [[pk columns]|]; [|constructor].
  apply fresh_file_events. intros k d Hin. by apply filter_not_user_defined in Hin as [_ ?].
Qed.

Lemma fresh_view_events existing auto_dir pk v :
  Forall (fresh existing) (view_events existing auto_dir pk v).
Proof.
  apply fresh_file_events. intros k d Hin. by apply filter_not_user_defined in Hin as [_ ?].
Qed.

Lemma Forall_flat_map {A B} (P : B -> Prop) (f : A -> list B) l :
  (forall x, Forall P (f x)) -> Forall P (flat_map f l).
Proof. intros Hf. induction l as [|x l IH]; [constructor|]. simpl. by apply Forall_app_2. Qed.

Lemma tables_loop_split get_primary_key (tables : list table_t) :
  Forall (good_table get_primary_key) tables \/
  exists good bad rest, tables = good ++ bad :: rest /\
                        Forall (good_table get_primary_key) good /\
                        ~ good_table get_primary_key bad.
Proof.
  induction tables as [|t tables IH]; [left; constructor|].
  assert (Decision (good_table get_primary_key t)) as [Ht|Ht].
  { unfold good_table. destruct (get_primary_key (fst t)) as [pk|].
    - destruct (decide (pk ∈ snd t)) as [Hin|Hin]; [left; by exists pk|].
      right. by intros (pk' & [= <-] & ?).
    - right. by intros (pk' & ? & ?). }
  - destruct IH as [IH|(good & bad & rest & -> & Hg & Hb)].
    + left. by constructor.
    + right. exists (t :: good), bad, rest. split; [done|]. split; [by constructor|done].
  - right. exists [], t, tables. split; [done|]. split; [constructor|done].
Qed.

Lemma setup_events_fresh getcwd auto_dir_exists existing :
  Forall (fresh existing) (setup_events getcwd auto_dir_exists).
Proof. unfold setup_events. destruct auto_dir_exists; repeat constructor. Qed.

Lemma written_elem path dicts tr : (path, dicts) ∈ written tr <-> WriteJson path dicts ∈ tr.
Proof.
  unfold written. rewrite list_elem_of_omap. split.
  - intros (e & He & Hm). destruct e; try done. by injection Hm as -> ->.
  - intros He. by exists (WriteJson path dicts).
Qed.

(** X19.  A run never writes an endpoint the user has defined: whatever the
    tables and the views, and whether it ends well or not, every JSON file it
    writes holds at least one endpoint, and none whose route and method are a
    pair of the user's endpoints. *)
Theorem generator_never_overrides getcwd auto_dir_exists tables views get_primary_key
    is_auto_increment existing path dicts :
  WriteJson path dicts
    ∈ snd (create_entity_endpoints getcwd auto_dir_exists tables views get_primary_key
             is_auto_increment existing []) ->
  dicts <> [] /\ forall k d, (k, d) ∈ dicts -> (d_route d, d_method d) ∉ existing.
Proof.
  intros Hin.
  assert (Forall (fresh existing)
            (snd (create_entity_endpoints getcwd auto_dir_exists tables views get_primary_key
                    is_auto_increment existing []))) as Hall.
  { rewrite create_entity_endpoints_eq, app_nil_l.
    assert (Forall (fresh existing)
              (setup_events getcwd auto_dir_exists ++
               flat_map (table_events get_primary_key is_auto_increment existing
                           (auto_dir_of getcwd)) tables)) as Htables.
    { apply Forall_app_2; [apply setup_events_fresh|].
      apply Forall_flat_map. intros t. apply fresh_table_events. }
    destruct (tables_loop_split get_primary_key tables)
      as [Hgood|(good & bad & rest & -> & Hgood & Hbad)].
    - rewrite tables_loop_good by done.
      destruct (last_key get_primary_key tables) as [pk|].
      + rewrite views_loop_bound. cbn [snd]. apply Forall_app_2; [done|].
        apply Forall_flat_map. intros v. apply fresh_view_events.
      + pose proof (views_loop_unbound existing (auto_dir_of getcwd) views
          (setup_events getcwd auto_dir_exists ++
           flat_map (table_events get_primary_key is_auto_increment existing
                       (auto_dir_of getcwd)) tables)) as [_ Hw].
        apply Forall_forall. intros e He. destruct e; try done.
        apply written_elem in He. rewrite Hw in He. apply written_elem in He.
        revert He. by apply Forall_forall.
    - rewrite tables_loop_bad by done. cbn [snd].
      apply Forall_app_2; [apply setup_events_fresh|].
      apply Forall_flat_map. intros t. apply fresh_table_events. }
  rewrite Forall_forall in Hall. apply (Hall _ Hin).
Qed.

Lemma generator_never_overrides_witness :
  WriteJson "/srv/endpoints/auto/tags.json"
    (table_endpoints DemoTables.existing "Tags" "tag" false [])
    ∈ snd (DemoTables.run DemoTables.tables DemoTables.views) /\
  forall k d, (k, d) ∈ table_endpoints DemoTables.existing "Tags" "tag" false [] ->
              (d_route d, d_method d) ∉ DemoTables.existing.
Proof.
  assert (WriteJson "/srv/endpoints/auto/tags.json"
            (table_endpoints DemoTables.existing "Tags" "tag" false [])
            ∈ snd (DemoTables.run DemoTables.tables DemoTables.views)) as Hin.
  { vm_compute. do 9 right. left. }
  split; [done|].
  apply (generator_never_overrides "/srv" true DemoTables.tables DemoTables.views
           DemoTables.get_primary_key DemoTables.is_auto_increment DemoTables.existing _ _ Hin).
Defined.

(** X20.  When the primary key of a table is unknown or is not one of its
    columns, the run ends there with a [ValueError]: the tables before it
    have been handled, nothing is logged or written for this table, and
    neither the tables after it nor any view is handled. *)
Theorem missing_key_aborts getcwd auto_dir_exists good bad rest views get_primary_key
    is_auto_increment existing tr :
  Forall (good_table get_primary_key) good ->
  ~ good_table get_primary_key bad ->
  create_entity_endpoints getcwd auto_dir_exists (good ++ bad :: rest) views get_primary_key
    is_auto_increment existing tr
  = (Raise GenExn.ValueError,
     snd (create_entity_endpoints getcwd auto_dir_exists good [] get_primary_key
            is_auto_increment existing tr)).
Proof.
  intros Hgood Hbad. rewrite !create_entity_endpoints_eq.
  rewrite tables_loop_bad, tables_loop_good by done. simpl. done.
Qed.

Lemma missing_key_aborts_witness :
  DemoTables.run [("Users", ["id"; "name"]); ("Logs", ["line"]); ("Tags", ["tag"])]
                 DemoTables.views
  = (Raise GenExn.ValueError, snd (DemoTables.run [("Users", ["id"; "name"])] [])).
Proof.
  apply (missing_key_aborts "/srv" true [("Users", ["id"; "name"])] ("Logs", ["line"])
           [("Tags", ["tag"])] DemoTables.views DemoTables.get_primary_key
           DemoTables.is_auto_increment DemoTables.existing []).
  - repeat constructor. exists "id". split; [reflexivity|]. by left.
  - intros (pk & Hpk & _). vm_compute in Hpk. discriminate.
Defined.

(** X21.  The tuple of a view is built with the variable [pk] of the loop
    over the tables.  Without any table the variable is unbound: the run
    raises [UnboundLocalError] at the first view whose list the user has not
    defined, and ends well only when there is no such view; either way it
    writes no JSON file. *)
Theorem views_need_a_table getcwd auto_dir_exists views get_primary_key is_auto_increment
    existing tr :
  let run := create_entity_endpoints getcwd auto_dir_exists [] views get_primary_key
               is_auto_increment existing tr in
  fst run = (if forallb (fun v => bool_decide ((collection_route (fst v), "GET") ∈ existing)) views
             then Ok tt else Raise GenExn.UnboundLocalError) /\
  written (snd run) = written tr.
Proof.
  cbv zeta. rewrite create_entity_endpoints_eq. cbn [tables_loop mret G_ret].
  destruct (views_loop_unbound existing (auto_dir_of getcwd) views
              (tr ++ setup_events getcwd auto_dir_exists)) as [-> ->].
  split; [done|]. rewrite written_app.
  unfold setup_events. destruct auto_dir_exists; simpl; by rewrite app_nil_r.
Qed.

(** ** The generated endpoints and the registrar *)

Lemma covered_missing sql_params user_params :
  (forall p, p ∈ sql_params -> p ∈ user_params) -> missing_params sql_params user_params = ∅.
Proof. intros H. apply missing_params_empty. intros p Hp _. by apply H. Qed.

Lemma register_dict_run settings get_sql_op d w :
  get_sql_op (d_sql d) = op_of_method (d_method d) ->
  op_of_method (d_method d) <> OTHER ->
  d_allowed_roles d = ["*"] ->
  verb_notes (op_of_method (d_method d)) (d_method d) (d_route d) = [] ->
  (forall p, p ∈ extract_params (d_sql d) ->
             p ∈ declared_sources (op_of_method (d_method d)) (d_route d) (body_params_of d)) ->
  register_dict settings get_sql_op d w
  = (Val tt,
     {| logs := logs w ++ [(DEBUG, MsgSettingUp (d_method d) (d_route d))] ++
                logged_id_notes (d_sql d) (d_auth_required d) (d_method d) (d_route d);
        url_map := url_map w ++
                   [installed_rule settings (op_of_method (d_method d)) (d_route d) (d_method d)
                      (d_sql d) (d_auth_required d) (PyList [VStr "*"]) (body_params_of d)];
        api_summary := api_summary w ++
                       [{| sum_route := full_route_of settings (d_route d);
                           sum_method := d_method d;
                           sum_description := Some (d_description d) |}];
        dal_calls := dal_calls w |}).
Proof.
  intros Hop Hne Hroles Hverb Hcov. unfold register_dict.
  rewrite setup_endpoint_run by by rewrite Hop.
  rewrite Hop, Hroles. rewrite covered_missing by done.
  destruct (decide (∅ = ∅)) as [_|]; [|done].
  unfold registration_notes. rewrite Hop, Hverb. cbn [map].
  replace (roles_notes (d_auth_required d) [VStr "*"] (d_method d) (d_route d)) with
    (@nil (level * log_msg)) by by destruct (d_auth_required d).
  by rewrite !app_nil_r.
Qed.

(** X22.  The endpoints generated for a table pass the checks of the
    registrar.  Let the name of the table hold no dollar sign and its columns
    be identifiers.  If [get_sql_op] finds in the query of a generated
    endpoint the operation of its method, [setup_endpoint], called with the
    keys of the dictionary, exits nowhere: every parameter of the query is in
    the route or the declared body, neither the verb nor the roles draw a
    warning, and the rule and the summary entry are added. *)
Theorem generated_endpoints_register settings get_sql_op existing name pk is_AI columns k d w :
  has_char "$" name = false ->
  identifier pk ->
  Forall identifier columns ->
  (k, d) ∈ candidate_endpoints existing name pk is_AI columns ->
  get_sql_op (d_sql d) = op_of_method (d_method d) ->
  register_dict settings get_sql_op d w
  = (Val tt,
     {| logs := logs w ++ [(DEBUG, MsgSettingUp (d_method d) (d_route d))] ++
                logged_id_notes (d_sql d) (d_auth_required d) (d_method d) (d_route d);
        url_map := url_map w ++
                   [installed_rule settings (op_of_method (d_method d)) (d_route d) (d_method d)
                      (d_sql d) (d_auth_required d) (PyList [VStr "*"]) (body_params_of d)];
        api_summary := api_summary w ++
                       [{| sum_route := full_route_of settings (d_route d);
                           sum_method := d_method d;
                           sum_description := Some (d_description d) |}];
        dal_calls := dal_calls w |}).
Proof.
  intros Hname Hpk Hcols Hin Hop.
  assert (Forall identifier (create_columns pk is_AI columns)) as Hcreated.
  { unfold create_columns. destruct is_AI; [done|]. apply Forall_app_2; [done|by constructor]. }
  assert (Forall identifier (update_columns existing name pk is_AI columns)) as Hupdated.
  { unfold update_columns. by destruct (bool_decide _). }
  apply register_dict_run; try done; unfold candidate_endpoints in Hin;
    repeat (apply elem_of_cons in Hin as [[= -> ->]|Hin]); try (by apply elem_of_nil in Hin);
    try done.
  - rewrite extract_params_get_all by done. by intros p ?%elem_of_nil.
  - rewrite extract_params_get_by_id by done.
    cbn [d_route d_method generate_get_by_id op_of_method declared_sources String.eqb].
    change (declared_sources _ _ _) with (extract_params (item_route name pk)).
    by rewrite extract_params_item_route.
  - rewrite extract_params_created by done. intros p Hp.
    change (declared_sources _ _ _)
      with (extract_params (collection_route name) ++ create_columns pk is_AI columns).
    by rewrite extract_params_collection_route.
  - rewrite extract_params_updated by done. intros p Hp.
    change (declared_sources _ _ _)
      with (extract_params (item_route name pk) ++ update_columns existing name pk is_AI columns).
    rewrite extract_params_item_route by done. set_solver.
  - rewrite extract_params_delete by done.
    change (declared_sources _ _ _) with (extract_params (item_route name pk)).
    by rewrite extract_params_item_route.
Qed.

Lemma generated_endpoints_register_witness :
  fst (register_dict Demo.settings SqlModel.get_sql_op
         (updated_endpoint (item_route "Tags" "tag") "Tags" "tag"
            (update_columns DemoTables.existing "Tags" "tag" false ["label"])) Demo.w0)
  = Val tt.
Proof.
  rewrite (generated_endpoints_register Demo.settings SqlModel.get_sql_op DemoTables.existing
             "Tags" "tag" false ["label"] "update" _ Demo.w0); [done|done|done| | |].
  - by repeat constructor.
  - unfold candidate_endpoints. do 3 right. left.
  - vm_compute. reflexivity.
Defined.

(** X23.  The list of the columns of a table is shared by the generators:
    [generate_create] appends the primary key to it when the key does not
    increment by itself, and [generate_update] reads it afterwards.  So the
    update endpoint written for a table sets the primary key, and expects it
    in the body, exactly when the create endpoint has been generated in the
    same run, the user having defined none, for such a key; otherwise it sets
    the other columns only. *)
Theorem update_sets_key get_primary_key is_auto_increment existing auto_dir name all_columns
    pk columns tr :
  get_primary_key name = Some pk ->
  remove_first pk all_columns = Some columns ->
  (item_route name pk, "PUT") ∉ existing ->
  let created := negb (bool_decide ((collection_route name, "POST") ∈ existing)) in
  let updated := if created && negb (is_auto_increment name (Some pk))
                 then columns ++ [pk] else columns in
  exists before dicts,
    snd (table_iteration get_primary_key is_auto_increment existing auto_dir
           (name, all_columns) tr)
    = before ++ [WriteJson (auto_dir +:+ "/" +:+ lower name +:+ ".json") dicts] /\
    (forall d, ("update", d) ∈ dicts <-> d = updated_endpoint (item_route name pk) name pk updated).
Proof.
  intros Hpk Hrem Hput. cbv zeta.
  rewrite (table_iteration_run _ _ _ _ name all_columns pk columns tr Hpk Hrem).
  unfold file_events. cbn [snd].
  set (eps := table_endpoints existing name pk (is_auto_increment name (Some pk)) columns).
  set (updated := if _ && _ then _ else _).
  assert (forall d, ("update", d) ∈ eps
                    <-> d = updated_endpoint (item_route name pk) name pk updated) as Hup.
  { intros d. subst eps. unfold table_endpoints.
    rewrite list_elem_of_In, filter_In, <- list_elem_of_In. unfold candidate_endpoints.
    assert (update_columns existing name pk (is_auto_increment name (Some pk)) columns = updated)
      as ->.
    { subst updated. unfold update_columns, create_columns, collection_route.
      destruct (bool_decide _); [done|]. by destruct (is_auto_increment _ _). }
    split.
    - intros [Hin _]. repeat (apply elem_of_cons in Hin as [[=]|Hin]); try done.
      by apply elem_of_nil in Hin.
    - intros ->. split; [do 3 right; left|].
      unfold user_defined. cbn [snd d_route d_method updated_endpoint].
      apply negb_true_iff, bool_decide_eq_false. done. }
  clearbody eps. destruct eps as [|e rest].
  - exfalso. by apply (elem_of_nil ("update", updated_endpoint (item_route name pk) name pk updated)),
      Hup.
  - eexists _, (e :: rest). split; [|done]. rewrite app_assoc. reflexivity.
Qed.

Lemma update_sets_key_witness :
  exists before dicts,
    snd (table_iteration DemoTables.get_primary_key (fun _ _ => false) [] "/auto"
           ("Tags", ["tag"; "label"]) [])
    = before ++ [WriteJson "/auto/tags.json" dicts] /\
    (forall d, ("update", d) ∈ dicts
               <-> d = updated_endpoint "/tags/$tag" "Tags" "tag" ["label"; "tag"]).
Proof.
  apply (update_sets_key DemoTables.get_primary_key (fun _ _ => false) [] "/auto" "Tags"
           ["tag"; "label"] "tag" ["label"] []); [reflexivity|reflexivity|].
  by intros ?%elem_of_nil.
Defined.





